(** * A shallow embedding of the segregated-free-list allocator [malloc/mm.c]

    The allocator manages a byte arena obtained from [memlib] through raw
    pointer casts: 4-byte boundary tags, 8-byte free-list links that overlay
    the payload, and a bucket table stored at the very start of the arena.
    The embedding keeps that picture: a byte-addressed store, little-endian
    loads and stores of 4 and 8 bytes, [size_t] arithmetic with its wrap-around
    written out, and a state-and-fault monad for the C functions. *)

From Stdlib Require Import String.
From Stdlib Require Import ZArith List Lia Bool.
Import ListNotations.
Open Scope Z_scope.

(** ** Byte-addressed memory *)

Module Mem.

Definition mem := Z -> Z.

(** A cell holds one byte; whatever number sits in the map is read modulo 256,
    so every map is a memory. *)
Definition byte_at (m : mem) (a : Z) : Z := m a mod 256.

Definition set_byte (m : mem) (a v : Z) : mem :=
  fun x => if x =? a then v mod 256 else m x.

(** Little-endian read and write of [n] bytes. *)
Fixpoint rd (n : nat) (m : mem) (a : Z) : Z :=
  match n with
  | O => 0
  | S k => byte_at m a + 256 * rd k m (a + 1)
  end.

Fixpoint wr (n : nat) (m : mem) (a v : Z) : mem :=
  match n with
  | O => m
  | S k => wr k (set_byte m a v) (a + 1) (v / 256)
  end.

(** [memcpy]: every destination byte receives the source byte of the
    memory before the call. *)
Definition copy (m : mem) (dst src n : Z) : mem :=
  fun x => if (dst <=? x) && (x <? dst + n) then byte_at m (src + (x - dst)) else m x.

End Mem.

(** ** Allocator state and the monad of the C functions *)

Record state := mkState {
  bytes : Mem.mem;          (* contents of the address space *)
  mem_lo : Z;               (* memlib: first byte of the arena *)
  mem_brk : Z;              (* memlib: one past the last byte of the arena *)
  mem_max : Z;              (* memlib: one past the last byte it can grow to *)
  heap_listp : Z;           (* static char *heap_listp *)
  seg_free : Z;             (* static char **seg_free *)
  out : list String.string         (* what printf has written so far *)
}.

Definition with_bytes (s : state) (m : Mem.mem) : state :=
  mkState m (mem_lo s) (mem_brk s) (mem_max s) (heap_listp s) (seg_free s) (out s).
Definition with_brk (s : state) (b : Z) : state :=
  mkState (bytes s) (mem_lo s) b (mem_max s) (heap_listp s) (seg_free s) (out s).
Definition with_heap_listp (s : state) (p : Z) : state :=
  mkState (bytes s) (mem_lo s) (mem_brk s) (mem_max s) p (seg_free s) (out s).
Definition with_seg_free (s : state) (p : Z) : state :=
  mkState (bytes s) (mem_lo s) (mem_brk s) (mem_max s) (heap_listp s) p (out s).
Definition with_out (s : state) (o : list String.string) : state :=
  mkState (bytes s) (mem_lo s) (mem_brk s) (mem_max s) (heap_listp s) (seg_free s) o.

(** A call returns normally with a value and a state, stops at an access
    outside the arena (undefined behaviour in C), or is still running when
    the fuel of a loop is used up. *)
Inductive outcome (A : Type) : Type :=
| Ok (a : A) (s : state)
| Fault (s : state)
| OutOfFuel.
Arguments Ok {A} a s.
Arguments Fault {A} s.
Arguments OutOfFuel {A}.

Definition M (A : Type) : Type := state -> outcome A.

Definition ret {A} (a : A) : M A := fun s => Ok a s.
Definition bind {A B} (c : M A) (k : A -> M B) : M B :=
  fun s => match c s with
           | Ok a s' => k a s'
           | Fault s' => Fault s'
           | OutOfFuel => OutOfFuel
           end.

Declare Scope mm_scope.
Delimit Scope mm_scope with mm.
Notation "x <- c ;; k" := (bind c (fun x => k))
  (at level 61, c at next level, right associativity) : mm_scope.
Notation "c ;;; k" := (bind c (fun _ => k))
  (at level 61, right associativity) : mm_scope.
Open Scope mm_scope.

Definition get_state : M state := fun s => Ok s s.
Definition fault {A} : M A := fun s => Fault s.

(** ** Machine arithmetic *)

Definition SIZE_MOD : Z := 2 ^ 64.       (* size_t and pointers *)
Definition UINT_MOD : Z := 2 ^ 32.       (* unsigned int *)
Definition to_size_t (v : Z) : Z := v mod SIZE_MOD.
Definition to_uint (v : Z) : Z := v mod UINT_MOD.
(** Conversion to [int]: the low 32 bits, read in two's complement. *)
Definition to_int (v : Z) : Z :=
  let w := v mod UINT_MOD in if w <? 2 ^ 31 then w else w - UINT_MOD.

Definition NULL : Z := 0.
Definition MINUS_ONE_PTR : Z := SIZE_MOD - 1.    (* (void * )-1 *)

(** ** Basic constants and macros *)

Definition WSIZE : Z := 4.
Definition DSIZE : Z := 8.
Definition CHUNKSIZE : Z := 170.
Definition BUCKETS : Z := 12.

Definition MAX (x y : Z) : Z := if x >? y then x else y.
Definition PACK (size alloc : Z) : Z := Z.lor size alloc.

(** An access of [n] bytes at [a] is defined only inside the arena. *)
Definition in_arena (s : state) (a n : Z) : bool :=
  (mem_lo s <=? a) && (a + n <=? mem_brk s).

Definition load (n : nat) (a : Z) : M Z :=
  fun s => if in_arena s a (Z.of_nat n) then Ok (Mem.rd n (bytes s) a) s else Fault s.
Definition store (n : nat) (a v : Z) : M unit :=
  fun s => if in_arena s a (Z.of_nat n)
           then Ok tt (with_bytes s (Mem.wr n (bytes s) a v)) else Fault s.

(** [GET]/[PUT] move an [unsigned int]; the link macros and [seg_free[i]]
    move a [char *]. *)
Definition GET (p : Z) : M Z := load 4 p.
Definition PUT (p val : Z) : M unit := store 4 p (to_uint val).
Definition load_ptr (p : Z) : M Z := load 8 p.
Definition store_ptr (p v : Z) : M unit := store 8 p (to_size_t v).

Definition GET_SIZE (p : Z) : M Z := w <- GET p ;; ret (Z.land w (Z.lnot 7)).
Definition GET_ALLOC (p : Z) : M Z := w <- GET p ;; ret (Z.land w 1).

Definition HDRP (bp : Z) : Z := bp - WSIZE.
Definition FTRP (bp : Z) : M Z := sz <- GET_SIZE (HDRP bp) ;; ret (bp + sz - DSIZE).
Definition NEXT_BLKP (bp : Z) : M Z := sz <- GET_SIZE (bp - WSIZE) ;; ret (bp + sz).
Definition PREV_BLKP (bp : Z) : M Z := sz <- GET_SIZE (bp - DSIZE) ;; ret (bp - sz).

Definition NEXT_FREE (bp : Z) : M Z := load_ptr (bp + DSIZE).
Definition PREV_FREE (bp : Z) : M Z := load_ptr bp.
Definition set_NEXT_FREE (bp v : Z) : M unit := store_ptr (bp + DSIZE) v.
Definition set_PREV_FREE (bp v : Z) : M unit := store_ptr bp v.

Definition seg_slot (i : Z) : M Z := s <- get_state ;; ret (seg_free s + 8 * i).
Definition get_bucket (i : Z) : M Z := a <- seg_slot i ;; load_ptr a.
Definition set_bucket (i v : Z) : M unit := a <- seg_slot i ;; store_ptr a v.

(** [printf]: the message is appended to the output; the trailing newline of
    the messages in mm.c is left out. *)
Definition printf (msg : String.string) : M unit :=
  fun s => Ok tt (with_out s (out s ++ [msg])).

(** ** memlib *)

(** Modelled from the spec: [mem_sbrk], [mem_heap_lo] and [mem_heap_hi] of
    memlib are not part of the sources.  The arena is one contiguous region
    between a low and a high address that only grows; growing returns the
    old end of the arena, and fails with [(void * )-1], leaving everything
    as it was, once the host has no room left. *)
Definition mem_sbrk (incr : Z) : M Z :=
  fun s => if (0 <=? incr) && (mem_brk s + incr <=? mem_max s)
           then Ok (mem_brk s) (with_brk s (mem_brk s + incr))
           else Ok MINUS_ONE_PTR s.
Definition mem_heap_lo : M Z := fun s => Ok (mem_lo s) s.
Definition mem_heap_hi : M Z := fun s => Ok (mem_brk s - 1) s.

(** Modelled from the spec: the arena before [mm_init], as memlib hands it
    over: empty, at base [lo], able to grow up to [hi], with arbitrary
    contents [m0]; the two static pointers of mm.c are still null. *)
Definition mem_init (lo hi : Z) (m0 : Mem.mem) : state :=
  mkState m0 lo lo hi 0 0 [].

(** ** find_bucket *)

Fixpoint find_bucket_loop (n : nat) (i bsize bucket : Z) : Z :=
  match n with
  | O => bucket
  | S k => find_bucket_loop k (i + 1) bsize
             (if bsize >=? Z.shiftl 1 (i + 4) then i else bucket)
  end.

Definition find_bucket (size : Z) : Z :=
  find_bucket_loop (Z.to_nat BUCKETS) 0 (to_int size) 0.

(** ** insert_free and remove_free *)

Definition insert_free (bp : Z) : M unit :=
  sz <- GET_SIZE (HDRP bp) ;;
  let bsize := find_bucket sz in
  head <- get_bucket bsize ;;
  (if head =? NULL then
     set_PREV_FREE bp NULL ;;;
     set_NEXT_FREE bp NULL
   else
     h <- get_bucket bsize ;;
     set_PREV_FREE h bp ;;;
     h' <- get_bucket bsize ;;
     set_NEXT_FREE bp h' ;;;
     set_PREV_FREE bp NULL) ;;;
  set_bucket bsize bp.

Definition remove_free (bp : Z) : M unit :=
  sz <- GET_SIZE (HDRP bp) ;;
  let bucket := find_bucket sz in
  p <- PREV_FREE bp ;;
  n <- NEXT_FREE bp ;;
  if (p =? NULL) && (n =? NULL) then
    set_bucket bucket NULL
  else if p =? NULL then
    n1 <- NEXT_FREE bp ;;
    set_PREV_FREE n1 NULL ;;;
    n2 <- NEXT_FREE bp ;;
    set_bucket bucket n2
  else if n =? NULL then
    p1 <- PREV_FREE bp ;;
    set_NEXT_FREE p1 NULL
  else
    prev <- PREV_FREE bp ;;
    next <- NEXT_FREE bp ;;
    set_NEXT_FREE prev next ;;;
    set_PREV_FREE next prev.

(** ** coalesce *)

(** The four cases of [coalesce], up to the final insertion. *)
Definition coalesce_merge (bp prev_alloc next_alloc size : Z) : M Z :=
  if negb (prev_alloc =? 0) && negb (next_alloc =? 0) then
    ret bp
  else if negb (prev_alloc =? 0) && (next_alloc =? 0) then
    nb1 <- NEXT_BLKP bp ;;
    nsz <- GET_SIZE (HDRP nb1) ;;
    let size := to_size_t (size + nsz) in
    nb2 <- NEXT_BLKP bp ;;
    remove_free nb2 ;;;
    PUT (HDRP bp) (PACK size 0) ;;;
    f <- FTRP bp ;;
    PUT f (PACK size 0) ;;;
    ret bp
  else if (prev_alloc =? 0) && negb (next_alloc =? 0) then
    pb1 <- PREV_BLKP bp ;;
    psz <- GET_SIZE (HDRP pb1) ;;
    let size := to_size_t (size + psz) in
    pb2 <- PREV_BLKP bp ;;
    remove_free pb2 ;;;
    f <- FTRP bp ;;
    PUT f (PACK size 0) ;;;
    pb3 <- PREV_BLKP bp ;;
    PUT (HDRP pb3) (PACK size 0) ;;;
    PREV_BLKP bp
  else
    pb1 <- PREV_BLKP bp ;;
    psz <- GET_SIZE (HDRP pb1) ;;
    nb1 <- NEXT_BLKP bp ;;
    nf <- FTRP nb1 ;;
    nsz <- GET_SIZE nf ;;
    let size := to_size_t (size + to_uint (psz + nsz)) in
    pb2 <- PREV_BLKP bp ;;
    remove_free pb2 ;;;
    nb2 <- NEXT_BLKP bp ;;
    remove_free nb2 ;;;
    pb3 <- PREV_BLKP bp ;;
    PUT (HDRP pb3) (PACK size 0) ;;;
    nb3 <- NEXT_BLKP bp ;;
    nf3 <- FTRP nb3 ;;
    PUT nf3 (PACK size 0) ;;;
    PREV_BLKP bp.

Definition coalesce (bp : Z) : M Z :=
  pb <- PREV_BLKP bp ;;
  pf <- FTRP pb ;;
  prev_alloc <- GET_ALLOC pf ;;
  nb <- NEXT_BLKP bp ;;
  next_alloc <- GET_ALLOC (HDRP nb) ;;
  size <- GET_SIZE (HDRP bp) ;;
  bp' <- coalesce_merge bp prev_alloc next_alloc size ;;
  insert_free bp' ;;;
  ret bp'.

(** ** extend_heap *)

Definition extend_heap (words : Z) : M Z :=
  let size := if negb (words mod 2 =? 0)
              then to_size_t ((words + 1) * WSIZE)
              else to_size_t (words * WSIZE) in
  bp <- mem_sbrk size ;;
  if bp =? MINUS_ONE_PTR then ret NULL
  else
    PUT (HDRP bp) (PACK size 0) ;;;
    f <- FTRP bp ;;
    PUT f (PACK size 0) ;;;
    nb <- NEXT_BLKP bp ;;
    PUT (HDRP nb) (PACK 0 1) ;;;
    coalesce bp.

(** ** mm_init *)

Fixpoint clear_buckets (n : nat) (i : Z) : M unit :=
  match n with
  | O => ret tt
  | S k => set_bucket i NULL ;;; clear_buckets k (i + 1)
  end.

Definition set_heap_listp (p : Z) : M unit := fun s => Ok tt (with_heap_listp s p).
Definition set_seg_free (p : Z) : M unit := fun s => Ok tt (with_seg_free s p).
Definition get_heap_listp : M Z := fun s => Ok (heap_listp s) s.

Definition mm_init : M Z :=
  p <- mem_sbrk (4 * WSIZE + BUCKETS * DSIZE) ;;
  set_heap_listp p ;;;
  if p =? MINUS_ONE_PTR then ret (-1)
  else
    set_seg_free p ;;;
    clear_buckets (Z.to_nat BUCKETS) 0 ;;;
    set_heap_listp (p + BUCKETS * DSIZE) ;;;
    h <- get_heap_listp ;;
    PUT h 0 ;;;
    PUT (h + 1 * WSIZE) (PACK DSIZE 1) ;;;
    PUT (h + 2 * WSIZE) (PACK DSIZE 1) ;;;
    PUT (h + 3 * WSIZE) (PACK 0 1) ;;;
    set_heap_listp (h + 2 * WSIZE) ;;;
    r <- extend_heap (CHUNKSIZE / WSIZE) ;;
    if r =? NULL then ret (-1) else ret 0.

(** ** place and find_fit *)

Definition place (bp asize : Z) : M unit :=
  csize <- GET_SIZE (HDRP bp) ;;
  remove_free bp ;;;
  if to_size_t (csize - asize) >=? 3 * DSIZE then
    PUT (HDRP bp) (PACK asize 1) ;;;
    f <- FTRP bp ;;
    PUT f (PACK asize 1) ;;;
    nb <- NEXT_BLKP bp ;;
    PUT (HDRP nb) (PACK (to_size_t (csize - asize)) 0) ;;;
    nf <- FTRP nb ;;
    PUT nf (PACK (to_size_t (csize - asize)) 0) ;;;
    insert_free nb
  else
    PUT (HDRP bp) (PACK csize 1) ;;;
    f <- FTRP bp ;;
    PUT f (PACK csize 1).

(** The inner loop of [find_fit]: walk one bucket list from [bp]. *)
Fixpoint find_fit_list (fuel : nat) (asize bp : Z) : M Z :=
  match fuel with
  | O => fun _ => OutOfFuel
  | S k =>
      if bp =? NULL then ret NULL
      else
        sz <- GET_SIZE (HDRP bp) ;;
        if asize <=? sz then ret bp
        else nx <- NEXT_FREE bp ;; find_fit_list k asize nx
  end.

(** The outer loop: buckets [i], [i+1], ... while [i < BUCKETS]; [n] counts
    the buckets that are left. *)
Fixpoint find_fit_buckets (n : nat) (fuel : nat) (asize i : Z) : M Z :=
  match n with
  | O => ret NULL
  | S k =>
      head <- get_bucket i ;;
      r <- find_fit_list fuel asize head ;;
      if negb (r =? NULL) then ret r
      else find_fit_buckets k fuel asize (i + 1)
  end.

Definition find_fit (fuel : nat) (asize : Z) : M Z :=
  let bsize := find_bucket (to_size_t (to_int asize)) in
  find_fit_buckets (Z.to_nat (BUCKETS - bsize)) fuel asize bsize.

(** ** malloc, free, realloc *)

(** The adjusted block size computed by [malloc], in [size_t] arithmetic. *)
Definition adjust_size (size : Z) : Z :=
  if size <=? DSIZE then 3 * DSIZE
  else to_size_t (DSIZE * (to_size_t (to_size_t (size + DSIZE) + (DSIZE - 1)) / DSIZE)).

Definition lazy_init : M unit :=
  h <- get_heap_listp ;;
  if h =? 0 then mm_init ;;; ret tt else ret tt.

Definition malloc (fuel : nat) (size : Z) : M Z :=
  lazy_init ;;;
  if size =? 0 then ret NULL
  else
    let asize := adjust_size size in
    bp <- find_fit fuel asize ;;
    if negb (bp =? NULL) then
      place bp asize ;;; ret bp
    else
      let extendsize := MAX asize CHUNKSIZE in
      bp <- extend_heap (extendsize / WSIZE) ;;
      if bp =? NULL then ret NULL
      else place bp asize ;;; ret bp.

Definition free (bp : Z) : M unit :=
  if bp =? 0 then ret tt
  else
    size <- GET_SIZE (HDRP bp) ;;
    lazy_init ;;;
    PUT (HDRP bp) (PACK size 0) ;;;
    f <- FTRP bp ;;
    PUT f (PACK size 0) ;;;
    let bindex := find_bucket size in
    head <- get_bucket bindex ;;
    if head =? NULL then insert_free bp
    else coalesce bp ;;; ret tt.

(** [memcpy(dst, src, n)]: overlapping regions are undefined behaviour. *)
Definition memcpy (dst src n : Z) : M unit :=
  fun s =>
    if in_arena s dst n && in_arena s src n
       && ((n =? 0) || (dst + n <=? src) || (src + n <=? dst))
    then Ok tt (with_bytes s (Mem.copy (bytes s) dst src n))
    else Fault s.

Definition realloc (fuel : nat) (ptr size : Z) : M Z :=
  if size =? 0 then
    free ptr ;;; ret 0
  else if ptr =? NULL then
    malloc fuel size
  else
    newptr <- malloc fuel size ;;
    if newptr =? 0 then ret 0
    else
      oldsize <- GET_SIZE (HDRP ptr) ;;
      let oldsize := if size <? oldsize then size else oldsize in
      memcpy newptr ptr oldsize ;;;
      free ptr ;;;
      ret newptr.

(** ** The heap checker *)

Definition check_block (bp : Z) : M unit :=
  header <- GET_SIZE (HDRP bp) ;;
  f <- FTRP bp ;;
  footer <- GET_SIZE f ;;
  mismatch <-
    (if negb (header =? footer) then ret true
     else
       ha <- GET_ALLOC (HDRP bp) ;;
       f' <- FTRP bp ;;
       fa <- GET_ALLOC f' ;;
       ret (negb (ha =? fa))) ;;
  (if mismatch : bool then printf "Header & footer do not match" else ret tt) ;;;
  (if negb (header mod DSIZE =? 0) || (header <? DSIZE)
   then printf "Block size error" else ret tt) ;;;
  ha <- GET_ALLOC (HDRP bp) ;;
  both_free <-
    (if negb (ha =? 0) then ret false
     else
       nb <- NEXT_BLKP bp ;;
       na <- GET_ALLOC (HDRP nb) ;;
       ret (na =? 0)) ;;
  (if both_free : bool then printf "Consecutive free blocks" else ret tt) ;;;
  hi <- mem_heap_hi ;;
  lo <- mem_heap_lo ;;
  (if (bp >? hi) || (bp <? lo) then printf "Bp out of heap bounds" else ret tt).

(** [cycle_check]: the loop runs while the tortoise is not null; the hare is
    advanced by two links with no test of its own. *)
Fixpoint cycle_check_loop (fuel : nat) (tortoise hare : Z) : M unit :=
  match fuel with
  | O => fun _ => OutOfFuel
  | S k =>
      if tortoise =? NULL then ret tt
      else
        h1 <- NEXT_FREE hare ;;
        hare' <- NEXT_FREE h1 ;;
        (if tortoise =? hare' then printf "Cycle detected in linked list" else ret tt) ;;;
        t' <- NEXT_FREE tortoise ;;
        cycle_check_loop k t' hare'
  end.

Definition cycle_check (fuel : nat) (bp : Z) : M unit := cycle_check_loop fuel bp bp.

(** First loop of [mm_checkheap]: every block up to the epilogue; returns the
    block pointer the loop stopped at. *)
Fixpoint check_blocks (fuel : nat) (bp : Z) : M Z :=
  match fuel with
  | O => fun _ => OutOfFuel
  | S k =>
      sz <- GET_SIZE (HDRP bp) ;;
      if sz >? 0 then
        check_block bp ;;;
        nb <- NEXT_BLKP bp ;;
        check_blocks k nb
      else ret bp
  end.

(** Body of the walk over one bucket list, from [flp]. *)
Fixpoint check_list (fuel : nat) (i flp : Z) : M unit :=
  match fuel with
  | O => fun _ => OutOfFuel
  | S k =>
      if flp =? NULL then ret tt
      else
        nx <- NEXT_FREE flp ;;
        bad_next <-
          (if nx =? NULL then ret false
           else nx' <- NEXT_FREE flp ;; pn <- PREV_FREE nx' ;; ret (negb (pn =? flp))) ;;
        (if bad_next : bool then printf "Links in linked list do not match" else ret tt) ;;;
        pv <- PREV_FREE flp ;;
        bad_prev <-
          (if pv =? NULL then ret false
           else pv' <- PREV_FREE flp ;; np <- NEXT_FREE pv' ;; ret (negb (np =? flp))) ;;
        (if bad_prev : bool then printf "Links in linked list do not match" else ret tt) ;;;
        sz <- GET_SIZE flp ;;
        (if negb (find_bucket sz =? i) then printf "Blocks are not in correct seg_list"
         else ret tt) ;;;
        al <- GET_ALLOC flp ;;
        (if negb (al =? 0) then printf "Allocated block in free list" else ret tt) ;;;
        nx2 <- NEXT_FREE flp ;;
        check_list k i nx2
  end.

Fixpoint check_buckets (n : nat) (fuel : nat) (i : Z) : M unit :=
  match n with
  | O => ret tt
  | S k =>
      flp <- get_bucket i ;;
      cycle_check fuel flp ;;;
      flp' <- get_bucket i ;;
      check_list fuel i flp' ;;;
      check_buckets k fuel (i + 1)
  end.

Definition mm_checkheap (fuel : nat) (lineno : Z) : M unit :=
  h <- get_heap_listp ;;
  sz <- GET_SIZE (HDRP h) ;;
  bad_prologue <-
    (if negb (sz =? DSIZE) then ret true
     else al <- GET_ALLOC (HDRP h) ;; ret (al =? 0)) ;;
  (if bad_prologue : bool then printf "Heap error: prologue header" else ret tt) ;;;
  h' <- get_heap_listp ;;
  bp <- check_blocks fuel h' ;;
  esz <- GET_SIZE (HDRP bp) ;;
  bad_epilogue <-
    (if negb (esz =? 0) then ret true
     else al <- GET_ALLOC (HDRP bp) ;; ret (al =? 0)) ;;
  (if bad_epilogue : bool then printf "Heap error: epilogue header" else ret tt) ;;;
  check_buckets (Z.to_nat BUCKETS) fuel 0.

(** ** The caller *)

(** The caller writes one byte of a payload it was handed, or several (a
    little-endian value of [n] bytes), and reads one back. *)
Definition user_store (a v : Z) : M unit := store 1 a v.
Definition user_load (a : Z) : M Z := load 1 a.

Fixpoint user_write (n : nat) (a v : Z) : M unit :=
  match n with
  | O => ret tt
  | S k => user_store a v ;;; user_write k (a + 1) (v / 256)
  end.

(** ** The resize operation as the specification words it *)

(** Spec, 4.5: "allocate new_size, copy min(old payload size, new_size)
    bytes, free the old block, return new pointer".  The payload of a block
    is its size less the header and the footer. *)
Definition realloc_as_specified (fuel : nat) (ptr size : Z) : M Z :=
  if size =? 0 then
    free ptr ;;; ret 0
  else if ptr =? NULL then
    malloc fuel size
  else
    newptr <- malloc fuel size ;;
    if newptr =? 0 then ret 0
    else
      oldsize <- GET_SIZE (HDRP ptr) ;;
      let payload := oldsize - DSIZE in
      let n := if size <? payload then size else payload in
      memcpy newptr ptr n ;;;
      free ptr ;;;
      ret newptr.

(** * Properties *)

(** ** Bytes, words and tags *)

Module MemFacts.
Import Mem.

Lemma byte_at_range (m : mem) (a : Z) : 0 <= byte_at m a < 256.
Proof. unfold byte_at. apply Z.mod_pos_bound. lia. Qed.

Lemma rd_range (n : nat) : forall m a, 0 <= rd n m a < 256 ^ Z.of_nat n.
Proof.
  induction n as [|n IH]; intros m a.
  - simpl. lia.
  - rewrite Nat2Z.inj_succ, Z.pow_succ_r by lia. cbn [rd].
    pose proof (byte_at_range m a). pose proof (IH m (a + 1)). lia.
Qed.

Lemma set_byte_same (m : mem) (a v : Z) : byte_at (set_byte m a v) a = v mod 256.
Proof. unfold byte_at, set_byte. rewrite Z.eqb_refl. apply Z.mod_mod. lia. Qed.

Lemma set_byte_other (m : mem) (a v x : Z) : x <> a -> set_byte m a v x = m x.
Proof. intros H. unfold set_byte. destruct (Z.eqb_spec x a); congruence. Qed.

(** A write leaves every cell outside its range alone. *)
Lemma wr_other (n : nat) : forall m a v x,
  x < a \/ a + Z.of_nat n <= x -> wr n m a v x = m x.
Proof.
  induction n as [|n IH]; intros m a v x H; cbn [wr].
  - reflexivity.
  - rewrite IH by lia. apply set_byte_other. lia.
Qed.

(** A read depends on the bytes of its range only. *)
Lemma rd_ext (n : nat) : forall m m' a,
  (forall x, a <= x < a + Z.of_nat n -> byte_at m x = byte_at m' x) ->
  rd n m a = rd n m' a.
Proof.
  induction n as [|n IH]; intros m m' a H; cbn [rd].
  - reflexivity.
  - rewrite (H a) by lia. rewrite (IH m m' (a + 1)); [reflexivity|].
    intros x Hx. apply H. lia.
Qed.

Lemma rd_wr_same (n : nat) : forall m a v,
  rd n (wr n m a v) a = v mod 256 ^ Z.of_nat n.
Proof.
  induction n as [|n IH]; intros m a v.
  - simpl. symmetry. apply Z.mod_1_r.
  - rewrite Nat2Z.inj_succ, Z.pow_succ_r by lia. cbn [rd wr].
    rewrite IH. unfold byte_at at 1. rewrite wr_other by lia.
    fold (byte_at (set_byte m a v) a). rewrite set_byte_same.
    symmetry. apply Z.rem_mul_r; lia.
Qed.

Lemma rd_wr_disjoint (n k : nat) (m : mem) (a b v : Z) :
  a + Z.of_nat n <= b \/ b + Z.of_nat k <= a ->
  rd n (wr k m b v) a = rd n m a.
Proof.
  intros H. apply rd_ext. intros x Hx. unfold byte_at.
  rewrite wr_other by lia. reflexivity.
Qed.

Lemma copy_inside (m : mem) (dst src n x : Z) :
  dst <= x < dst + n -> byte_at (copy m dst src n) x = byte_at m (src + (x - dst)).
Proof.
  intros H. unfold copy, byte_at at 1.
  destruct (Z.leb_spec dst x); [|lia]. destruct (Z.ltb_spec x (dst + n)); [|lia].
  simpl. apply Z.mod_mod. lia.
Qed.

Lemma copy_outside (m : mem) (dst src n x : Z) :
  x < dst \/ dst + n <= x -> copy m dst src n x = m x.
Proof.
  intros H. unfold copy.
  destruct (Z.leb_spec dst x); destruct (Z.ltb_spec x (dst + n)); simpl; try reflexivity; lia.
Qed.

End MemFacts.

(** Linear arithmetic with division and remainder by constants. *)
Ltac zlia := Z.div_mod_to_equations; lia.

Lemma land_lnot7 (w : Z) : Z.land w (Z.lnot 7) = 8 * (w / 8).
Proof.
  rewrite <- Z.ldiff_land. change 7 with (Z.ones 3).
  rewrite Z.ldiff_ones_r by lia.
  rewrite Z.shiftr_div_pow2, Z.shiftl_mul_pow2 by lia.
  change (2 ^ 3) with 8. lia.
Qed.

Lemma land_one (w : Z) : Z.land w 1 = w mod 2.
Proof. change 1 with (Z.ones 1). rewrite Z.land_ones by lia. reflexivity. Qed.

Lemma lor_one (size : Z) : size mod 8 = 0 -> Z.lor size 1 = size + 1.
Proof.
  intros H.
  assert (Hl : Z.land size 1 = 0) by (rewrite land_one; zlia).
  rewrite <- Z.lxor_lor by exact Hl. symmetry. apply Z.add_nocarry_lxor. exact Hl.
Qed.

Lemma pack_value (size alloc : Z) :
  size mod 8 = 0 -> alloc = 0 \/ alloc = 1 -> PACK size alloc = size + alloc.
Proof.
  intros Hm [->| ->]; unfold PACK.
  - rewrite Z.lor_0_r. lia.
  - apply lor_one. exact Hm.
Qed.

(** What the size and allocation fields of a freshly packed tag read back. *)
Lemma tag_size (size alloc : Z) :
  size mod 8 = 0 -> 0 <= size < UINT_MOD -> alloc = 0 \/ alloc = 1 ->
  Z.land (to_uint (PACK size alloc)) (Z.lnot 7) = size.
Proof.
  intros Hm Hr Ha. rewrite pack_value by assumption.
  unfold to_uint, UINT_MOD in *. rewrite land_lnot7. zlia.
Qed.

Lemma tag_alloc (size alloc : Z) :
  size mod 8 = 0 -> 0 <= size < UINT_MOD -> alloc = 0 \/ alloc = 1 ->
  Z.land (to_uint (PACK size alloc)) 1 = alloc.
Proof.
  intros Hm Hr Ha. rewrite pack_value by assumption.
  unfold to_uint, UINT_MOD in *. rewrite land_one. zlia.
Qed.

(** ** Running the monad *)

Arguments Mem.rd : simpl never.
Arguments Mem.wr : simpl never.

(** Observations of a state: a tag word, its two fields, a link. *)
Definition tag_at (s : state) (p : Z) : Z := Mem.rd 4 (bytes s) p.
Definition size_at (s : state) (p : Z) : Z := Z.land (tag_at s p) (Z.lnot 7).
Definition alloc_at (s : state) (p : Z) : Z := Z.land (tag_at s p) 1.
Definition ptr_at (s : state) (p : Z) : Z := Mem.rd 8 (bytes s) p.

(** Projections of an outcome, for statements about concrete runs. *)
Definition value_of {A} (o : outcome A) : option A :=
  match o with Ok a _ => Some a | _ => None end.
Definition printed {A} (o : outcome A) : list String.string :=
  match o with Ok _ s => out s | Fault s => out s | OutOfFuel => [] end.
Definition faulted {A} (o : outcome A) : bool :=
  match o with Fault _ => true | _ => false end.

Lemma bind_Ok {A B} (c : M A) (k : A -> M B) (s s1 : state) (a : A) :
  c s = Ok a s1 -> bind c k s = k a s1.
Proof. intros H. unfold bind. rewrite H. reflexivity. Qed.

Lemma exec_bind {A B} (c : M A) (k : A -> M B) (s s1 : state) (a : A) (r : outcome B) :
  c s = Ok a s1 -> k a s1 = r -> bind c k s = r.
Proof. intros H1 H2. rewrite (bind_Ok _ _ _ _ _ H1). exact H2. Qed.

Lemma bind_inv {A B} (c : M A) (k : A -> M B) (s s2 : state) (b : B) :
  bind c k s = Ok b s2 -> exists a s1, c s = Ok a s1 /\ k a s1 = Ok b s2.
Proof.
  unfold bind. destruct (c s) as [a s1| |]; intros H; try discriminate.
  exists a, s1. split; [reflexivity|exact H].
Qed.

Lemma in_arena_true (s : state) (a n : Z) :
  mem_lo s <= a -> a + n <= mem_brk s -> in_arena s a n = true.
Proof.
  intros H1 H2. unfold in_arena.
  destruct (Z.leb_spec (mem_lo s) a); destruct (Z.leb_spec (a + n) (mem_brk s)); simpl; lia.
Qed.

Lemma in_arena_inv (s : state) (a n : Z) :
  in_arena s a n = true -> mem_lo s <= a /\ a + n <= mem_brk s.
Proof.
  unfold in_arena. intros H. apply andb_prop in H as [H1 H2].
  apply Z.leb_le in H1. apply Z.leb_le in H2. split; assumption.
Qed.

Lemma load_ok (n : nat) (a : Z) (s : state) :
  in_arena s a (Z.of_nat n) = true -> load n a s = Ok (Mem.rd n (bytes s) a) s.
Proof. intros H. unfold load. rewrite H. reflexivity. Qed.

Lemma store_ok (n : nat) (a v : Z) (s : state) :
  in_arena s a (Z.of_nat n) = true ->
  store n a v s = Ok tt (with_bytes s (Mem.wr n (bytes s) a v)).
Proof. intros H. unfold store. rewrite H. reflexivity. Qed.

Lemma load_inv (n : nat) (a : Z) (s s' : state) (v : Z) :
  load n a s = Ok v s' ->
  s' = s /\ v = Mem.rd n (bytes s) a /\ in_arena s a (Z.of_nat n) = true.
Proof.
  unfold load. destruct (in_arena s a (Z.of_nat n)); intros H; inversion H; auto.
Qed.

Lemma store_inv (n : nat) (a v : Z) (s s' : state) (u : unit) :
  store n a v s = Ok u s' ->
  s' = with_bytes s (Mem.wr n (bytes s) a v) /\ in_arena s a (Z.of_nat n) = true.
Proof.
  unfold store. destruct (in_arena s a (Z.of_nat n)); intros H; inversion H; auto.
Qed.

Lemma GET_SIZE_ok (p : Z) (s : state) :
  in_arena s p 4 = true -> GET_SIZE p s = Ok (size_at s p) s.
Proof.
  intros H. unfold GET_SIZE, GET. eapply exec_bind; [apply load_ok; exact H|reflexivity].
Qed.

Lemma GET_ALLOC_ok (p : Z) (s : state) :
  in_arena s p 4 = true -> GET_ALLOC p s = Ok (alloc_at s p) s.
Proof.
  intros H. unfold GET_ALLOC, GET. eapply exec_bind; [apply load_ok; exact H|reflexivity].
Qed.

Lemma GET_SIZE_inv (p : Z) (s s' : state) (v : Z) :
  GET_SIZE p s = Ok v s' -> s' = s /\ v = size_at s p /\ in_arena s p 4 = true.
Proof.
  unfold GET_SIZE, GET. intros H. apply bind_inv in H as (w & s1 & H1 & H2).
  apply load_inv in H1 as (-> & -> & Ha). inversion H2; subst. auto.
Qed.

Lemma load_ptr_ok (p : Z) (s : state) :
  in_arena s p 8 = true -> load_ptr p s = Ok (ptr_at s p) s.
Proof. intros H. unfold load_ptr. apply load_ok. exact H. Qed.

Lemma store_ptr_ok (p v : Z) (s : state) :
  in_arena s p 8 = true ->
  store_ptr p v s = Ok tt (with_bytes s (Mem.wr 8 (bytes s) p (to_size_t v))).
Proof. intros H. unfold store_ptr. apply store_ok. exact H. Qed.

Lemma PUT_ok (p v : Z) (s : state) :
  in_arena s p 4 = true ->
  PUT p v s = Ok tt (with_bytes s (Mem.wr 4 (bytes s) p (to_uint v))).
Proof. intros H. unfold PUT. apply store_ok. exact H. Qed.

Lemma get_bucket_ok (i : Z) (s : state) :
  in_arena s (seg_free s + 8 * i) 8 = true ->
  get_bucket i s = Ok (ptr_at s (seg_free s + 8 * i)) s.
Proof. intros H. unfold get_bucket, seg_slot, get_state, bind, ret. apply load_ptr_ok. exact H. Qed.

Lemma set_bucket_ok (i v : Z) (s : state) :
  in_arena s (seg_free s + 8 * i) 8 = true ->
  set_bucket i v s =
    Ok tt (with_bytes s (Mem.wr 8 (bytes s) (seg_free s + 8 * i) (to_size_t v))).
Proof. intros H. unfold set_bucket, seg_slot, get_state, bind, ret. apply store_ptr_ok. exact H. Qed.

Lemma size_at_range (s : state) (p : Z) :
  0 <= size_at s p < UINT_MOD /\ size_at s p mod 8 = 0.
Proof.
  unfold size_at, tag_at. rewrite land_lnot7.
  pose proof (MemFacts.rd_range 4 (bytes s) p) as H.
  change (256 ^ Z.of_nat 4) with (2 ^ 32) in H. unfold UINT_MOD. zlia.
Qed.

(** ** Properties preserved along a call *)

Definition preserves (R : state -> state -> Prop) {A} (c : M A) : Prop :=
  forall s a s', c s = Ok a s' -> R s s'.

Section Preserves.
Variable R : state -> state -> Prop.
Hypothesis R_refl : forall s, R s s.
Hypothesis R_trans : forall s1 s2 s3, R s1 s2 -> R s2 s3 -> R s1 s3.

Lemma preserves_ret {A} (a : A) : preserves R (ret a).
Proof. intros s a' s' H. inversion H; subst. apply R_refl. Qed.

Lemma preserves_bind {A B} (c : M A) (k : A -> M B) :
  preserves R c -> (forall a, preserves R (k a)) -> preserves R (bind c k).
Proof.
  intros Hc Hk s b s' H. apply bind_inv in H as (a & s1 & H1 & H2).
  eapply R_trans; [eapply Hc; exact H1|eapply Hk; exact H2].
Qed.

Lemma preserves_load (n : nat) (a : Z) : preserves R (load n a).
Proof. intros s v s' H. apply load_inv in H as (-> & _). apply R_refl. Qed.

Lemma preserves_get_state : preserves R get_state.
Proof. intros s v s' H. inversion H; subst. apply R_refl. Qed.

Lemma preserves_get_heap_listp : preserves R get_heap_listp.
Proof. intros s v s' H. inversion H; subst. apply R_refl. Qed.

Lemma preserves_mem_heap_lo : preserves R mem_heap_lo.
Proof. intros s v s' H. inversion H; subst. apply R_refl. Qed.

Lemma preserves_mem_heap_hi : preserves R mem_heap_hi.
Proof. intros s v s' H. inversion H; subst. apply R_refl. Qed.

Lemma preserves_if {A} (b : bool) (c1 c2 : M A) :
  preserves R c1 -> preserves R c2 -> preserves R (if b then c1 else c2).
Proof. destruct b; auto. Qed.

Lemma preserves_out_of_fuel {A} : preserves R (fun _ : state => @OutOfFuel A).
Proof. intros s a s' H. discriminate. Qed.
End Preserves.

Create HintDb pres discriminated.
#[export] Hint Resolve preserves_ret preserves_load preserves_get_state
  preserves_get_heap_listp preserves_mem_heap_lo preserves_mem_heap_hi
  preserves_out_of_fuel : pres.

(** Breaks a goal [preserves R c] down along the binds and branches of [c]. *)
Ltac pres_step R_refl R_trans :=
  repeat first
    [ apply (preserves_bind _ R_trans); [|intros]
    | apply preserves_if
    | solve [eauto with pres]
    | solve [apply (preserves_ret _ R_refl)]
    | solve [apply (preserves_load _ R_refl)]
    | solve [apply (preserves_get_state _ R_refl)]
    | solve [apply (preserves_get_heap_listp _ R_refl)]
    | solve [apply (preserves_mem_heap_lo _ R_refl)]
    | solve [apply (preserves_mem_heap_hi _ R_refl)]
    | solve [apply preserves_out_of_fuel] ].

(** ** find_bucket *)

Lemma to_int_small (s : Z) : 0 <= s < 2 ^ 31 -> to_int s = s.
Proof.
  intros H. unfold to_int, UINT_MOD. rewrite Z.mod_small by lia.
  destruct (Z.ltb_spec s (2 ^ 31)); lia.
Qed.

Lemma to_int_range (v : Z) : - 2 ^ 31 <= to_int v < 2 ^ 31.
Proof.
  unfold to_int, UINT_MOD. pose proof (Z.mod_pos_bound v (2 ^ 32) ltac:(lia)).
  destruct (Z.ltb_spec (v mod 2 ^ 32) (2 ^ 31)); lia.
Qed.

(** Passing an [int] where a [size_t] is expected and casting it back to
    [int] inside [find_bucket] gives the [int] again. *)
Lemma to_int_roundtrip (v : Z) : to_int (to_size_t (to_int v)) = to_int v.
Proof.
  unfold to_int, to_size_t, UINT_MOD, SIZE_MOD.
  pose proof (Z.mod_pos_bound v (2 ^ 32) ltac:(lia)) as Hv.
  destruct (Z.ltb_spec (v mod 2 ^ 32) (2 ^ 31)) as [Hlt|Hge].
  - rewrite (Z.mod_small (v mod 2 ^ 32) (2 ^ 64)) by lia.
    rewrite Z.mod_mod by lia.
    destruct (Z.ltb_spec (v mod 2 ^ 32) (2 ^ 31)); lia.
  - replace ((v mod 2 ^ 32 - 2 ^ 32) mod 2 ^ 64) with (v mod 2 ^ 32 + (2 ^ 64 - 2 ^ 32)).
    2:{ apply Z.mod_unique with (q := -1); lia. }
    replace ((v mod 2 ^ 32 + (2 ^ 64 - 2 ^ 32)) mod 2 ^ 32) with (v mod 2 ^ 32).
    2:{ apply Z.mod_unique with (q := 2 ^ 32 - 1); lia. }
    destruct (Z.ltb_spec (v mod 2 ^ 32) (2 ^ 31)); lia.
Qed.

Lemma find_bucket_int_cast (asize : Z) :
  find_bucket (to_size_t (to_int asize)) = find_bucket asize.
Proof. unfold find_bucket. rewrite to_int_roundtrip. reflexivity. Qed.

(** The loop keeps the last index whose threshold [2^(i+4)] the size reaches. *)
Lemma find_bucket_loop_spec (n : nat) : forall i b bucket,
  0 <= i ->
  let r := find_bucket_loop n i b bucket in
  (b < 2 ^ (i + 4) /\ r = bucket) \/
  (i <= r < i + Z.of_nat n /\ 2 ^ (r + 4) <= b /\
   (r + 1 < i + Z.of_nat n -> b < 2 ^ (r + 5))) \/
  (n = O /\ r = bucket).
Proof.
  induction n as [|n IH]; intros i b bucket Hi; cbn zeta.
  - right. right. split; reflexivity.
  - cbn [find_bucket_loop]. rewrite Z.shiftl_1_l.
    assert (Hpow : 2 ^ (i + 4) < 2 ^ (i + 1 + 4)).
    { apply Z.pow_lt_mono_r; lia. }
    rewrite Nat2Z.inj_succ.
    destruct (Z.geb_spec b (2 ^ (i + 4))) as [Hge|Hlt].
    + specialize (IH (i + 1) b i ltac:(lia)). cbn zeta in IH.
      destruct IH as [[H1 H2]|[(H1 & H2 & H3)|[H1 H2]]].
      * right. left. rewrite H2. split; [lia|]. split; [lia|].
        intros _. replace (i + 5) with (i + 1 + 4) by lia. exact H1.
      * right. left. split; [lia|]. split; [exact H2|]. intros H. apply H3. lia.
      * right. left. rewrite H2. subst n. split; [lia|]. split; [lia|]. lia.
    + specialize (IH (i + 1) b bucket ltac:(lia)). cbn zeta in IH.
      destruct IH as [[H1 H2]|[(H1 & H2 & H3)|[H1 H2]]].
      * left. split; [lia|exact H2].
      * exfalso. assert (2 ^ (i + 4) <= 2 ^ (find_bucket_loop n (i + 1) b bucket + 4)).
        { apply Z.pow_le_mono_r; lia. }
        lia.
      * left. split; [lia|exact H2].
Qed.

(** Bucket [i] holds the sizes from [2^(i+4)] up to, but not including,
    [2^(i+5)]; bucket 0 also takes everything below, bucket 11 everything
    above. *)
Lemma find_bucket_range (s i : Z) :
  0 <= s < 2 ^ 31 ->
  (find_bucket s = i <->
   0 <= i <= 11 /\ (1 <= i -> 2 ^ (i + 4) <= s) /\ (i < 11 -> s < 2 ^ (i + 5))).
Proof.
  intros Hs. unfold find_bucket. rewrite to_int_small by exact Hs.
  change (Z.to_nat BUCKETS) with 12%nat.
  pose proof (find_bucket_loop_spec 12 0 s 0 ltac:(lia)) as H. cbn zeta in H.
  set (r := find_bucket_loop 12 0 s 0) in *.
  assert (Hr : 0 <= r <= 11 /\ (1 <= r -> 2 ^ (r + 4) <= s) /\ (r < 11 -> s < 2 ^ (r + 5))).
  { destruct H as [[H1 H2]|[(H1 & H2 & H3)|[H1 _]]]; [| |discriminate].
    - rewrite H2. change (2 ^ (0 + 4)) with 16 in H1. change (2 ^ (0 + 5)) with 32. lia.
    - split; [lia|]. split; [auto|]. intros Hlt. apply H3. lia. }
  split.
  - intros <-. exact Hr.
  - intros (Hi & Hlo & Hhi). destruct Hr as (Hr & Hrlo & Hrhi).
    destruct (Z.lt_trichotomy r i) as [Hlt|[Heq|Hgt]]; [|exact Heq|]; exfalso.
    + assert (2 ^ (r + 5) <= 2 ^ (i + 4)) by (apply Z.pow_le_mono_r; lia).
      specialize (Hlo ltac:(lia)). specialize (Hrhi ltac:(lia)). lia.
    + assert (2 ^ (i + 5) <= 2 ^ (r + 4)) by (apply Z.pow_le_mono_r; lia).
      specialize (Hrlo ltac:(lia)). specialize (Hhi ltac:(lia)). lia.
Qed.

Lemma find_bucket_bounds (s : Z) : 0 <= find_bucket s <= 11.
Proof.
  unfold find_bucket. change (Z.to_nat BUCKETS) with 12%nat.
  pose proof (find_bucket_loop_spec 12 0 (to_int s) 0 ltac:(lia)) as H. cbn zeta in H.
  destruct H as [[_ H2]|[(H1 & _)|[H1 _]]]; [rewrite H2| |discriminate]; lia.
Qed.

Lemma find_bucket_mono (s1 s2 : Z) :
  0 <= s1 -> s1 <= s2 -> s2 < 2 ^ 31 -> find_bucket s1 <= find_bucket s2.
Proof.
  intros H0 H12 H2.
  destruct (proj1 (find_bucket_range s1 (find_bucket s1) ltac:(lia)) eq_refl)
    as (Hr1 & Hlo1 & Hhi1).
  destruct (proj1 (find_bucket_range s2 (find_bucket s2) ltac:(lia)) eq_refl)
    as (Hr2 & Hlo2 & Hhi2).
  destruct (Z.le_gt_cases (find_bucket s1) (find_bucket s2)) as [Hle|Hgt]; [exact Hle|].
  exfalso.
  assert (2 ^ (find_bucket s2 + 5) <= 2 ^ (find_bucket s1 + 4))
    by (apply Z.pow_le_mono_r; lia).
  specialize (Hlo1 ltac:(lia)). specialize (Hhi2 ltac:(lia)). lia.
Qed.

(** ** The adjusted size of a request *)

(** When the [size_t] sum does not wrap, the adjusted size is the request
    plus one double word of overhead, rounded up to a double-word multiple. *)
Lemma adjust_size_in_range (size : Z) :
  0 < size -> size + 15 < SIZE_MOD ->
  adjust_size size =
    (if size <=? 8 then 24 else 8 * ((size + 8 + 7) / 8)) /\
  adjust_size size mod 8 = 0 /\
  24 <= adjust_size size /\
  size + 8 <= adjust_size size /\
  (8 < size -> adjust_size size < size + 16) /\
  (size < 16 -> adjust_size size = 24).
Proof.
  intros Hpos Hmax. unfold adjust_size, to_size_t, SIZE_MOD, DSIZE in *.
  destruct (Z.leb_spec size 8) as [Hle|Hgt].
  - change (3 * 8) with 24. repeat split; lia.
  - rewrite (Z.mod_small (size + 8)) by lia.
    replace (8 - 1) with 7 by lia.
    rewrite (Z.mod_small (size + 8 + 7)) by lia.
    assert (H8 : 0 <= 8 * ((size + 8 + 7) / 8) < 2 ^ 64) by zlia.
    rewrite Z.mod_small by exact H8.
    repeat split; try zlia.
Qed.

(** *** Calls that only read *)

Section Readers.
Variable R : state -> state -> Prop.
Hypothesis R_refl : forall s, R s s.
Hypothesis R_trans : forall s1 s2 s3, R s1 s2 -> R s2 s3 -> R s1 s3.

Local Ltac go := pres_step R_refl R_trans.

Lemma pres_GET p : preserves R (GET p).
Proof. unfold GET. go. Qed.
Lemma pres_load_ptr p : preserves R (load_ptr p).
Proof. unfold load_ptr. go. Qed.
Lemma pres_GET_SIZE p : preserves R (GET_SIZE p).
Proof. unfold GET_SIZE, GET. go. Qed.
Lemma pres_GET_ALLOC p : preserves R (GET_ALLOC p).
Proof. unfold GET_ALLOC, GET. go. Qed.
Lemma pres_FTRP bp : preserves R (FTRP bp).
Proof. unfold FTRP, GET_SIZE, GET. go. Qed.
Lemma pres_NEXT_BLKP bp : preserves R (NEXT_BLKP bp).
Proof. unfold NEXT_BLKP, GET_SIZE, GET. go. Qed.
Lemma pres_PREV_BLKP bp : preserves R (PREV_BLKP bp).
Proof. unfold PREV_BLKP, GET_SIZE, GET. go. Qed.
Lemma pres_NEXT_FREE bp : preserves R (NEXT_FREE bp).
Proof. unfold NEXT_FREE, load_ptr. go. Qed.
Lemma pres_PREV_FREE bp : preserves R (PREV_FREE bp).
Proof. unfold PREV_FREE, load_ptr. go. Qed.
Lemma pres_seg_slot i : preserves R (seg_slot i).
Proof. unfold seg_slot. go. Qed.
Lemma pres_get_bucket i : preserves R (get_bucket i).
Proof. unfold get_bucket, seg_slot, load_ptr. go. Qed.

Lemma pres_find_fit_list fuel : forall asize bp,
  preserves R (find_fit_list fuel asize bp).
Proof.
  induction fuel as [|k IH]; intros asize bp; cbn [find_fit_list].
  - go.
  - apply preserves_if; [go|].
    apply (preserves_bind _ R_trans); [apply pres_GET_SIZE|intros sz].
    apply preserves_if; [go|].
    apply (preserves_bind _ R_trans); [apply pres_NEXT_FREE|intros nx]. apply IH.
Qed.

Lemma pres_find_fit_buckets n : forall fuel asize i,
  preserves R (find_fit_buckets n fuel asize i).
Proof.
  induction n as [|k IH]; intros fuel asize i; cbn [find_fit_buckets].
  - go.
  - apply (preserves_bind _ R_trans); [apply pres_get_bucket|intros head].
    apply (preserves_bind _ R_trans); [apply pres_find_fit_list|intros r].
    apply preserves_if; [go|apply IH].
Qed.

Lemma pres_find_fit fuel asize : preserves R (find_fit fuel asize).
Proof. unfold find_fit. apply pres_find_fit_buckets. Qed.
End Readers.

(** [find_fit] returns in the state it was called in. *)
Lemma find_fit_pure (fuel : nat) (asize : Z) (s s' : state) (r : Z) :
  find_fit fuel asize s = Ok r s' -> s' = s.
Proof.
  intros H. symmetry.
  apply (pres_find_fit eq (@eq_refl state) (@eq_trans state) fuel asize s r s' H).
Qed.

#[export] Hint Resolve pres_GET pres_load_ptr pres_GET_SIZE pres_GET_ALLOC pres_FTRP
  pres_NEXT_BLKP pres_PREV_BLKP pres_NEXT_FREE pres_PREV_FREE pres_seg_slot
  pres_get_bucket pres_find_fit : pres.

(** *** The heap checker only prints *)

Section Printers.
Variable R : state -> state -> Prop.
Hypothesis R_refl : forall s, R s s.
Hypothesis R_trans : forall s1 s2 s3, R s1 s2 -> R s2 s3 -> R s1 s3.
Hypothesis R_out : forall s o, R s (with_out s o).

Local Ltac go := pres_step R_refl R_trans.

Lemma pres_printf msg : preserves R (printf msg).
Proof. intros s a s' H. inversion H; subst. apply R_out. Qed.
Local Hint Resolve pres_printf : pres.

Lemma pres_check_block bp : preserves R (check_block bp).
Proof. unfold check_block. go. Qed.
Local Hint Resolve pres_check_block : pres.

Lemma pres_cycle_check_loop fuel : forall t h, preserves R (cycle_check_loop fuel t h).
Proof.
  induction fuel as [|k IH]; intros t h; cbn [cycle_check_loop]; go; try apply IH.
Qed.

Lemma pres_cycle_check fuel bp : preserves R (cycle_check fuel bp).
Proof. unfold cycle_check. apply pres_cycle_check_loop. Qed.
Local Hint Resolve pres_cycle_check : pres.

Lemma pres_check_blocks fuel : forall bp, preserves R (check_blocks fuel bp).
Proof.
  induction fuel as [|k IH]; intros bp; cbn [check_blocks]; go; try apply IH.
Qed.
Local Hint Resolve pres_check_blocks : pres.

Lemma pres_check_list fuel : forall i flp, preserves R (check_list fuel i flp).
Proof.
  induction fuel as [|k IH]; intros i flp; cbn [check_list]; go; try apply IH.
Qed.
Local Hint Resolve pres_check_list : pres.

Lemma pres_check_buckets n : forall fuel i, preserves R (check_buckets n fuel i).
Proof.
  induction n as [|k IH]; intros fuel i; cbn [check_buckets]; go; try apply IH.
Qed.
Local Hint Resolve pres_check_buckets : pres.

Lemma pres_mm_checkheap fuel lineno : preserves R (mm_checkheap fuel lineno).
Proof. unfold mm_checkheap. go. Qed.
End Printers.

(** Two states that differ at most in what has been printed. *)
Definition same_but_out (s s' : state) : Prop := s' = with_out s (out s').

Lemma same_but_out_refl (s : state) : same_but_out s s.
Proof. unfold same_but_out. destruct s; reflexivity. Qed.

Lemma same_but_out_trans (s1 s2 s3 : state) :
  same_but_out s1 s2 -> same_but_out s2 s3 -> same_but_out s1 s3.
Proof. unfold same_but_out. intros H1 H2. rewrite H2, H1. reflexivity. Qed.

Lemma same_but_out_with_out (s : state) (o : list String.string) : same_but_out s (with_out s o).
Proof. reflexivity. Qed.

(** The heap checker leaves the arena, its contents and the two static
    pointers as they are. *)
Lemma mm_checkheap_reads_only (fuel : nat) (lineno : Z) (s s' : state) (u : unit) :
  mm_checkheap fuel lineno s = Ok u s' ->
  bytes s' = bytes s /\ mem_lo s' = mem_lo s /\ mem_brk s' = mem_brk s /\
  mem_max s' = mem_max s /\ heap_listp s' = heap_listp s /\ seg_free s' = seg_free s.
Proof.
  intros H.
  pose proof (pres_mm_checkheap same_but_out same_but_out_refl same_but_out_trans
                same_but_out_with_out fuel lineno s u s' H) as Hs.
  unfold same_but_out in Hs. rewrite Hs. cbn. repeat split; reflexivity.
Qed.

(** *** Fields no call changes *)

Section Writers.
Variable R : state -> state -> Prop.
Hypothesis R_refl : forall s, R s s.
Hypothesis R_trans : forall s1 s2 s3, R s1 s2 -> R s2 s3 -> R s1 s3.
Hypothesis R_bytes : forall s m, R s (with_bytes s m).
Hypothesis R_brk : forall s b, R s (with_brk s b).
Hypothesis R_heap_listp : forall s p, R s (with_heap_listp s p).
Hypothesis R_seg_free : forall s p, R s (with_seg_free s p).

Local Ltac go := pres_step R_refl R_trans.

Lemma pres_store n a v : preserves R (store n a v).
Proof. intros s u s' H. apply store_inv in H as (-> & _). apply R_bytes. Qed.
Local Hint Resolve pres_store : pres.

Lemma pres_PUT p v : preserves R (PUT p v).
Proof. unfold PUT. go. Qed.
Lemma pres_store_ptr p v : preserves R (store_ptr p v).
Proof. unfold store_ptr. go. Qed.
Local Hint Resolve pres_PUT pres_store_ptr : pres.

Lemma pres_set_NEXT_FREE bp v : preserves R (set_NEXT_FREE bp v).
Proof. unfold set_NEXT_FREE. go. Qed.
Lemma pres_set_PREV_FREE bp v : preserves R (set_PREV_FREE bp v).
Proof. unfold set_PREV_FREE. go. Qed.
Lemma pres_set_bucket i v : preserves R (set_bucket i v).
Proof. unfold set_bucket. go. Qed.
Local Hint Resolve pres_set_NEXT_FREE pres_set_PREV_FREE pres_set_bucket : pres.

Lemma pres_insert_free bp : preserves R (insert_free bp).
Proof. unfold insert_free. go. Qed.
Lemma pres_remove_free bp : preserves R (remove_free bp).
Proof. unfold remove_free. go. Qed.
Local Hint Resolve pres_insert_free pres_remove_free : pres.

Lemma pres_coalesce_merge bp pa na size : preserves R (coalesce_merge bp pa na size).
Proof. unfold coalesce_merge. go. Qed.
Local Hint Resolve pres_coalesce_merge : pres.

Lemma pres_coalesce bp : preserves R (coalesce bp).
Proof. unfold coalesce. go. Qed.
Local Hint Resolve pres_coalesce : pres.

Lemma pres_mem_sbrk incr : preserves R (mem_sbrk incr).
Proof.
  intros s a s' H. unfold mem_sbrk in H.
  destruct ((0 <=? incr) && (mem_brk s + incr <=? mem_max s));
    inversion H; subst; [apply R_brk|apply R_refl].
Qed.
Local Hint Resolve pres_mem_sbrk : pres.

Lemma pres_extend_heap words : preserves R (extend_heap words).
Proof. unfold extend_heap. go. Qed.
Local Hint Resolve pres_extend_heap : pres.

Lemma pres_place bp asize : preserves R (place bp asize).
Proof. unfold place. go. Qed.
Local Hint Resolve pres_place : pres.

Lemma pres_set_heap_listp p : preserves R (set_heap_listp p).
Proof. intros s a s' H. inversion H; subst. apply R_heap_listp. Qed.
Lemma pres_set_seg_free p : preserves R (set_seg_free p).
Proof. intros s a s' H. inversion H; subst. apply R_seg_free. Qed.
Local Hint Resolve pres_set_heap_listp pres_set_seg_free : pres.

Lemma pres_clear_buckets n : forall i, preserves R (clear_buckets n i).
Proof. induction n as [|k IH]; intros i; cbn [clear_buckets]; go; try apply IH. Qed.
Local Hint Resolve pres_clear_buckets : pres.

Lemma pres_mm_init : preserves R mm_init.
Proof. unfold mm_init. go. Qed.
Local Hint Resolve pres_mm_init : pres.

Lemma pres_lazy_init : preserves R lazy_init.
Proof. unfold lazy_init. go. Qed.
Local Hint Resolve pres_lazy_init : pres.

Lemma pres_malloc fuel size : preserves R (malloc fuel size).
Proof. unfold malloc. go. Qed.

Lemma pres_free bp : preserves R (free bp).
Proof. unfold free. go. Qed.
End Writers.

(** The base of the arena never moves. *)
Definition same_lo (s s' : state) : Prop := mem_lo s' = mem_lo s.

Lemma same_lo_refl (s : state) : same_lo s s.
Proof. reflexivity. Qed.
Lemma same_lo_trans (s1 s2 s3 : state) : same_lo s1 s2 -> same_lo s2 s3 -> same_lo s1 s3.
Proof. unfold same_lo. congruence. Qed.

Ltac same_lo_side :=
  first [ exact same_lo_refl | exact same_lo_trans | intros; reflexivity ].

Lemma PREV_BLKP_same_lo bp : preserves same_lo (PREV_BLKP bp).
Proof. apply pres_PREV_BLKP; same_lo_side. Qed.
Lemma NEXT_BLKP_same_lo bp : preserves same_lo (NEXT_BLKP bp).
Proof. apply pres_NEXT_BLKP; same_lo_side. Qed.
Lemma FTRP_same_lo bp : preserves same_lo (FTRP bp).
Proof. apply pres_FTRP; same_lo_side. Qed.
Lemma GET_ALLOC_same_lo p : preserves same_lo (GET_ALLOC p).
Proof. apply pres_GET_ALLOC; same_lo_side. Qed.
Lemma GET_SIZE_same_lo p : preserves same_lo (GET_SIZE p).
Proof. apply pres_GET_SIZE; same_lo_side. Qed.
Lemma PUT_same_lo p v : preserves same_lo (PUT p v).
Proof. apply pres_PUT; same_lo_side. Qed.
Lemma coalesce_merge_same_lo bp pa na size :
  preserves same_lo (coalesce_merge bp pa na size).
Proof. apply pres_coalesce_merge; same_lo_side. Qed.

(** Splits [bind c k s = Ok b s2] in hypothesis [H] into the run of [c] and
    the run of [k]. *)
Ltac inv_bind H :=
  let a := fresh "a" in
  let s1 := fresh "s" in
  let H1 := fresh "E" in
  apply bind_inv in H as (a & s1 & H1 & H).

Lemma ret_inv {A} (a b : A) (s s' : state) : ret a s = Ok b s' -> b = a /\ s' = s.
Proof. intros H. inversion H; subst. auto. Qed.

Lemma insert_free_in_arena (bp : Z) (s s' : state) (u : unit) :
  insert_free bp s = Ok u s' -> mem_lo s <= HDRP bp.
Proof.
  unfold insert_free. intros H. inv_bind H.
  apply GET_SIZE_inv in E as (_ & _ & Ha). apply in_arena_inv in Ha. lia.
Qed.

(** The block [coalesce] returns has its header inside the arena. *)
Lemma coalesce_result_in_arena (bp r : Z) (s s' : state) :
  coalesce bp s = Ok r s' -> mem_lo s <= HDRP r.
Proof.
  unfold coalesce. intros H.
  inv_bind H. apply PREV_BLKP_same_lo in E.
  inv_bind H. apply FTRP_same_lo in E0.
  inv_bind H. apply GET_ALLOC_same_lo in E1.
  inv_bind H. apply NEXT_BLKP_same_lo in E2.
  inv_bind H. apply GET_ALLOC_same_lo in E3.
  inv_bind H. apply GET_SIZE_same_lo in E4.
  inv_bind H. apply coalesce_merge_same_lo in E5.
  inv_bind H. apply insert_free_in_arena in E6.
  apply ret_inv in H as (-> & _).
  unfold same_lo in *. lia.
Qed.

(** An arena that lies inside the address space, away from [(void * )-1]. *)
Definition sane_arena (s : state) : Prop :=
  0 <= mem_lo s /\ mem_max s < MINUS_ONE_PTR.

(** [extend_heap] returns null only when [mem_sbrk] refused, and then nothing
    has changed. *)
Lemma extend_heap_null (words : Z) (s s' : state) :
  sane_arena s -> extend_heap words s = Ok NULL s' -> s' = s.
Proof.
  intros [Hlo Hmax] H. unfold extend_heap in H.
  set (size := if negb (words mod 2 =? 0) then to_size_t ((words + 1) * WSIZE)
               else to_size_t (words * WSIZE)) in H.
  apply bind_inv in H as (bp & s1 & E & H). unfold mem_sbrk in E.
  destruct ((0 <=? size) && (mem_brk s + size <=? mem_max s)) eqn:Hroom.
  - inversion E; subst bp s1; clear E.
    apply andb_prop in Hroom as [H0 Hle]. apply Z.leb_le in H0, Hle.
    destruct (Z.eqb_spec (mem_brk s) MINUS_ONE_PTR) as [Heq|Hne]; [lia|].
    inv_bind H. apply PUT_same_lo in E.
    inv_bind H. apply FTRP_same_lo in E0.
    inv_bind H. apply PUT_same_lo in E1.
    inv_bind H. apply NEXT_BLKP_same_lo in E2.
    inv_bind H. apply PUT_same_lo in E3.
    apply coalesce_result_in_arena in H.
    unfold same_lo, HDRP, NULL, WSIZE in *. cbn in E. lia.
  - inversion E; subst bp s1; clear E.
    change (MINUS_ONE_PTR =? MINUS_ONE_PTR) with true in H.
    apply ret_inv in H as (_ & ->). reflexivity.
Qed.

Lemma lazy_init_done (s : state) : heap_listp s <> 0 -> lazy_init s = Ok tt s.
Proof.
  intros H. unfold lazy_init, get_heap_listp, bind.
  destruct (Z.eqb_spec (heap_listp s) 0); [contradiction|reflexivity].
Qed.

(** A failed [malloc] on an initialised heap has changed nothing. *)
Lemma malloc_null (fuel : nat) (size : Z) (s s' : state) :
  sane_arena s -> heap_listp s <> 0 ->
  malloc fuel size s = Ok NULL s' -> s' = s.
Proof.
  intros Hsane Hinit H. unfold malloc in H.
  rewrite (bind_Ok _ _ _ _ _ (lazy_init_done s Hinit)) in H.
  destruct (size =? 0).
  - apply ret_inv in H as (_ & ->). reflexivity.
  - apply bind_inv in H as (bp & s1 & E & H).
    apply find_fit_pure in E as Hs. subst s1.
    destruct (bp =? NULL) eqn:Hbp; cbn [negb] in H.
    + apply bind_inv in H as (r & s2 & E2 & H).
      destruct (Z.eqb_spec r NULL) as [Hr|Hr].
      * apply ret_inv in H as (_ & Hs). rewrite Hs, Hr in *.
        eapply extend_heap_null; eassumption.
      * apply bind_inv in H as (u & s3 & E3 & H).
        apply ret_inv in H as (Hz & _). congruence.
    + apply bind_inv in H as (u & s3 & E3 & H).
      apply ret_inv in H as (Hz & _). apply Z.eqb_neq in Hbp. congruence.
Qed.

(** ** find_fit *)

(** A bucket list as the code walks it: from [head] along the next links
    down to null, every node having its header and its next link inside the
    arena. *)
Fixpoint is_list (s : state) (head : Z) (l : list Z) : Prop :=
  match l with
  | [] => head = NULL
  | x :: l' =>
      head = x /\ x <> NULL /\
      in_arena s (HDRP x) 4 = true /\ in_arena s (x + DSIZE) 8 = true /\
      is_list s (ptr_at s (x + DSIZE)) l'
  end.

(** The bucket table holds the lists [ls], bucket [i] the [i]-th of them. *)
Definition buckets_are (s : state) (ls : list (list Z)) : Prop :=
  length ls = Z.to_nat BUCKETS /\
  forall i, 0 <= i < BUCKETS ->
    in_arena s (seg_free s + 8 * i) 8 = true /\
    is_list s (ptr_at s (seg_free s + 8 * i)) (nth (Z.to_nat i) ls []).

Definition fits (s : state) (asize bp : Z) : bool := asize <=? size_at s (HDRP bp).

(** The first block of [l] that fits, null when there is none. *)
Definition first_fit (s : state) (asize : Z) (l : list Z) : Z :=
  match find (fits s asize) l with
  | Some bp => bp
  | None => NULL
  end.

Lemma is_list_nonnull (s : state) (l : list Z) : forall head,
  is_list s head l -> Forall (fun x => x <> NULL) l.
Proof.
  induction l as [|x l IH]; intros head H; cbn [is_list] in H.
  - constructor.
  - destruct H as (_ & Hx & _ & _ & Hl). constructor; [exact Hx|eapply IH; exact Hl].
Qed.

Lemma first_fit_nonnull (s : state) (asize : Z) (l : list Z) (bp : Z) :
  Forall (fun x => x <> NULL) l -> find (fits s asize) l = Some bp -> bp <> NULL.
Proof.
  intros Hall Hfind. apply find_some in Hfind as [Hin _].
  rewrite Forall_forall in Hall. apply Hall. exact Hin.
Qed.

Lemma find_fit_list_spec (s : state) (asize : Z) (l : list Z) : forall fuel head,
  is_list s head l -> (length l < fuel)%nat ->
  find_fit_list fuel asize head s = Ok (first_fit s asize l) s.
Proof.
  induction l as [|x l IH]; intros fuel head H Hfuel; cbn [is_list] in H.
  - subst head. destruct fuel as [|k]; [cbn in Hfuel; lia|]. reflexivity.
  - destruct H as (-> & Hx & Hh & Hn & Hl).
    destruct fuel as [|k]; [cbn in Hfuel; lia|]. cbn [find_fit_list].
    destruct (Z.eqb_spec x NULL) as [|_]; [contradiction|].
    eapply exec_bind; [apply GET_SIZE_ok; exact Hh|]. cbv beta.
    unfold first_fit. cbn [find]. unfold fits at 1.
    destruct (asize <=? size_at s (HDRP x)); [reflexivity|].
    eapply exec_bind; [apply load_ptr_ok; exact Hn|]. cbv beta.
    apply IH; [exact Hl|]. cbn [length] in Hfuel. lia.
Qed.

Lemma skipn_cons_nth {A} (d : A) (l : list A) : forall n,
  (n < length l)%nat -> skipn n l = nth n l d :: skipn (S n) l.
Proof.
  induction l as [|a l IH]; intros [|n] H; cbn [length] in H; try lia.
  - reflexivity.
  - cbn [skipn nth]. apply IH. lia.
Qed.

Lemma first_fit_app (s : state) (asize : Z) (l1 l2 : list Z) :
  first_fit s asize (l1 ++ l2) =
  match find (fits s asize) l1 with
  | Some bp => bp
  | None => first_fit s asize l2
  end.
Proof.
  unfold first_fit. induction l1 as [|x l1 IH]; cbn [app find].
  - reflexivity.
  - destruct (fits s asize x); [reflexivity|exact IH].
Qed.

Lemma find_fit_buckets_spec (s : state) (asize : Z) (ls : list (list Z)) (fuel : nat) :
  buckets_are s ls ->
  (forall l, In l ls -> (length l < fuel)%nat) ->
  forall n i, 0 <= i -> i + Z.of_nat n = BUCKETS ->
  find_fit_buckets n fuel asize i s =
    Ok (first_fit s asize (concat (skipn (Z.to_nat i) ls))) s.
Proof.
  intros [Hlen Hb] Hfuel. induction n as [|k IH]; intros i Hi Hn.
  - cbn [find_fit_buckets]. rewrite skipn_all2 by lia. reflexivity.
  - cbn [find_fit_buckets].
    destruct (Hb i ltac:(lia)) as [Hslot Hlist].
    rewrite (skipn_cons_nth [] ls (Z.to_nat i)) by lia.
    cbn [concat]. rewrite first_fit_app.
    eapply exec_bind; [apply get_bucket_ok; exact Hslot|]. cbv beta.
    eapply exec_bind.
    { apply find_fit_list_spec; [exact Hlist|]. apply Hfuel. apply nth_In. lia. }
    cbv beta. unfold first_fit at 1 2.
    destruct (find (fits s asize) (nth (Z.to_nat i) ls [])) as [bp|] eqn:Hfind.
    + assert (Hne : bp <> NULL).
      { eapply first_fit_nonnull; [|exact Hfind]. eapply is_list_nonnull. exact Hlist. }
      destruct (Z.eqb_spec bp NULL); [contradiction|]. reflexivity.
    + cbn [Z.eqb NULL negb]. rewrite IH by lia.
      replace (Z.to_nat (i + 1)) with (S (Z.to_nat i)) by lia. reflexivity.
Qed.

(** ** Reading back what was written *)

Lemma rd4_wr4_same (m : Mem.mem) (a v : Z) :
  0 <= v < UINT_MOD -> Mem.rd 4 (Mem.wr 4 m a v) a = v.
Proof.
  intros H. rewrite MemFacts.rd_wr_same. change (256 ^ Z.of_nat 4) with UINT_MOD.
  apply Z.mod_small. exact H.
Qed.

Lemma rd8_wr8_same (m : Mem.mem) (a v : Z) :
  0 <= v < SIZE_MOD -> Mem.rd 8 (Mem.wr 8 m a v) a = v.
Proof.
  intros H. rewrite MemFacts.rd_wr_same. change (256 ^ Z.of_nat 8) with SIZE_MOD.
  apply Z.mod_small. exact H.
Qed.

Lemma rd4_wr4_other (m : Mem.mem) (a b v : Z) :
  a + 4 <= b \/ b + 4 <= a -> Mem.rd 4 (Mem.wr 4 m b v) a = Mem.rd 4 m a.
Proof. intros H. apply MemFacts.rd_wr_disjoint. cbn. lia. Qed.

Lemma rd4_wr8_other (m : Mem.mem) (a b v : Z) :
  a + 4 <= b \/ b + 8 <= a -> Mem.rd 4 (Mem.wr 8 m b v) a = Mem.rd 4 m a.
Proof. intros H. apply MemFacts.rd_wr_disjoint. cbn. lia. Qed.

Lemma rd8_wr4_other (m : Mem.mem) (a b v : Z) :
  a + 8 <= b \/ b + 4 <= a -> Mem.rd 8 (Mem.wr 4 m b v) a = Mem.rd 8 m a.
Proof. intros H. apply MemFacts.rd_wr_disjoint. cbn. lia. Qed.

Lemma rd8_wr8_other (m : Mem.mem) (a b v : Z) :
  a + 8 <= b \/ b + 8 <= a -> Mem.rd 8 (Mem.wr 8 m b v) a = Mem.rd 8 m a.
Proof. intros H. apply MemFacts.rd_wr_disjoint. cbn. lia. Qed.

Lemma wr4_other (m : Mem.mem) (a v x : Z) :
  x < a \/ a + 4 <= x -> Mem.wr 4 m a v x = m x.
Proof. intros H. apply MemFacts.wr_other. cbn. lia. Qed.

Lemma wr8_other (m : Mem.mem) (a v x : Z) :
  x < a \/ a + 8 <= x -> Mem.wr 8 m a v x = m x.
Proof. intros H. apply MemFacts.wr_other. cbn. lia. Qed.

Lemma to_size_t_small (v : Z) : 0 <= v < SIZE_MOD -> to_size_t v = v.
Proof. intros H. unfold to_size_t. apply Z.mod_small. exact H. Qed.

Lemma to_uint_range (v : Z) : 0 <= to_uint v < UINT_MOD.
Proof. unfold to_uint, UINT_MOD. apply Z.mod_pos_bound. lia. Qed.

Lemma ptr_at_range (s : state) (p : Z) : 0 <= ptr_at s p < SIZE_MOD.
Proof. unfold ptr_at. apply (MemFacts.rd_range 8). Qed.

Ltac szlia := unfold SIZE_MOD, UINT_MOD in *; lia.

(** Peels the writes off a read: the write at the same address gives the
    value, a write elsewhere is skipped. *)
Ltac mem_norm :=
  repeat first
    [ rewrite rd4_wr4_same by (first [apply to_uint_range | lia])
    | rewrite rd8_wr8_same by szlia
    | rewrite rd4_wr4_other by lia
    | rewrite rd4_wr8_other by lia
    | rewrite rd8_wr4_other by lia
    | rewrite rd8_wr8_other by lia
    | rewrite wr4_other by lia
    | rewrite wr8_other by lia ].

(** ** insert_free *)

(** [insert_free] makes the block the head of the bucket its header size
    selects: its previous link is null, its next link is the old head, and
    the old head, if any, points back to it.  Nothing else is written. *)
Lemma insert_free_spec (bp : Z) (s : state) :
  let slot := seg_free s + 8 * find_bucket (size_at s (HDRP bp)) in
  let head := ptr_at s slot in
  in_arena s (HDRP bp) 4 = true ->
  in_arena s slot 8 = true ->
  in_arena s bp 16 = true ->
  0 <= bp < SIZE_MOD ->
  (slot + 8 <= HDRP bp \/ bp + 16 <= slot) ->
  (head = NULL \/
   (in_arena s head 8 = true /\
    (head + 8 <= HDRP bp \/ bp + 16 <= head) /\
    (head + 8 <= slot \/ slot + 8 <= head))) ->
  exists s',
    insert_free bp s = Ok tt s' /\
    ptr_at s' slot = bp /\
    ptr_at s' bp = NULL /\
    ptr_at s' (bp + DSIZE) = head /\
    (head <> NULL -> ptr_at s' head = bp) /\
    (forall x,
       (x < slot \/ slot + 8 <= x) -> (x < bp \/ bp + 16 <= x) ->
       (head = NULL \/ x < head \/ head + 8 <= x) ->
       bytes s' x = bytes s x) /\
    mem_lo s' = mem_lo s /\ mem_brk s' = mem_brk s /\ seg_free s' = seg_free s /\
    heap_listp s' = heap_listp s /\ out s' = out s.
Proof.
  intros slot head Hh Hslot Hbp Hr Hsep Hhead.
  apply in_arena_inv in Hbp as Hbp'.
  unfold insert_free, set_PREV_FREE, set_NEXT_FREE.
  unfold HDRP, WSIZE, DSIZE, NULL in *.
  assert (Hbp0 : in_arena s bp 8 = true) by (apply in_arena_true; lia).
  assert (Hbp8 : in_arena s (bp + 8) 8 = true) by (apply in_arena_true; lia).
  pose proof (ptr_at_range s slot) as Hhr. fold head in Hhr.
  destruct (Z.eq_dec head 0) as [Hz|Hnz].
  - eexists. split.
    { eapply exec_bind; [apply GET_SIZE_ok; exact Hh|]. cbv beta.
      eapply exec_bind; [apply get_bucket_ok; exact Hslot|]. cbv beta.
      fold slot. fold head. rewrite Hz. cbn [Z.eqb].
      eapply exec_bind.
      { eapply exec_bind; [apply store_ptr_ok; exact Hbp0|]. cbv beta.
        apply store_ptr_ok. exact Hbp8. }
      cbv beta. apply set_bucket_ok. exact Hslot. }
    unfold ptr_at. cbn [bytes with_bytes mem_lo mem_brk seg_free heap_listp out].
    fold slot. change (to_size_t 0) with 0.
    rewrite (to_size_t_small bp) by szlia.
    repeat split; try reflexivity.
    + mem_norm. reflexivity.
    + mem_norm. reflexivity.
    + mem_norm. symmetry. exact Hz.
    + intros Hne. contradiction.
    + intros x H1 H2 _. mem_norm. reflexivity.
  - destruct Hhead as [Hz|(Hha & Hhb & Hhs)]; [contradiction|].
    eexists. split.
    { eapply exec_bind; [apply GET_SIZE_ok; exact Hh|]. cbv beta.
      eapply exec_bind; [apply get_bucket_ok; exact Hslot|]. cbv beta.
      fold slot. fold head.
      destruct (Z.eqb_spec head 0) as [|_]; [contradiction|].
      eapply exec_bind.
      { eapply exec_bind; [apply get_bucket_ok; exact Hslot|]. cbv beta.
        fold slot. fold head.
        eapply exec_bind; [apply store_ptr_ok; exact Hha|]. cbv beta.
        eapply exec_bind; [apply get_bucket_ok; exact Hslot|]. cbv beta.
        eapply exec_bind; [apply store_ptr_ok; exact Hbp8|]. cbv beta.
        apply store_ptr_ok. exact Hbp0. }
      cbv beta. apply set_bucket_ok. exact Hslot. }
    unfold ptr_at. cbn [bytes with_bytes mem_lo mem_brk seg_free heap_listp out].
    fold slot. change (to_size_t 0) with 0.
    rewrite (to_size_t_small bp) by szlia.
    assert (Hrd : Mem.rd 8 (Mem.wr 8 (bytes s) head bp) slot = head).
    { mem_norm. reflexivity. }
    rewrite Hrd. rewrite (to_size_t_small head) by szlia.
    repeat split; try reflexivity.
    + mem_norm. reflexivity.
    + mem_norm. reflexivity.
    + mem_norm. reflexivity.
    + intros _. mem_norm. reflexivity.
    + intros x H1 H2 [H3|H3]; [contradiction|]. mem_norm. reflexivity.
Qed.

(** ** place *)

Lemma FTRP_ok (bp : Z) (s : state) :
  in_arena s (HDRP bp) 4 = true ->
  FTRP bp s = Ok (bp + size_at s (HDRP bp) - DSIZE) s.
Proof.
  intros H. unfold FTRP. eapply exec_bind; [apply GET_SIZE_ok; exact H|reflexivity].
Qed.

Lemma NEXT_BLKP_ok (bp : Z) (s : state) :
  in_arena s (HDRP bp) 4 = true ->
  NEXT_BLKP bp s = Ok (bp + size_at s (HDRP bp)) s.
Proof.
  intros H. unfold NEXT_BLKP. eapply exec_bind; [apply GET_SIZE_ok; exact H|reflexivity].
Qed.

Lemma PREV_BLKP_ok (bp : Z) (s : state) :
  in_arena s (bp - DSIZE) 4 = true ->
  PREV_BLKP bp s = Ok (bp - size_at s (bp - DSIZE)) s.
Proof.
  intros H. unfold PREV_BLKP. eapply exec_bind; [apply GET_SIZE_ok; exact H|reflexivity].
Qed.

(** Everything but the contents of memory is the same in both states. *)
Definition same_frame (s s' : state) : Prop :=
  mem_lo s' = mem_lo s /\ mem_brk s' = mem_brk s /\ mem_max s' = mem_max s /\
  heap_listp s' = heap_listp s /\ seg_free s' = seg_free s /\ out s' = out s.

Lemma same_frame_refl (s : state) : same_frame s s.
Proof. unfold same_frame. repeat split; reflexivity. Qed.

Lemma same_frame_trans (s1 s2 s3 : state) :
  same_frame s1 s2 -> same_frame s2 s3 -> same_frame s1 s3.
Proof. unfold same_frame. intuition congruence. Qed.

Lemma same_frame_with_bytes (s : state) (m : Mem.mem) : same_frame s (with_bytes s m).
Proof. unfold same_frame. repeat split; reflexivity. Qed.

Lemma remove_free_same_frame (bp : Z) : preserves same_frame (remove_free bp).
Proof.
  apply pres_remove_free;
    first [exact same_frame_refl | exact same_frame_trans | exact same_frame_with_bytes].
Qed.

Lemma tag_frame (s s' : state) (p : Z) :
  (forall x, p <= x < p + 4 -> bytes s' x = bytes s x) -> tag_at s' p = tag_at s p.
Proof.
  intros H. unfold tag_at. apply MemFacts.rd_ext. intros x Hx.
  unfold Mem.byte_at. rewrite H by (cbn in Hx; lia). reflexivity.
Qed.

Lemma size_of_tag (s : state) (p size alloc : Z) :
  size mod 8 = 0 -> 0 <= size < UINT_MOD -> alloc = 0 \/ alloc = 1 ->
  tag_at s p = to_uint (PACK size alloc) ->
  size_at s p = size /\ alloc_at s p = alloc.
Proof.
  intros Hm Hr Ha Ht. unfold size_at, alloc_at. rewrite Ht.
  split; [apply tag_size|apply tag_alloc]; assumption.
Qed.

(** The shape a block must have for [place]: it lies inside the arena, after
    the bucket table, and the requested size is a double-word multiple that
    fits. *)
Record placeable (s : state) (bp asize : Z) : Prop := {
  pl_mod : asize mod 8 = 0;
  pl_min : 8 <= asize;
  pl_fit : asize <= size_at s (HDRP bp);
  pl_lo : 0 <= mem_lo s;
  pl_hi : mem_brk s <= SIZE_MOD;
  pl_table : mem_lo s <= seg_free s;
  pl_after : seg_free s + 8 * BUCKETS <= HDRP bp;
  pl_inside : HDRP bp + size_at s (HDRP bp) <= mem_brk s
}.

Lemma place_whole (bp asize : Z) (s s1 : state) :
  let csize := size_at s (HDRP bp) in
  placeable s bp asize ->
  csize - asize < 24 ->
  remove_free bp s = Ok tt s1 ->
  exists s',
    place bp asize s = Ok tt s' /\
    tag_at s' (HDRP bp) = to_uint (PACK csize 1) /\
    tag_at s' (bp + csize - DSIZE) = to_uint (PACK csize 1) /\
    (forall x, (x < HDRP bp \/ HDRP bp + 4 <= x) ->
               (x < bp + csize - DSIZE \/ bp + csize - DSIZE + 4 <= x) ->
               bytes s' x = bytes s1 x) /\
    same_frame s s'.
Proof.
  intros csize [Hmod Hmin Hfit Hlo Hhi Htab Haft Hin] Hrem Hrm.
  fold csize in Hfit, Hin.
  destruct (size_at_range s (HDRP bp)) as [Hcr Hcm]. fold csize in Hcr, Hcm.
  pose proof (remove_free_same_frame bp s tt s1 Hrm) as (F1 & F2 & F3 & F4 & F5 & F6).
  unfold HDRP, WSIZE, DSIZE, BUCKETS in *.
  assert (Hh : in_arena s (bp - 4) 4 = true) by (apply in_arena_true; lia).
  assert (Hh1 : in_arena s1 (bp - 4) 4 = true) by (apply in_arena_true; lia).
  assert (Hf1 : in_arena s1 (bp + csize - 8) 4 = true) by (apply in_arena_true; lia).
  set (s2 := with_bytes s1 (Mem.wr 4 (bytes s1) (bp - 4) (to_uint (PACK csize 1)))).
  assert (Hsz2 : size_at s2 (bp - 4) = csize).
  { apply (size_of_tag s2 (bp - 4) csize 1); auto.
    unfold tag_at, s2. cbn [bytes with_bytes]. mem_norm. reflexivity. }
  eexists. split.
  { unfold place, HDRP, WSIZE, DSIZE.
    eapply exec_bind; [apply GET_SIZE_ok; exact Hh|]. cbv beta. fold csize.
    eapply exec_bind; [exact Hrm|]. cbv beta.
    rewrite to_size_t_small by szlia.
    destruct (Z.geb_spec (csize - asize) (3 * 8)) as [Hge|_]; [lia|].
    eapply exec_bind; [apply PUT_ok; exact Hh1|]. cbv beta. fold s2.
    eapply exec_bind; [apply FTRP_ok; exact Hh1|]. cbv beta.
    unfold HDRP, WSIZE, DSIZE. rewrite Hsz2.
    apply PUT_ok. exact Hf1. }
  unfold tag_at, same_frame, s2.
  cbn [bytes with_bytes mem_lo mem_brk mem_max heap_listp seg_free out].
  repeat split; try assumption.
  - mem_norm. reflexivity.
  - mem_norm. reflexivity.
  - intros x H1 H2. mem_norm. reflexivity.
Qed.

Lemma place_split (bp asize : Z) (s s1 : state) :
  let csize := size_at s (HDRP bp) in
  let rem := csize - asize in
  let slot := seg_free s + 8 * find_bucket rem in
  let head := ptr_at s1 slot in
  placeable s bp asize ->
  24 <= rem ->
  remove_free bp s = Ok tt s1 ->
  (head = NULL \/
   (mem_lo s <= head /\ head + 8 <= mem_brk s /\
    (head + 8 <= HDRP bp \/ HDRP bp + csize <= head) /\
    (head + 8 <= seg_free s \/ seg_free s + 8 * BUCKETS <= head))) ->
  exists s',
    place bp asize s = Ok tt s' /\
    tag_at s' (HDRP bp) = to_uint (PACK asize 1) /\
    tag_at s' (bp + asize - DSIZE) = to_uint (PACK asize 1) /\
    tag_at s' (HDRP (bp + asize)) = to_uint (PACK rem 0) /\
    tag_at s' (bp + csize - DSIZE) = to_uint (PACK rem 0) /\
    ptr_at s' slot = bp + asize /\
    ptr_at s' (bp + asize) = NULL /\
    ptr_at s' (bp + asize + DSIZE) = head /\
    (head <> NULL -> ptr_at s' head = bp + asize) /\
    same_frame s s'.
Proof.
  intros csize rem slot head [Hmod Hmin Hfit Hlo Hhi Htab Haft Hin] Hrem Hrm Hhead.
  fold csize in Hfit, Hin.
  destruct (size_at_range s (HDRP bp)) as [Hcr Hcm]. fold csize in Hcr, Hcm.
  pose proof (remove_free_same_frame bp s tt s1 Hrm) as (F1 & F2 & F3 & F4 & F5 & F6).
  pose proof (find_bucket_bounds rem) as Hb.
  assert (Hremdef : csize - asize = rem) by reflexivity.
  assert (Hrm8 : rem mod 8 = 0) by (rewrite <- Hremdef; zlia).
  assert (Hslotdef : slot = seg_free s + 8 * find_bucket rem) by reflexivity.
  pose proof (ptr_at_range s1 slot) as Hhr. fold head in Hhr.
  assert (Hheaddef : ptr_at s1 slot = head) by reflexivity.
  clearbody head. clearbody slot. clearbody rem.
  unfold HDRP, WSIZE, DSIZE, BUCKETS, NULL in *.
  assert (Hh : in_arena s (bp - 4) 4 = true) by (apply in_arena_true; lia).
  assert (Hh1 : in_arena s1 (bp - 4) 4 = true) by (apply in_arena_true; lia).
  assert (Hf1 : in_arena s1 (bp + asize - 8) 4 = true) by (apply in_arena_true; lia).
  assert (Hnh1 : in_arena s1 (bp + asize - 4) 4 = true) by (apply in_arena_true; lia).
  assert (Hnf1 : in_arena s1 (bp + asize + rem - 8) 4 = true)
    by (apply in_arena_true; lia).
  set (s2 := with_bytes s1 (Mem.wr 4 (bytes s1) (bp - 4) (to_uint (PACK asize 1)))).
  set (s3 := with_bytes s2 (Mem.wr 4 (bytes s2) (bp + asize - 8) (to_uint (PACK asize 1)))).
  set (s4 := with_bytes s3 (Mem.wr 4 (bytes s3) (bp + asize - 4) (to_uint (PACK rem 0)))).
  set (s5 := with_bytes s4
               (Mem.wr 4 (bytes s4) (bp + asize + rem - 8) (to_uint (PACK rem 0)))).
  assert (Hsz2 : size_at s2 (bp - 4) = asize).
  { apply (size_of_tag s2 (bp - 4) asize 1); auto; [lia|].
    unfold tag_at, s2. cbn [bytes with_bytes]. mem_norm. reflexivity. }
  assert (Hsz3 : size_at s3 (bp - 4) = asize).
  { apply (size_of_tag s3 (bp - 4) asize 1); auto; [lia|].
    unfold tag_at, s3, s2. cbn [bytes with_bytes]. mem_norm. reflexivity. }
  assert (Hsz4 : size_at s4 (bp + asize - 4) = rem).
  { apply (size_of_tag s4 (bp + asize - 4) rem 0); auto; [lia|].
    unfold tag_at, s4. cbn [bytes with_bytes]. mem_norm. reflexivity. }
  assert (Hsz5 : size_at s5 (bp + asize - 4) = rem).
  { apply (size_of_tag s5 (bp + asize - 4) rem 0); auto; [lia|].
    unfold tag_at, s5, s4. cbn [bytes with_bytes]. mem_norm. reflexivity. }
  assert (Hhead5 : ptr_at s5 slot = head).
  { rewrite <- Hheaddef. unfold ptr_at, s5, s4, s3, s2. cbn [bytes with_bytes].
    mem_norm. reflexivity. }
  pose proof (insert_free_spec (bp + asize) s5) as Hspec. cbv zeta in Hspec.
  unfold HDRP, WSIZE, DSIZE, NULL in Hspec. rewrite Hsz5 in Hspec.
  change (seg_free s5) with (seg_free s1) in Hspec. rewrite F5 in Hspec.
  rewrite <- Hslotdef in Hspec. rewrite Hhead5 in Hspec.
  destruct Hspec as (s' & Hins & P1 & P2 & P3 & P4 & Pfr & G1 & G2 & G3 & G4 & G5).
  { apply in_arena_true; cbn; lia. }
  { apply in_arena_true; cbn; lia. }
  { apply in_arena_true; cbn; lia. }
  { unfold SIZE_MOD in *. lia. }
  { lia. }
  { destruct Hhead as [Hz|(Ha & Hb' & Hc & Hd)]; [left; exact Hz|right].
    split; [apply in_arena_true; cbn; lia|]. lia. }
  assert (Hfr : forall p, (p + 4 <= bp + asize \/ bp + asize + 16 <= p) ->
                          bp - 4 <= p -> p + 4 <= bp + csize - 4 ->
                          tag_at s' p = tag_at s5 p).
  { intros p Hp1 Hp2 Hp3. apply tag_frame. intros x Hx. apply Pfr.
    - lia.
    - lia.
    - destruct Hhead as [Hz|(Ha & Hb' & Hc & Hd)]; [left; exact Hz|right]. lia. }
  exists s'. split.
  { unfold place, HDRP, WSIZE, DSIZE.
    eapply exec_bind; [apply GET_SIZE_ok; exact Hh|]. cbv beta. fold csize.
    eapply exec_bind; [exact Hrm|]. cbv beta.
    rewrite Hremdef. rewrite to_size_t_small by szlia.
    destruct (Z.geb_spec rem (3 * 8)) as [_|Hlt]; [|lia].
    eapply exec_bind; [apply PUT_ok; exact Hh1|]. cbv beta. fold s2.
    eapply exec_bind; [apply FTRP_ok; exact Hh1|]. cbv beta.
    unfold HDRP, WSIZE, DSIZE. rewrite Hsz2.
    eapply exec_bind; [apply PUT_ok; exact Hf1|]. cbv beta. fold s3.
    eapply exec_bind; [apply NEXT_BLKP_ok; exact Hh1|]. cbv beta.
    unfold HDRP, WSIZE. rewrite Hsz3.
    eapply exec_bind; [apply PUT_ok; exact Hnh1|]. cbv beta. fold s4.
    eapply exec_bind; [apply FTRP_ok; exact Hnh1|]. cbv beta.
    unfold HDRP, WSIZE, DSIZE. rewrite Hsz4.
    eapply exec_bind; [apply PUT_ok; exact Hnf1|]. cbv beta. fold s5.
    exact Hins. }
  assert (Hfoot : bp + csize - 8 = bp + asize + rem - 8) by lia.
  unfold same_frame.
  change (mem_lo s5) with (mem_lo s1) in G1. change (mem_brk s5) with (mem_brk s1) in G2.
  change (heap_listp s5) with (heap_listp s1) in G4. change (out s5) with (out s1) in G5.
  assert (Hmax : mem_max s' = mem_max s).
  { apply (pres_insert_free (fun a b => mem_max b = mem_max a)) in Hins;
      [ change (mem_max s5) with (mem_max s1) in Hins; congruence
      | reflexivity | intros; congruence | reflexivity ]. }
  repeat split; try congruence.
  - rewrite Hfr by lia. unfold tag_at, s5, s4, s3, s2. cbn [bytes with_bytes].
    mem_norm. reflexivity.
  - rewrite Hfr by lia. unfold tag_at, s5, s4, s3, s2. cbn [bytes with_bytes].
    mem_norm. reflexivity.
  - rewrite Hfr by lia. unfold tag_at, s5, s4, s3, s2.
    cbn [bytes with_bytes]. mem_norm. reflexivity.
  - rewrite Hfoot. rewrite Hfr by lia. unfold tag_at, s5, s4, s3, s2.
    cbn [bytes with_bytes]. mem_norm. reflexivity.
  - exact P4.
Qed.

(** ** remove_free *)

(** Removing the block at the front of its list (its previous link is null):
    the bucket its header size selects now starts at the block's successor,
    whose previous link is null. *)
Lemma remove_free_head (bp : Z) (s : state) :
  let slot := seg_free s + 8 * find_bucket (size_at s (HDRP bp)) in
  let next := ptr_at s (bp + DSIZE) in
  in_arena s (HDRP bp) 4 = true ->
  in_arena s bp 16 = true ->
  in_arena s slot 8 = true ->
  ptr_at s bp = NULL ->
  (next = NULL \/
   (in_arena s next 8 = true /\
    (next + 8 <= bp + DSIZE \/ bp + 16 <= next) /\
    (next + 8 <= slot \/ slot + 8 <= next))) ->
  exists s',
    remove_free bp s = Ok tt s' /\
    ptr_at s' slot = next /\
    (next <> NULL -> ptr_at s' next = NULL) /\
    (forall x,
       (x < slot \/ slot + 8 <= x) -> (next = NULL \/ x < next \/ next + 8 <= x) ->
       bytes s' x = bytes s x) /\
    same_frame s s'.
Proof.
  intros slot next Hh Hbp Hslot Hprev Hnext.
  apply in_arena_inv in Hbp as Hbp'.
  unfold remove_free, PREV_FREE, NEXT_FREE, set_PREV_FREE.
  unfold HDRP, WSIZE, DSIZE, NULL in *.
  assert (Hbp0 : in_arena s bp 8 = true) by (apply in_arena_true; lia).
  assert (Hbp8 : in_arena s (bp + 8) 8 = true) by (apply in_arena_true; lia).
  pose proof (ptr_at_range s (bp + 8)) as Hnr. fold next in Hnr.
  destruct (Z.eq_dec next 0) as [Hz|Hnz].
  - eexists. split.
    { eapply exec_bind; [apply GET_SIZE_ok; exact Hh|]. cbv beta.
      eapply exec_bind; [apply load_ptr_ok; exact Hbp0|]. cbv beta.
      eapply exec_bind; [apply load_ptr_ok; exact Hbp8|]. cbv beta.
      rewrite Hprev. fold next. rewrite Hz. cbn [Z.eqb andb].
      apply set_bucket_ok. exact Hslot. }
    unfold ptr_at, same_frame.
    cbn [bytes with_bytes mem_lo mem_brk mem_max seg_free heap_listp out].
    fold slot. change (to_size_t 0) with 0.
    repeat split; try reflexivity.
    + mem_norm. symmetry. exact Hz.
    + intros Hne. contradiction.
    + intros x H1 _. mem_norm. reflexivity.
  - destruct Hnext as [Hz|(Hna & Hnb & Hns)]; [contradiction|].
    assert (Hrd : Mem.rd 8 (Mem.wr 8 (bytes s) next 0) (bp + 8) = next).
    { mem_norm. reflexivity. }
    eexists. split.
    { eapply exec_bind; [apply GET_SIZE_ok; exact Hh|]. cbv beta.
      eapply exec_bind; [apply load_ptr_ok; exact Hbp0|]. cbv beta.
      eapply exec_bind; [apply load_ptr_ok; exact Hbp8|]. cbv beta.
      rewrite Hprev. fold next.
      destruct (Z.eqb_spec next 0) as [|_]; [contradiction|]. cbn [Z.eqb andb].
      eapply exec_bind; [apply load_ptr_ok; exact Hbp8|]. cbv beta. fold next.
      eapply exec_bind; [apply store_ptr_ok; exact Hna|]. cbv beta.
      eapply exec_bind; [apply load_ptr_ok; exact Hbp8|]. cbv beta.
      apply set_bucket_ok. exact Hslot. }
    unfold ptr_at, same_frame.
    cbn [bytes with_bytes mem_lo mem_brk mem_max seg_free heap_listp out].
    fold slot. change (to_size_t 0) with 0. rewrite Hrd.
    rewrite (to_size_t_small next) by szlia.
    repeat split; try reflexivity.
    + mem_norm. reflexivity.
    + intros _. mem_norm. reflexivity.
    + intros x H1 [H2|H2]; [contradiction|]. mem_norm. reflexivity.
Qed.

(** [remove_free] returns normally on every block whose header, links and
    bucket slot lie inside the arena and whose list neighbours, where it has
    any, lie inside the arena too. *)
Lemma remove_free_succeeds (bp : Z) (s : state) :
  let slot := seg_free s + 8 * find_bucket (size_at s (HDRP bp)) in
  let prev := ptr_at s bp in
  let next := ptr_at s (bp + DSIZE) in
  in_arena s (HDRP bp) 4 = true ->
  in_arena s bp 16 = true ->
  in_arena s slot 8 = true ->
  (prev = NULL \/ in_arena s (prev + DSIZE) 8 = true) ->
  (next = NULL \/ in_arena s next 8 = true) ->
  exists s1, remove_free bp s = Ok tt s1.
Proof.
  intros slot prev next Hh Hbp Hslot Hprev Hnext.
  apply in_arena_inv in Hbp as Hbp'.
  unfold remove_free, PREV_FREE, NEXT_FREE, set_PREV_FREE, set_NEXT_FREE.
  unfold HDRP, WSIZE, DSIZE, NULL in *.
  assert (Hbp0 : in_arena s bp 8 = true) by (apply in_arena_true; lia).
  assert (Hbp8 : in_arena s (bp + 8) 8 = true) by (apply in_arena_true; lia).
  assert (Hstart : forall r,
            (if (prev =? 0) && (next =? 0) then set_bucket (find_bucket (size_at s (bp - 4))) 0
             else if prev =? 0 then
               n1 <- load_ptr (bp + 8) ;; store_ptr n1 0 ;;;
               n2 <- load_ptr (bp + 8) ;; set_bucket (find_bucket (size_at s (bp - 4))) n2
             else if next =? 0 then
               p1 <- load_ptr bp ;; store_ptr (p1 + 8) 0
             else
               prev' <- load_ptr bp ;; next' <- load_ptr (bp + 8) ;;
               store_ptr (prev' + 8) next' ;;; store_ptr next' prev') s = r ->
            (sz <- GET_SIZE (bp - 4) ;;
             let bucket := find_bucket sz in
             p <- load_ptr bp ;; n <- load_ptr (bp + 8) ;;
             if (p =? 0) && (n =? 0) then set_bucket bucket 0
             else if p =? 0 then
               n1 <- load_ptr (bp + 8) ;; store_ptr n1 0 ;;;
               n2 <- load_ptr (bp + 8) ;; set_bucket bucket n2
             else if n =? 0 then
               p1 <- load_ptr bp ;; store_ptr (p1 + 8) 0
             else
               prev' <- load_ptr bp ;; next' <- load_ptr (bp + 8) ;;
               store_ptr (prev' + 8) next' ;;; store_ptr next' prev') s = r).
  { intros r Hr.
    eapply exec_bind; [apply GET_SIZE_ok; exact Hh|]. cbv beta zeta.
    eapply exec_bind; [apply load_ptr_ok; exact Hbp0|]. cbv beta.
    eapply exec_bind; [apply load_ptr_ok; exact Hbp8|]. cbv beta.
    exact Hr. }
  destruct (Z.eqb_spec prev 0) as [Hp|Hp]; destruct (Z.eqb_spec next 0) as [Hn|Hn];
    cbn [andb] in Hstart; eexists; apply Hstart.
  - apply set_bucket_ok. exact Hslot.
  - destruct Hnext as [|Hnext]; [contradiction|].
    eapply exec_bind; [apply load_ptr_ok; exact Hbp8|]. cbv beta. fold next.
    eapply exec_bind; [apply store_ptr_ok; exact Hnext|]. cbv beta.
    eapply exec_bind; [apply load_ptr_ok; exact Hbp8|]. cbv beta.
    apply set_bucket_ok. exact Hslot.
  - destruct Hprev as [|Hprev]; [contradiction|].
    eapply exec_bind; [apply load_ptr_ok; exact Hbp0|]. cbv beta. fold prev.
    apply store_ptr_ok. exact Hprev.
  - destruct Hprev as [|Hprev]; [contradiction|].
    destruct Hnext as [|Hnext]; [contradiction|].
    eapply exec_bind; [apply load_ptr_ok; exact Hbp0|]. cbv beta. fold prev.
    eapply exec_bind; [apply load_ptr_ok; exact Hbp8|]. cbv beta. fold next.
    eapply exec_bind; [apply store_ptr_ok; exact Hprev|]. cbv beta.
    apply store_ptr_ok. exact Hnext.
Qed.

(** ** cycle_check *)

Lemma is_list_with_out (s : state) (o : list String.string) (l : list Z) : forall head,
  is_list s head l -> is_list (with_out s o) head l.
Proof.
  induction l as [|x l IH]; intros head H; cbn [is_list] in *.
  - exact H.
  - destruct H as (H1 & H2 & H3 & H4 & H5). repeat split; try assumption.
    apply IH. exact H5.
Qed.

Lemma NEXT_FREE_null_faults (s : state) :
  16 < mem_lo s -> NEXT_FREE NULL s = Fault s.
Proof.
  intros Hlo. unfold NEXT_FREE, load_ptr, load, in_arena, NULL, DSIZE.
  destruct (Z.leb_spec (mem_lo s) (0 + 8)); [lia|]. reflexivity.
Qed.

Lemma bind_Fault {A B} (c : M A) (k : A -> M B) (s s1 : state) :
  c s = Fault s1 -> bind c k s = Fault s1.
Proof. intros H. unfold bind. rewrite H. reflexivity. Qed.

Lemma faulted_bind {A B} (c : M A) (k : A -> M B) (s s1 : state) (a : A) :
  c s = Ok a s1 -> faulted (k a s1) = true -> faulted (bind c k s) = true.
Proof. intros H1 H2. rewrite (bind_Ok _ _ _ _ _ H1). exact H2. Qed.

Lemma faulted_bind_now {A B} (c : M A) (k : A -> M B) (s s1 : state) :
  c s = Fault s1 -> faulted (bind c k s) = true.
Proof. intros H. rewrite (bind_Fault _ _ _ _ H). reflexivity. Qed.

(** The hare runs off the end of the list: with the tortoise on a list [lt]
    that is not empty and the hare on a list [lh] that is not longer, the
    loop reads through a null pointer. *)
Lemma cycle_check_loop_faults (lt : list Z) : forall (lh : list Z) fuel s t h,
  16 < mem_lo s ->
  is_list s t lt -> is_list s h lh ->
  lt <> [] -> (length lh <= length lt)%nat -> (length lt <= fuel)%nat ->
  faulted (cycle_check_loop fuel t h s) = true.
Proof.
  induction lt as [|x lt IH]; intros lh fuel s t h Hlo Ht Hh Hne Hlen Hfuel;
    [contradiction|].
  destruct fuel as [|k]; [cbn in Hfuel; lia|].
  cbn [is_list] in Ht. destruct Ht as (-> & Hx & Hxh & Hxn & Hlt).
  cbn [cycle_check_loop]. destruct (Z.eqb_spec x NULL) as [|_]; [contradiction|].
  destruct lh as [|y [|z lh]]; cbn [is_list] in Hh.
  - subst h. eapply faulted_bind_now. apply NEXT_FREE_null_faults. exact Hlo.
  - destruct Hh as (-> & Hy & Hyh & Hyn & Hnil).
    eapply faulted_bind; [apply load_ptr_ok; exact Hyn|]. cbv beta. rewrite Hnil.
    eapply faulted_bind_now. apply NEXT_FREE_null_faults. exact Hlo.
  - destruct Hh as (-> & Hy & Hyh & Hyn & <- & Hz & Hzh & Hzn & Hlh).
    eapply faulted_bind; [apply load_ptr_ok; exact Hyn|]. cbv beta.
    eapply faulted_bind; [apply load_ptr_ok; exact Hzn|]. cbv beta.
    cbn [length] in Hlen, Hfuel.
    destruct lt as [|x' lt']; [cbn in Hlen; lia|].
    destruct (x =? ptr_at s (ptr_at s (y + DSIZE) + DSIZE)).
    + eapply faulted_bind; [reflexivity|]. cbv beta.
      eapply faulted_bind; [apply load_ptr_ok; exact Hxn|]. cbv beta.
      apply (IH lh k); try assumption.
      * apply is_list_with_out. exact Hlt.
      * apply is_list_with_out. exact Hlh.
      * discriminate.
      * cbn [length] in *. lia.
      * cbn [length] in *. lia.
    + eapply faulted_bind; [reflexivity|]. cbv beta.
      eapply faulted_bind; [apply load_ptr_ok; exact Hxn|]. cbv beta.
      apply (IH lh k); try assumption.
      * discriminate.
      * cbn [length] in *. lia.
      * cbn [length] in *. lia.
Qed.

(** ** realloc *)

Lemma memcpy_ok (dst src n : Z) (s : state) :
  in_arena s dst n = true -> in_arena s src n = true ->
  (dst + n <= src \/ src + n <= dst) ->
  memcpy dst src n s = Ok tt (with_bytes s (Mem.copy (bytes s) dst src n)).
Proof.
  intros Hd Hs Hsep. unfold memcpy. rewrite Hd, Hs. cbn [andb].
  assert (H : ((n =? 0) || (dst + n <=? src) || (src + n <=? dst)) = true).
  { destruct Hsep as [H|H]; apply Z.leb_le in H; rewrite H.
    - rewrite orb_true_r. reflexivity.
    - apply orb_true_r. }
  rewrite H. reflexivity.
Qed.

(** * The claims *)

(** Closed goals about numbers and concrete runs, by evaluation. *)
Ltac by_compute :=
  vm_compute; first [reflexivity | let H := fresh in intro H; discriminate H].

(** ** Concrete arenas *)

(** An arena at address 65536 that can grow to 20 MB, with contents [m0]. *)
Definition arena (m0 : Mem.mem) : state := mem_init 65536 (65536 + 20 * 2 ^ 20) m0.

(** The same arena with room for the initial heap only. *)
Definition tight_arena (m0 : Mem.mem) : state := mem_init 65536 (65536 + 280) m0.

Definition zero_mem : Mem.mem := fun _ => 0.

(** The state a call leaves behind. *)
Definition after {A} (c : M A) (s : state) : state :=
  match c s with
  | Ok _ s' => s'
  | Fault s' => s'
  | OutOfFuel => s
  end.

(** ** C1 *)

(** C1 (the code departs from the claim).  The claim: freeing two adjacent
    allocated blocks, in either order, leaves one free block of their
    combined size, and the checker finds no two adjacent free blocks.  On
    the code: after [mm_init], [a = malloc(8)], [b = malloc(24)] and
    [c = malloc(8)], the blocks [a] (24 bytes) and [b] (32 bytes) are
    adjacent and allocated; after [free(a); free(b)], and also after
    [free(b); free(a)], [a] is still a free block of 24 bytes, [b] a free
    block of 32 bytes right behind it, and the block walk of the checker
    prints "Consecutive free blocks": [free] inserts a block without
    coalescing when the bucket of its size is empty. *)
Theorem free_adjacent_pair_not_merged (m0 : Mem.mem) :
  let allocs (k : Z -> Z -> M (Z * Z * Z * Z * Z)) : M (Z * Z * Z * Z * Z) :=
    mm_init ;;; a <- malloc 8 8 ;; b <- malloc 8 24 ;; c <- malloc 8 8 ;; k a b in
  let observe (a b : Z) : M (Z * Z * Z * Z * Z) :=
    ta <- GET (HDRP a) ;; tb <- GET (HDRP b) ;; nb <- NEXT_BLKP a ;;
    ret (a, b, ta, tb, nb) in
  let walk (a b : Z) : M (Z * Z * Z * Z * Z) :=
    h <- get_heap_listp ;; check_blocks 8 h ;;; observe a b in
  value_of (allocs observe (arena m0)) = Some (65648, 65672, 25, 33, 65672) /\
  value_of (allocs (fun a b => free a ;;; free b ;;; observe a b) (arena m0))
    = Some (65648, 65672, 24, 32, 65672) /\
  value_of (allocs (fun a b => free b ;;; free a ;;; observe a b) (arena m0))
    = Some (65648, 65672, 24, 32, 65672) /\
  printed (allocs (fun a b => free a ;;; free b ;;; walk a b) (arena m0))
    = ["Consecutive free blocks"%string] /\
  printed (allocs (fun a b => free b ;;; free a ;;; walk a b) (arena m0))
    = ["Consecutive free blocks"%string].
Proof. cbv zeta. split; [|split; [|split; [|split]]]; vm_compute; reflexivity. Qed.

(** ** C2 *)

(** C2 (the code departs from the claim).  The claim: in every state reached
    from a successful [mm_init] by allocate, free and resize calls, all the
    invariants of the checker hold, among them that no two adjacent blocks
    are both free.  On the code: [mm_init] succeeds, [p = malloc(8)] splits
    the initial block, and [free(p)] finds bucket 0 empty and inserts [p]
    without coalescing; [p] (24 bytes, free) is then followed by the free
    remainder (144 bytes), and the block walk of the checker prints
    "Consecutive free blocks". *)
Theorem adjacent_free_blocks_after_free (m0 : Mem.mem) :
  let script : M (Z * Z * Z * Z * Z) :=
    r <- mm_init ;; p <- malloc 8 8 ;; free p ;;;
    tp <- GET (HDRP p) ;; nb <- NEXT_BLKP p ;; tn <- GET (HDRP nb) ;;
    h <- get_heap_listp ;; check_blocks 8 h ;;;
    ret (r, p, tp, nb, tn) in
  value_of (script (arena m0)) = Some (0, 65648, 24, 65672, 144) /\
  printed (script (arena m0)) = ["Consecutive free blocks"%string].
Proof. cbv zeta. split; vm_compute; reflexivity. Qed.

(** ** C3 *)

(** C3, counterexample.  After [mm_init] and [p = malloc(16)], the old
    payload has 16 bytes.  [realloc(p, 24)] as the specification words it
    copies min(16, 24) = 16 bytes and leaves byte 16 of the new block alone;
    the code copies 24 bytes, the block size in the header of [p], and byte
    16 of the new block becomes the low byte of the old footer. *)
Lemma realloc_copy_length_counterexample :
  let s := after (mm_init ;;; malloc 8 16) (arena zero_mem) in
  value_of ((q <- realloc 8 65648 24 ;; user_load (q + 16)) s) = Some 25 /\
  value_of ((q <- realloc_as_specified 8 65648 24 ;; user_load (q + 16)) s) = Some 0 /\
  value_of ((q <- realloc 8 65648 24 ;; user_load (q + 16)) s) <>
  value_of ((q <- realloc_as_specified 8 65648 24 ;; user_load (q + 16)) s).
Proof. cbv zeta. split; [|split]; by_compute. Qed.

(** C3 (amended).  For a non-null [ptr] whose header can be read and a size
    that is not 0, when the inner [malloc] returns a non-null [newptr], the
    length [realloc] copies is [n] = min(block size of [ptr], size) -- the
    block size is the size field of the header of [ptr], eight more than the
    payload.  If these [n] bytes lie inside the arena both at [ptr] and at
    [newptr] and the two ranges do not overlap, [realloc] copies them, then
    frees [ptr], and returns [newptr]: the state [s2] in which [free] runs
    has the bytes of [ptr] at [newptr] and is otherwise the state [malloc]
    left.  If not, the copy is a [memcpy] outside the arena or between
    overlapping ranges, which C leaves undefined: [realloc] stops there.
    Nothing in [malloc] rules the second case out
    ([realloc_wrapped_size_copy_overlaps] below). *)
Theorem realloc_copies_block_size_then_frees
  (fuel : nat) (ptr size newptr : Z) (s s1 : state) :
  let oldsize := size_at s1 (HDRP ptr) in
  let n := Z.min size oldsize in
  size <> 0 -> ptr <> NULL ->
  malloc fuel size s = Ok newptr s1 -> newptr <> NULL ->
  in_arena s1 (HDRP ptr) 4 = true ->
  (in_arena s1 newptr n = true -> in_arena s1 ptr n = true ->
   (newptr + n <= ptr \/ ptr + n <= newptr) ->
   exists s2,
     same_frame s1 s2 /\
     (forall i, 0 <= i < n ->
        Mem.byte_at (bytes s2) (newptr + i) = Mem.byte_at (bytes s1) (ptr + i)) /\
     (forall x, x < newptr \/ newptr + n <= x -> bytes s2 x = bytes s1 x) /\
     realloc fuel ptr size s = (free ptr ;;; ret newptr) s2) /\
  (in_arena s1 newptr n = false \/ in_arena s1 ptr n = false \/
   (ptr < newptr + n /\ newptr < ptr + n) ->
   realloc fuel ptr size s = Fault s1).
Proof.
  intros oldsize n Hsize Hptr Hmalloc Hnew Hhdr.
  assert (Hn : (if size <? oldsize then size else oldsize) = n).
  { unfold n. destruct (Z.ltb_spec size oldsize); lia. }
  assert (Hstart : forall r : outcome Z,
             (memcpy newptr ptr n ;;; free ptr ;;; ret newptr) s1 = r ->
             realloc fuel ptr size s = r).
  { intros r Hr. unfold realloc.
    destruct (Z.eqb_spec size 0) as [|_]; [contradiction|].
    destruct (Z.eqb_spec ptr NULL) as [|_]; [contradiction|].
    eapply exec_bind; [exact Hmalloc|]. cbv beta.
    destruct (Z.eqb_spec newptr 0) as [|_]; [contradiction|].
    eapply exec_bind; [apply GET_SIZE_ok; exact Hhdr|]. cbv beta. fold oldsize.
    rewrite Hn. exact Hr. }
  split.
  - intros Hdst Hsrc Hsep.
    exists (with_bytes s1 (Mem.copy (bytes s1) newptr ptr n)).
    split; [apply same_frame_with_bytes|]. cbn [bytes with_bytes].
    split; [|split].
    + intros i Hi. rewrite MemFacts.copy_inside by lia.
      replace (ptr + (newptr + i - newptr)) with (ptr + i) by lia. reflexivity.
    + intros x Hx. apply MemFacts.copy_outside. exact Hx.
    + apply Hstart.
      eapply exec_bind; [apply memcpy_ok; assumption|]. cbv beta. reflexivity.
  - intros Hbad. apply Hstart. apply bind_Fault. unfold memcpy.
    destruct Hbad as [Hd|[Hs|[Ho1 Ho2]]].
    + rewrite Hd. reflexivity.
    + rewrite Hs. rewrite andb_false_r. reflexivity.
    + destruct (Z.eqb_spec n 0) as [|_]; [lia|].
      destruct (Z.leb_spec (newptr + n) ptr) as [|_]; [lia|].
      destruct (Z.leb_spec (ptr + n) newptr) as [|_]; [lia|].
      cbn [orb]. rewrite andb_false_r. reflexivity.
Qed.

(** The amended C3 at work: [realloc(p, 24)] after [p = malloc(16)]. *)
Lemma realloc_copies_block_size_then_frees_witness :
  let s := after (mm_init ;;; malloc 8 16) (arena zero_mem) in
  let s1 := after (malloc 8 24) s in
  exists s2,
    Mem.byte_at (bytes s2) (65672 + 16) = Mem.byte_at (bytes s1) (65648 + 16) /\
    realloc 8 65648 24 s = (free 65648 ;;; ret 65672) s2.
Proof.
  intros s s1.
  pose proof (realloc_copies_block_size_then_frees 8 65648 24 65672 s s1) as H.
  cbv zeta in H.
  assert (H1 : 24 <> 0) by by_compute.
  assert (H2 : 65648 <> NULL) by by_compute.
  assert (H3 : malloc 8 24 s = Ok 65672 s1) by by_compute.
  assert (H4 : 65672 <> NULL) by by_compute.
  assert (H5 : in_arena s1 (HDRP 65648) 4 = true) by by_compute.
  assert (H6 : in_arena s1 65672 (Z.min 24 (size_at s1 (HDRP 65648))) = true)
    by by_compute.
  assert (H7 : in_arena s1 65648 (Z.min 24 (size_at s1 (HDRP 65648))) = true)
    by by_compute.
  assert (H8 : 65672 + Z.min 24 (size_at s1 (HDRP 65648)) <= 65648 \/
               65648 + Z.min 24 (size_at s1 (HDRP 65648)) <= 65672)
    by (right; by_compute).
  destruct (H H1 H2 H3 H4 H5) as [Hgood _].
  destruct (Hgood H6 H7 H8) as (s2 & _ & Hcopy & _ & Hrun).
  exists s2. split; [|exact Hrun].
  apply Hcopy. split; by_compute.
Defined.

(** The second case of the amended C3 is met by ordinary calls: after
    [mm_init], [a = malloc(8)], [p = malloc(100)] and [free(a)], the size of
    [realloc(p, 2^64 - 1)] wraps to 8 in [malloc], which hands out the
    24-byte block of [a], right in front of [p]; the 112 bytes [realloc]
    then copies from [p] overlap their destination. *)
Lemma realloc_wrapped_size_copy_overlaps (m0 : Mem.mem) :
  let prefix := (mm_init ;;; a <- malloc 8 8 ;; p <- malloc 8 100 ;; free a ;;; ret (a, p)) in
  value_of (prefix (arena m0)) = Some (65648, 65672) /\
  value_of ((prefix ;;; q <- malloc 8 (SIZE_MOD - 1) ;;
             oldsize <- GET_SIZE (HDRP 65672) ;; ret (q, oldsize)) (arena m0))
    = Some (65648, 112) /\
  faulted ((prefix ;;; realloc 8 65672 (SIZE_MOD - 1)) (arena m0)) = true.
Proof. cbv zeta. split; [|split]; by_compute. Qed.

(** ** C4 *)

(** C4 (the code departs from the claim).  The claim: on every finite,
    null-terminated bucket list the cycle check terminates normally and
    reports no cycle.  On the code: on every such list that is not empty the
    hare, which is advanced two links per round with no test for null, is
    read through a null pointer before the tortoise reaches the end:
    [cycle_check] stops at an access outside the arena.  (The arena starts
    above address 16, so that null and the link slot at null + 8 lie
    outside it.) *)
Theorem cycle_check_faults_on_nonempty_list
  (s : state) (bp : Z) (l : list Z) (fuel : nat) :
  16 < mem_lo s ->
  is_list s bp l -> l <> [] -> (length l <= fuel)%nat ->
  faulted (cycle_check fuel bp s) = true.
Proof.
  intros Hlo Hl Hne Hfuel. unfold cycle_check.
  apply (cycle_check_loop_faults l l); auto.
Qed.

(** The heap right after [mm_init]: bucket 3 holds the one free block, and
    the cycle check on it stops at the null read. *)
Lemma cycle_check_faults_on_nonempty_list_witness :
  let s := after mm_init (arena zero_mem) in
  ptr_at s (seg_free s + 8 * 3) = 65648 /\
  faulted (cycle_check 1 65648 s) = true.
Proof.
  intros s. split; [by_compute|].
  apply (cycle_check_faults_on_nonempty_list s 65648 [65648] 1).
  - by_compute.
  - cbn [is_list]. repeat split; by_compute.
  - intro Hc. discriminate Hc.
  - apply le_n.
Defined.

(** The whole checker stops the same way on the heap [mm_init] builds,
    whatever the arena held before. *)
Lemma mm_checkheap_faults_after_init (m0 : Mem.mem) :
  faulted ((mm_init ;;; mm_checkheap 8 0) (arena m0)) = true.
Proof. vm_compute. reflexivity. Qed.

(** ** C5 *)

(** C5, counterexample.  [find_bucket] casts the size to [int]: 2^31 becomes
    negative and lands in bucket 0, below the bucket of 2^15. *)
Lemma find_bucket_not_monotone :
  ~ (forall s1 s2, 0 <= s1 -> s1 <= s2 -> s2 < SIZE_MOD ->
       find_bucket s1 <= find_bucket s2).
Proof.
  intros H. specialize (H (2 ^ 15) (2 ^ 31)).
  assert (Hc : find_bucket (2 ^ 15) <= find_bucket (2 ^ 31)).
  { apply H; by_compute. }
  vm_compute in Hc. apply Hc. reflexivity.
Qed.

(** C5 (amended).  On the sizes an [int] holds, 0 <= s < 2^31,
    [find_bucket] is monotonic; bucket [i] covers the sizes from [2^(i+4)]
    up to [2^(i+5)], bucket 0 also everything below 16 and bucket 11
    everything from [2^15] on.  [insert_free] files a block under
    [find_bucket] of its header size, and [remove_free] takes the front
    block of a list out of the bucket [find_bucket] of its header size
    selects. *)
Theorem find_bucket_step_function :
  (forall s1 s2, 0 <= s1 -> s1 <= s2 -> s2 < 2 ^ 31 ->
     find_bucket s1 <= find_bucket s2) /\
  (forall s i, 0 <= s < 2 ^ 31 ->
     (find_bucket s = i <->
      0 <= i <= 11 /\ (1 <= i -> 2 ^ (i + 4) <= s) /\ (i < 11 -> s < 2 ^ (i + 5)))) /\
  (forall bp s,
     let slot := seg_free s + 8 * find_bucket (size_at s (HDRP bp)) in
     let head := ptr_at s slot in
     in_arena s (HDRP bp) 4 = true -> in_arena s slot 8 = true ->
     in_arena s bp 16 = true -> 0 <= bp < SIZE_MOD ->
     (slot + 8 <= HDRP bp \/ bp + 16 <= slot) ->
     (head = NULL \/
      (in_arena s head 8 = true /\
       (head + 8 <= HDRP bp \/ bp + 16 <= head) /\
       (head + 8 <= slot \/ slot + 8 <= head))) ->
     exists s', insert_free bp s = Ok tt s' /\ ptr_at s' slot = bp) /\
  (forall bp s,
     let slot := seg_free s + 8 * find_bucket (size_at s (HDRP bp)) in
     let next := ptr_at s (bp + DSIZE) in
     in_arena s (HDRP bp) 4 = true -> in_arena s bp 16 = true ->
     in_arena s slot 8 = true -> ptr_at s bp = NULL ->
     (next = NULL \/
      (in_arena s next 8 = true /\
       (next + 8 <= bp + DSIZE \/ bp + 16 <= next) /\
       (next + 8 <= slot \/ slot + 8 <= next))) ->
     exists s', remove_free bp s = Ok tt s' /\ ptr_at s' slot = next).
Proof.
  split; [|split; [|split]].
  - exact find_bucket_mono.
  - exact find_bucket_range.
  - intros bp s slot head H1 H2 H3 H4 H5 H6.
    destruct (insert_free_spec bp s H1 H2 H3 H4 H5 H6) as (s' & Hrun & Hslot & _).
    exists s'. split; assumption.
  - intros bp s slot next H1 H2 H3 H4 H5.
    destruct (remove_free_head bp s H1 H2 H3 H4 H5) as (s' & Hrun & Hslot & _).
    exists s'. split; assumption.
Qed.

(** The amended C5 at work: sizes 24 and 168, and the free block of the
    initial heap taken out of bucket 3 and put back. *)
Lemma find_bucket_step_function_witness :
  let s := after mm_init (arena zero_mem) in
  let s1 := after (remove_free 65648) s in
  find_bucket 24 <= find_bucket 168 /\
  find_bucket 168 = 3 /\
  (exists s', remove_free 65648 s = Ok tt s' /\ ptr_at s' (seg_free s + 8 * 3) = NULL) /\
  (exists s', insert_free 65648 s1 = Ok tt s' /\ ptr_at s' (seg_free s1 + 8 * 3) = 65648).
Proof.
  intros s s1.
  destruct find_bucket_step_function as (Hmono & Hrange & Hins & Hrem).
  split; [|split; [|split]].
  - apply Hmono; by_compute.
  - apply Hrange; [split; by_compute|].
    split; [split; by_compute|]. split; intros _; by_compute.
  - specialize (Hrem 65648 s). cbv zeta in Hrem.
    assert (E1 : find_bucket (size_at s (HDRP 65648)) = 3) by by_compute.
    assert (E2 : ptr_at s (65648 + DSIZE) = NULL) by by_compute.
    rewrite E1, E2 in Hrem. apply Hrem; try by_compute.
    left. reflexivity.
  - specialize (Hins 65648 s1). cbv zeta in Hins.
    assert (E1 : find_bucket (size_at s1 (HDRP 65648)) = 3) by by_compute.
    rewrite E1 in Hins. apply Hins; try by_compute.
    + split; by_compute.
    + left. by_compute.
    + left. by_compute.
Defined.

(** ** C6 *)

(** C6 (the code departs from the claim).  The claim: for every request
    size above 0 the block size is 24 for a request of at most 8 bytes and
    otherwise the request plus 8 rounded up to a multiple of 8.  On the
    code: the sum [size + 8 + 7] is computed in [size_t] and wraps; for
    [size = 2^64 - 1] the block size comes out as 8, below the minimum block
    size and below the request, and [malloc] hands out a block of 8 bytes,
    header and footer only.  For [size = 2^64 - 15] it comes out as 0.
    ([adjust_size_in_range] has the claim for every request up to
    2^64 - 16.) *)
Theorem adjust_size_wraps_around (m0 : Mem.mem) :
  adjust_size (SIZE_MOD - 1) = 8 /\
  adjust_size (SIZE_MOD - 15) = 0 /\
  value_of ((mm_init ;;; p <- malloc 8 (SIZE_MOD - 1) ;;
             sz <- GET_SIZE (HDRP p) ;; al <- GET_ALLOC (HDRP p) ;; ret (p, sz, al))
            (arena m0)) = Some (65648, 8, 1).
Proof. split; [|split]; by_compute. Qed.

(** ** C7 *)

(** C7, counterexample.  The claim speaks of every adjusted size.  The
    adjusted size [malloc] computes for a request of 2^64 - 15 bytes is 0,
    and it passes it to [place] with the first free block, here the
    168-byte block of the fresh heap.  168 - 0 is at least the minimum block
    size, so the claim has [place] split off an allocated front portion;
    but with size 0 the footer and the next block of [bp] are computed as
    [bp - 8] and [bp] itself: the block is left free, with its 168 bytes,
    at the front of bucket 3, and the footer of the block in front (the
    prologue, tag 9) has been overwritten with the tag 1. *)
Lemma place_zero_size_counterexample :
  let s := after mm_init (arena zero_mem) in
  let s' := after (place 65648 0) s in
  adjust_size (SIZE_MOD - 15) = 0 /\
  value_of (malloc 2 (SIZE_MOD - 15) s) = Some 65648 /\
  size_at s (HDRP 65648) = 168 /\ 3 * DSIZE <= 168 - 0 /\
  value_of (place 65648 0 s) = Some tt /\
  size_at s' (HDRP 65648) = 168 /\ alloc_at s' (HDRP 65648) = 0 /\
  alloc_at s' (HDRP 65648) <> 1 /\
  ptr_at s' (seg_free s + 8 * 3) = 65648 /\
  tag_at s (65648 - DSIZE) = 9 /\ tag_at s' (65648 - DSIZE) = 1.
Proof. cbv zeta. repeat (split; [by_compute|]). by_compute. Qed.

(** C7 (amended).  A free block [bp] that was picked for a request of
    adjusted size [asize], a double-word multiple of at least 8 that fits
    (the sizes [malloc] computes without wrap-around are such, being at
    least 24), once [remove_free] has detached it: if what is left over, [csize - asize], is at least the
    minimum block size of 24 bytes, [place] makes the front an allocated
    block of size [asize] (header and footer) and the rest a free block of
    size [csize - asize] that is put at the front of the bucket of its size;
    otherwise the whole block is allocated with its original size [csize]
    in header and footer, and nothing else is written. *)
Theorem place_splits_or_takes_whole (bp asize : Z) (s s1 : state) :
  let csize := size_at s (HDRP bp) in
  let rem := csize - asize in
  let slot := seg_free s + 8 * find_bucket rem in
  let head := ptr_at s1 slot in
  placeable s bp asize ->
  remove_free bp s = Ok tt s1 ->
  (3 * DSIZE <= rem ->
   head = NULL \/
   (mem_lo s <= head /\ head + 8 <= mem_brk s /\
    (head + 8 <= HDRP bp \/ HDRP bp + csize <= head) /\
    (head + 8 <= seg_free s \/ seg_free s + 8 * BUCKETS <= head))) ->
  exists s',
    place bp asize s = Ok tt s' /\ same_frame s s' /\
    if 3 * DSIZE <=? rem then
      size_at s' (HDRP bp) = asize /\ alloc_at s' (HDRP bp) = 1 /\
      size_at s' (bp + asize - DSIZE) = asize /\ alloc_at s' (bp + asize - DSIZE) = 1 /\
      size_at s' (HDRP (bp + asize)) = rem /\ alloc_at s' (HDRP (bp + asize)) = 0 /\
      size_at s' (bp + csize - DSIZE) = rem /\ alloc_at s' (bp + csize - DSIZE) = 0 /\
      ptr_at s' slot = bp + asize /\
      ptr_at s' (bp + asize) = NULL /\
      ptr_at s' (bp + asize + DSIZE) = head /\
      (head <> NULL -> ptr_at s' head = bp + asize)
    else
      size_at s' (HDRP bp) = csize /\ alloc_at s' (HDRP bp) = 1 /\
      size_at s' (bp + csize - DSIZE) = csize /\ alloc_at s' (bp + csize - DSIZE) = 1 /\
      (forall x, (x < HDRP bp \/ HDRP bp + 4 <= x) ->
                 (x < bp + csize - DSIZE \/ bp + csize - DSIZE + 4 <= x) ->
                 bytes s' x = bytes s1 x).
Proof.
  intros csize rem slot head Hpl Hrm Hhead.
  destruct (size_at_range s (HDRP bp)) as [Hcr Hcm]. fold csize in Hcr, Hcm.
  pose proof (pl_mod _ _ _ Hpl) as Hmod. pose proof (pl_min _ _ _ Hpl) as Hmin.
  pose proof (pl_fit _ _ _ Hpl) as Hfit. fold csize in Hfit.
  change (3 * DSIZE) with 24 in *.
  destruct (Z.leb_spec 24 rem) as [Hge|Hlt].
  - destruct (place_split bp asize s s1 Hpl Hge Hrm (Hhead Hge))
      as (s' & Hrun & T1 & T2 & T3 & T4 & P1 & P2 & P3 & P4 & Hfr).
    fold csize in T4. fold rem in T3, T4. fold slot in P1. fold head in P3, P4.
    assert (Hrm8 : rem mod 8 = 0) by (unfold rem; zlia).
    assert (Hrr : 0 <= rem < UINT_MOD) by (unfold rem; lia).
    assert (Har : 0 <= asize < UINT_MOD) by lia.
    destruct (size_of_tag s' _ asize 1 Hmod Har (or_intror eq_refl) T1).
    destruct (size_of_tag s' _ asize 1 Hmod Har (or_intror eq_refl) T2).
    destruct (size_of_tag s' _ rem 0 Hrm8 Hrr (or_introl eq_refl) T3).
    destruct (size_of_tag s' _ rem 0 Hrm8 Hrr (or_introl eq_refl) T4).
    exists s'. repeat (split; [assumption|]). exact P4.
  - destruct (place_whole bp asize s s1 Hpl Hlt Hrm) as (s' & Hrun & T1 & T2 & Hb & Hfr).
    fold csize in T1, T2, Hb.
    destruct (size_of_tag s' _ csize 1 Hcm Hcr (or_intror eq_refl) T1).
    destruct (size_of_tag s' _ csize 1 Hcm Hcr (or_intror eq_refl) T2).
    exists s'. repeat (split; [assumption|]). exact Hb.
Qed.

(** C7 at work: the 168-byte block of the initial heap placed for a request
    of adjusted size 24 is split into 24 allocated and 144 free bytes. *)
Lemma place_splits_or_takes_whole_witness :
  let s := after mm_init (arena zero_mem) in
  exists s',
    place 65648 24 s = Ok tt s' /\
    size_at s' (HDRP 65648) = 24 /\ alloc_at s' (HDRP 65648) = 1 /\
    size_at s' (HDRP (65648 + 24)) = 144 /\ alloc_at s' (HDRP (65648 + 24)) = 0 /\
    ptr_at s' (seg_free s + 8 * 3) = 65648 + 24.
Proof.
  intros s.
  pose proof (place_splits_or_takes_whole 65648 24 s (after (remove_free 65648) s)) as H.
  cbv zeta in H.
  assert (Hc : size_at s (HDRP 65648) = 168) by by_compute.
  rewrite Hc in H.
  change (3 * DSIZE <=? 168 - 24) with true in H.
  change (find_bucket (168 - 24)) with 3 in H. change (168 - 24) with 144 in H.
  destruct H as (s' & Hrun & _ & H1 & H2 & _ & _ & H5 & H6 & _ & _ & H9 & _).
  - constructor; try by_compute.
  - by_compute.
  - intros _. left. by_compute.
  - exists s'. repeat (split; [assumption|]). exact H9.
Defined.

(** ** C8 *)



(** ** C9 *)

(** [realloc(NULL, 0)] against [malloc(0)] on a heap that is not
    initialised yet, in the 20 MB arena with any contents: [realloc] takes
    its first branch, [free(NULL)], and returns null with the state
    untouched, while [malloc(0)] runs [mm_init] before it returns null. *)
Lemma realloc_null_zero_skips_init (fuel : nat) (m0 : Mem.mem) :
  let s := arena m0 in
  realloc fuel NULL 0 s = Ok NULL s /\
  value_of (malloc fuel 0 s) = Some NULL /\
  mem_brk (after (malloc fuel 0) s) = mem_brk s + 280 /\
  heap_listp s = 0 /\ heap_listp (after (malloc fuel 0) s) = 65640 /\
  realloc fuel NULL 0 s <> malloc fuel 0 s.
Proof.
  cbv zeta. split; [reflexivity|]. split; [by_compute|]. split; [by_compute|].
  split; [reflexivity|]. split; [by_compute|].
  intros H.
  apply (f_equal (fun o : outcome Z => match o with Ok _ s' => mem_brk s' | _ => 0 end)) in H.
  vm_compute in H. discriminate H.
Qed.

(** C9, counterexample.  The claim has [realloc(NULL, n)] behave exactly
    as [malloc(n)] for every [n].  With [n = 0] on a heap that is not
    initialised yet the two return null, but [realloc] leaves the state
    untouched while after [malloc(0)] the arena has grown by 280 bytes and
    [heap_listp] is set. *)
Lemma realloc_null_zero_counterexample :
  let s := arena zero_mem in
  realloc 8 NULL 0 s = Ok NULL s /\
  value_of (malloc 8 0 s) = Some NULL /\
  mem_brk (after (malloc 8 0) s) = mem_brk s + 280 /\
  heap_listp s = 0 /\ heap_listp (after (malloc 8 0) s) = 65640 /\
  realloc 8 NULL 0 s <> malloc 8 0 s.
Proof. exact (realloc_null_zero_skips_init 8 zero_mem). Qed.

(** C9 (amended).  [realloc(p, 0)] runs [free(p)] and returns null, for any
    [p]; [realloc(NULL, n)] is [malloc(n)] for every [n] other than 0, and
    for [n = 0] once the heap is initialised; and when the inner
    [malloc] returns null, [realloc] returns null in the state [malloc]
    left, which on an initialised heap in a sane arena is the state before
    the call: the old block is untouched. *)
Theorem realloc_special_cases (fuel : nat) (s : state) :
  (forall p, realloc fuel p 0 s = (free p ;;; ret NULL) s) /\
  (forall n, n <> 0 \/ heap_listp s <> 0 -> realloc fuel NULL n s = malloc fuel n s) /\
  (forall p n s1,
     p <> NULL -> n <> 0 -> malloc fuel n s = Ok NULL s1 ->
     realloc fuel p n s = Ok NULL s1 /\
     (sane_arena s -> heap_listp s <> 0 -> s1 = s)).
Proof.
  split; [|split].
  - intros p. reflexivity.
  - intros n Hn. unfold realloc.
    destruct (Z.eqb_spec n 0) as [->|Hne]; [|reflexivity].
    destruct Hn as [Hn|Hinit]; [contradiction|].
    unfold malloc, free. cbn [Z.eqb].
    rewrite (bind_Ok _ _ _ _ _ (lazy_init_done s Hinit)). reflexivity.
  - intros p n s1 Hp Hn Hmalloc. split.
    + unfold realloc.
      destruct (Z.eqb_spec n 0) as [|_]; [contradiction|].
      destruct (Z.eqb_spec p NULL) as [|_]; [contradiction|].
      rewrite (bind_Ok _ _ _ _ _ Hmalloc). reflexivity.
    + intros Hsane Hinit. eapply malloc_null; eassumption.
Qed.

(** C9 at work, in an arena with room for the initial heap only: with
    [p = malloc(8)] allocated, [realloc(p, 1000)] cannot grow the arena,
    returns null and leaves the state as it was; [realloc(p, 0)] frees. *)
Lemma realloc_special_cases_witness :
  let s := after (mm_init ;;; malloc 8 8) (tight_arena zero_mem) in
  realloc 8 65648 1000 s = Ok NULL s /\
  realloc 8 NULL 1000 s = malloc 8 1000 s /\
  realloc 8 65648 0 s = (free 65648 ;;; ret NULL) s.
Proof.
  intros s.
  destruct (realloc_special_cases 8 s) as (Hzero & Hnull & Hfail).
  assert (Hm : malloc 8 1000 s = Ok NULL (after (malloc 8 1000) s)) by by_compute.
  destruct (Hfail 65648 1000 _ ltac:(by_compute) ltac:(by_compute) Hm) as [Hrun Hsame].
  assert (Hs : after (malloc 8 1000) s = s).
  { apply Hsame; [split; by_compute|by_compute]. }
  rewrite Hs in Hrun.
  split; [exact Hrun|]. split; [|apply Hzero].
  apply Hnull. left. by_compute.
Defined.

(** ** C10 *)

(** The part of C10 that holds in every state: walking the blocks from an
    aligned start, as the checker does, only visits aligned addresses, and
    every size read from a header is a multiple of 8, because [GET_SIZE]
    masks the low three bits. *)
Lemma GET_SIZE_multiple_of_8 (p v : Z) (s s' : state) :
  GET_SIZE p s = Ok v s' -> v mod 8 = 0.
Proof.
  intros H. apply GET_SIZE_inv in H as (_ & -> & _).
  apply (proj2 (size_at_range s p)).
Qed.

Lemma NEXT_BLKP_aligned (bp nb : Z) (s s' : state) :
  bp mod 8 = 0 -> NEXT_BLKP bp s = Ok nb s' -> nb mod 8 = 0.
Proof.
  intros Hbp H. unfold NEXT_BLKP in H. apply bind_inv in H as (sz & s1 & H1 & H2).
  apply GET_SIZE_multiple_of_8 in H1. apply ret_inv in H2 as (-> & _). zlia.
Qed.

(** C10 (the code departs from the claim).  The claim: every pointer a
    successful allocate returns is 8-byte aligned.  On the code:
    [q = malloc(1000)] succeeds; [p = malloc(2^64 - 15)] has its block size
    wrap to 0, so that [place] hands out the free block behind [q] while
    leaving it on its free list; the caller stores into [p], the payload it
    was given, eight bytes at [p + 8] (which is the next link of that free
    block) and into [q], its other payload, a word at [q + 1] and zeros
    behind it; [malloc(170)] then follows the link and returns [q + 5],
    which is not a multiple of 8.  The defect is the wrap-around of C6. *)
Theorem malloc_returns_unaligned_pointer (m0 : Mem.mem) :
  let script : M (Z * Z * Z * Z) :=
    r <- mm_init ;;
    q <- malloc 8 1000 ;;
    p <- malloc 8 (SIZE_MOD - 15) ;;
    user_write 8 (p + 8) (q + 5) ;;;
    user_write 4 (q + 1) 184 ;;;
    user_write 16 (q + 5) 0 ;;;
    x <- malloc 8 170 ;;
    ret (r, q, p, x) in
  value_of (script (arena m0)) = Some (0, 65648, 66656, 65653) /\
  65653 mod 8 = 5.
Proof. cbv zeta. split; by_compute. Qed.


(** * More of the allocator: lemmas *)

(** ** Blocks on a free list *)

(** A block [q] on a bucket list of a laid-out heap: the bucket table lies
    in the arena, [q] and its two links lie behind the table and inside the
    arena, and so do the blocks its links name, which are other blocks (at
    least the two link words apart from [q] and from each other). *)
Record listed (s : state) (q : Z) : Prop := {
  li_lo : 0 <= mem_lo s;
  li_hi : mem_brk s <= SIZE_MOD;
  li_table : mem_lo s <= seg_free s;
  li_after : seg_free s + 8 * BUCKETS <= HDRP q;
  li_links : q + 16 <= mem_brk s;
  li_prev : ptr_at s q = NULL \/
            (seg_free s + 8 * BUCKETS <= ptr_at s q /\ ptr_at s q + 16 <= mem_brk s /\
             (ptr_at s q + 16 <= q \/ q + 16 <= ptr_at s q));
  li_next : ptr_at s (q + DSIZE) = NULL \/
            (seg_free s + 8 * BUCKETS <= ptr_at s (q + DSIZE) /\
             ptr_at s (q + DSIZE) + 16 <= mem_brk s /\
             (ptr_at s (q + DSIZE) + 16 <= q \/ q + 16 <= ptr_at s (q + DSIZE)));
  li_apart : ptr_at s q = NULL \/ ptr_at s (q + DSIZE) = NULL \/
             ptr_at s q + 16 <= ptr_at s (q + DSIZE) \/
             ptr_at s (q + DSIZE) + 16 <= ptr_at s q
}.

(** [remove_free] unlinks the block: what pointed to it -- the bucket slot
    when it was at the front, else the next link of its predecessor -- now
    holds its successor, and the previous link of its successor, if there is
    one, holds its predecessor.  Nothing else is written. *)
Lemma remove_free_spec (q : Z) (s : state) :
  let slot := seg_free s + 8 * find_bucket (size_at s (HDRP q)) in
  let prev := ptr_at s q in
  let next := ptr_at s (q + DSIZE) in
  listed s q ->
  exists s',
    remove_free q s = Ok tt s' /\
    (prev = NULL -> ptr_at s' slot = next) /\
    (prev <> NULL -> ptr_at s' (prev + DSIZE) = next) /\
    (next <> NULL -> ptr_at s' next = prev) /\
    (forall x,
       (prev <> NULL \/ x < slot \/ slot + 8 <= x) ->
       (prev = NULL \/ x < prev + DSIZE \/ prev + DSIZE + 8 <= x) ->
       (next = NULL \/ x < next \/ next + 8 <= x) ->
       bytes s' x = bytes s x) /\
    same_frame s s'.
Proof.
  intros slot prev next [Hlo Hhi Htab Haft Hlinks Hprev Hnext Hapart].
  fold prev in Hprev, Hapart. fold next in Hnext, Hapart.
  pose proof (find_bucket_bounds (size_at s (HDRP q))) as Hb.
  pose proof (ptr_at_range s q) as Hpr. fold prev in Hpr.
  pose proof (ptr_at_range s (q + DSIZE)) as Hnr. fold next in Hnr.
  unfold HDRP, WSIZE, DSIZE, BUCKETS, NULL in *.
  assert (Hh : in_arena s (q - 4) 4 = true) by (apply in_arena_true; lia).
  assert (Hq : in_arena s q 16 = true) by (apply in_arena_true; lia).
  assert (Hq0 : in_arena s q 8 = true) by (apply in_arena_true; lia).
  assert (Hq8 : in_arena s (q + 8) 8 = true) by (apply in_arena_true; lia).
  assert (Hslot : in_arena s slot 8 = true) by (apply in_arena_true; unfold slot; lia).
  destruct (Z.eq_dec prev 0) as [Hp|Hp].
  - destruct (remove_free_head q s) as (s' & Hrun & H1 & H2 & Hfr & Hsf);
      try assumption.
    { unfold DSIZE. fold next.
      destruct Hnext as [Hn|(Hn1 & Hn2 & Hn3)]; [left; exact Hn|right].
      split; [apply in_arena_true; lia|]. unfold HDRP, WSIZE. fold slot. unfold slot. lia. }
    unfold HDRP, WSIZE, DSIZE, NULL in *. fold slot in H1, Hfr. fold next in H1, H2, Hfr.
    exists s'. split; [exact Hrun|]. split; [intros _; exact H1|].
    split; [intros Hc; contradiction|]. split; [intros Hn; rewrite Hp; apply H2; exact Hn|].
    split; [|exact Hsf].
    intros x Hx1 _ Hx3. apply Hfr; [|exact Hx3].
    destruct Hx1 as [Hc|Hx1]; [contradiction|exact Hx1].
  - destruct Hprev as [Hc|(Hp1 & Hp2 & Hp3)]; [contradiction|].
    assert (Hpa : in_arena s (prev + 8) 8 = true) by (apply in_arena_true; lia).
    unfold remove_free, PREV_FREE, NEXT_FREE, set_PREV_FREE, set_NEXT_FREE.
    unfold HDRP, WSIZE, DSIZE, NULL.
    destruct (Z.eq_dec next 0) as [Hn|Hn].
    + eexists. split.
      { eapply exec_bind; [apply GET_SIZE_ok; exact Hh|]. cbv beta zeta.
        eapply exec_bind; [apply load_ptr_ok; exact Hq0|]. cbv beta.
        eapply exec_bind; [apply load_ptr_ok; exact Hq8|]. cbv beta.
        fold prev. fold next.
        destruct (Z.eqb_spec prev 0) as [|_]; [contradiction|].
        rewrite Hn. cbn [andb Z.eqb].
        eapply exec_bind; [apply load_ptr_ok; exact Hq0|]. cbv beta. fold prev.
        apply store_ptr_ok. exact Hpa. }
      unfold ptr_at, same_frame.
      cbn [bytes with_bytes mem_lo mem_brk mem_max seg_free heap_listp out].
      change (to_size_t 0) with 0.
      repeat split; try reflexivity.
      * intros Hc. contradiction.
      * intros _. mem_norm. symmetry. exact Hn.
      * intros Hc. contradiction.
      * intros x _ [Hc|Hx] _; [contradiction|]. mem_norm. reflexivity.
    + destruct Hnext as [Hc|(Hn1 & Hn2 & Hn3)]; [contradiction|].
      destruct Hapart as [Hc|[Hc|Hapart]]; [contradiction|contradiction|].
      assert (Hna : in_arena s next 8 = true) by (apply in_arena_true; lia).
      eexists. split.
      { eapply exec_bind; [apply GET_SIZE_ok; exact Hh|]. cbv beta zeta.
        eapply exec_bind; [apply load_ptr_ok; exact Hq0|]. cbv beta.
        eapply exec_bind; [apply load_ptr_ok; exact Hq8|]. cbv beta.
        fold prev. fold next.
        destruct (Z.eqb_spec prev 0) as [|_]; [contradiction|].
        destruct (Z.eqb_spec next 0) as [|_]; [contradiction|]. cbn [andb].
        eapply exec_bind; [apply load_ptr_ok; exact Hq0|]. cbv beta. fold prev.
        eapply exec_bind; [apply load_ptr_ok; exact Hq8|]. cbv beta. fold next.
        eapply exec_bind; [apply store_ptr_ok; exact Hpa|]. cbv beta.
        apply store_ptr_ok. exact Hna. }
      unfold ptr_at, same_frame.
      cbn [bytes with_bytes mem_lo mem_brk mem_max seg_free heap_listp out].
      rewrite (to_size_t_small next) by szlia. rewrite (to_size_t_small prev) by szlia.
      repeat split; try reflexivity.
      * intros Hc. contradiction.
      * intros _. mem_norm. reflexivity.
      * intros _. mem_norm. reflexivity.
      * intros x _ [Hc|Hx] [Hc'|Hx']; try contradiction. mem_norm. reflexivity.
Qed.

(** Two memories that read the same [n]-byte value at [a] agree on every
    byte of that range. *)
Lemma rd_bytes_agree (n : nat) : forall (m m' : Mem.mem) (a x : Z),
  Mem.rd n m a = Mem.rd n m' a -> a <= x < a + Z.of_nat n ->
  Mem.byte_at m x = Mem.byte_at m' x.
Proof.
  induction n as [|n IH]; intros m m' a x Heq Hx.
  - cbn in Hx. lia.
  - unfold Mem.rd in Heq. fold Mem.rd in Heq.
    pose proof (MemFacts.byte_at_range m a) as B1.
    pose proof (MemFacts.byte_at_range m' a) as B2.
    assert (Hb : Mem.byte_at m a = Mem.byte_at m' a) by lia.
    destruct (Z.eq_dec x a) as [->|Hne]; [exact Hb|].
    apply (IH m m' (a + 1) x); [lia|]. rewrite Nat2Z.inj_succ in Hx. lia.
Qed.

(** ** insert_free, then remove_free *)

(** A block that may be put on its bucket list: the table lies in the
    arena, the block and its two link words lie behind it, and the block at
    the front of the list, if there is one, is another block in the heap. *)
Record insertable (s : state) (bp : Z) : Prop := {
  ins_lo : 0 <= mem_lo s;
  ins_hi : mem_brk s <= SIZE_MOD;
  ins_table : mem_lo s <= seg_free s;
  ins_after : seg_free s + 8 * BUCKETS <= HDRP bp;
  ins_links : bp + 16 <= mem_brk s;
  ins_head :
    let head := ptr_at s (seg_free s + 8 * find_bucket (size_at s (HDRP bp))) in
    head = NULL \/
    (seg_free s + 8 * BUCKETS <= head /\ head + 8 <= mem_brk s /\
     (head + 8 <= HDRP bp \/ bp + 16 <= head))
}.

Lemma insertable_spec (bp : Z) (s : state) :
  let slot := seg_free s + 8 * find_bucket (size_at s (HDRP bp)) in
  let head := ptr_at s slot in
  insertable s bp ->
  exists s',
    insert_free bp s = Ok tt s' /\
    ptr_at s' slot = bp /\
    ptr_at s' bp = NULL /\
    ptr_at s' (bp + DSIZE) = head /\
    (head <> NULL -> ptr_at s' head = bp) /\
    (forall x,
       (x < slot \/ slot + 8 <= x) -> (x < bp \/ bp + 16 <= x) ->
       (head = NULL \/ x < head \/ head + 8 <= x) ->
       bytes s' x = bytes s x) /\
    same_frame s s'.
Proof.
  intros slot head [Hlo Hhi Htab Haft Hlinks Hhead]. cbv zeta in Hhead.
  fold slot in Hhead. fold head in Hhead.
  pose proof (find_bucket_bounds (size_at s (HDRP bp))) as Hb.
  assert (Hslot : seg_free s <= slot /\ slot + 8 <= seg_free s + 8 * BUCKETS)
    by (unfold slot, BUCKETS; lia).
  unfold HDRP, WSIZE, BUCKETS, NULL in *.
  destruct (insert_free_spec bp s) as
    (s' & Hrun & P1 & P2 & P3 & P4 & Pfr & G1 & G2 & G3 & G4 & G5).
  - apply in_arena_true; unfold HDRP, WSIZE; lia.
  - apply in_arena_true; unfold HDRP, WSIZE; fold slot; lia.
  - apply in_arena_true; lia.
  - unfold SIZE_MOD in *. lia.
  - unfold HDRP, WSIZE. fold slot. lia.
  - unfold HDRP, WSIZE, NULL. fold slot. fold head.
    destruct Hhead as [Hz|(H1 & H2 & H3)]; [left; exact Hz|right].
    split; [apply in_arena_true; lia|]. lia.
  - exists s'. unfold HDRP, WSIZE, NULL in *. fold slot in P1, P4, Pfr. fold head in P3, P4, Pfr.
    assert (Hmax : mem_max s' = mem_max s).
    { apply (pres_insert_free (fun a b => mem_max b = mem_max a)) in Hrun;
        [exact Hrun | reflexivity | intros; congruence | reflexivity]. }
    split; [exact Hrun|]. split; [exact P1|]. split; [exact P2|]. split; [exact P3|].
    split; [exact P4|]. split; [exact Pfr|].
    unfold same_frame. repeat split; assumption.
Qed.

(** Putting a block on its list and taking it off again restores the list:
    provided the old front block had a null previous link, every byte
    outside the two link words of the block reads as before. *)
Lemma insert_remove_spec (bp : Z) (s : state) :
  let slot := seg_free s + 8 * find_bucket (size_at s (HDRP bp)) in
  let head := ptr_at s slot in
  insertable s bp ->
  (head = NULL \/ ptr_at s head = NULL) ->
  exists s1 s2,
    insert_free bp s = Ok tt s1 /\
    remove_free bp s1 = Ok tt s2 /\
    (forall x, x < bp \/ bp + 16 <= x ->
       Mem.byte_at (bytes s2) x = Mem.byte_at (bytes s) x) /\
    same_frame s s2.
Proof.
  intros slot head Hins Hfront.
  destruct (insertable_spec bp s Hins) as (s1 & Hrun1 & P1 & P2 & P3 & P4 & Pfr & Hsf1).
  fold slot in P1, P4, Pfr. fold head in P3, P4, Pfr.
  destruct Hins as [Hlo Hhi Htab Haft Hlinks Hhead]. cbv zeta in Hhead.
  fold slot in Hhead. fold head in Hhead.
  pose proof (find_bucket_bounds (size_at s (HDRP bp))) as Hb.
  assert (Hslot : seg_free s <= slot /\ slot + 8 <= seg_free s + 8 * BUCKETS)
    by (unfold slot, BUCKETS; lia).
  destruct Hsf1 as (F1 & F2 & F3 & F4 & F5 & F6).
  unfold HDRP, WSIZE, DSIZE, BUCKETS, NULL in *.
  assert (Hsz : size_at s1 (bp - 4) = size_at s (bp - 4)).
  { unfold size_at. f_equal. apply tag_frame. intros x Hx. apply Pfr; lia. }
  destruct (remove_free_head bp s1) as (s2 & Hrun2 & Q1 & Q2 & Qfr & Hsf2).
  - apply in_arena_true; unfold HDRP, WSIZE; lia.
  - apply in_arena_true; lia.
  - apply in_arena_true; unfold HDRP, WSIZE; rewrite Hsz, F5; fold slot; lia.
  - exact P2.
  - unfold DSIZE, NULL, HDRP, WSIZE. rewrite P3, Hsz, F5. fold slot.
    destruct Hhead as [Hz|(H1 & H2 & H3)]; [left; exact Hz|right].
    split; [apply in_arena_true; lia|]. lia.
  - unfold HDRP, WSIZE, DSIZE, NULL in *. rewrite Hsz, F5 in *. fold slot in Q1, Qfr.
    rewrite P3 in *. fold slot in Q1, Q2, Qfr. fold head in Q1, Q2, Qfr.
    exists s1, s2. split; [exact Hrun1|]. split; [exact Hrun2|]. split.
    + intros x Hx.
      destruct (Z_le_dec slot x) as [Hs1|Hs1];
        [destruct (Z_lt_dec x (slot + 8)) as [Hs2|Hs2]|].
      * apply (rd_bytes_agree 8 _ _ slot x); [|cbn; lia].
        change (ptr_at s2 slot = ptr_at s slot). exact Q1.
      * destruct Hfront as [Hz|Hpz].
        { unfold Mem.byte_at. rewrite Qfr by (try lia; left; exact Hz).
          rewrite Pfr by (try lia; left; exact Hz). reflexivity. }
        destruct (Z.eq_dec head 0) as [Hz|Hnz].
        { unfold Mem.byte_at. rewrite Qfr by (try lia; left; exact Hz).
          rewrite Pfr by (try lia; left; exact Hz). reflexivity. }
        destruct (Z_le_dec head x) as [Hh1|Hh1];
          [destruct (Z_lt_dec x (head + 8)) as [Hh2|Hh2]|].
        -- apply (rd_bytes_agree 8 _ _ head x); [|cbn; lia].
           change (ptr_at s2 head = ptr_at s head).
           transitivity 0; [exact (Q2 Hnz)|symmetry; exact Hpz].
        -- unfold Mem.byte_at. rewrite Qfr by (try lia; right; lia).
           rewrite Pfr by (try lia; right; lia). reflexivity.
        -- unfold Mem.byte_at. rewrite Qfr by (try lia; right; lia).
           rewrite Pfr by (try lia; right; lia). reflexivity.
      * destruct Hfront as [Hz|Hpz].
        { unfold Mem.byte_at. rewrite Qfr by (try lia; left; exact Hz).
          rewrite Pfr by (try lia; left; exact Hz). reflexivity. }
        destruct (Z.eq_dec head 0) as [Hz|Hnz].
        { unfold Mem.byte_at. rewrite Qfr by (try lia; left; exact Hz).
          rewrite Pfr by (try lia; left; exact Hz). reflexivity. }
        destruct (Z_le_dec head x) as [Hh1|Hh1];
          [destruct (Z_lt_dec x (head + 8)) as [Hh2|Hh2]|].
        -- apply (rd_bytes_agree 8 _ _ head x); [|cbn; lia].
           change (ptr_at s2 head = ptr_at s head).
           transitivity 0; [exact (Q2 Hnz)|symmetry; exact Hpz].
        -- unfold Mem.byte_at. rewrite Qfr by (try lia; right; lia).
           rewrite Pfr by (try lia; right; lia). reflexivity.
        -- unfold Mem.byte_at. rewrite Qfr by (try lia; right; lia).
           rewrite Pfr by (try lia; right; lia). reflexivity.
    + destruct Hsf2 as (E1 & E2 & E3 & E4 & E5 & E6).
      unfold same_frame. repeat split; congruence.
Qed.

(** ** free *)

(** A block of the heap: behind the bucket table, inside the arena, and at
    least a minimum block (24 bytes) by its header. *)
Record heap_block (s : state) (bp : Z) : Prop := {
  hb_lo : 0 <= mem_lo s;
  hb_hi : mem_brk s <= SIZE_MOD;
  hb_table : mem_lo s <= seg_free s;
  hb_after : seg_free s + 8 * BUCKETS <= HDRP bp;
  hb_min : 24 <= size_at s (HDRP bp);
  hb_inside : HDRP bp + size_at s (HDRP bp) <= mem_brk s
}.

Lemma pack_free (size : Z) : 0 <= size < UINT_MOD -> to_uint (PACK size 0) = size.
Proof.
  intros H. unfold PACK, to_uint. rewrite Z.lor_0_r. apply Z.mod_small. exact H.
Qed.

(** [free] on a block whose bucket is empty: the block is tagged free with
    its own size and becomes the only block of the bucket; the bytes outside
    its header, its footer, its two link words and the bucket slot are left
    as they were.  The neighbours of the block are not looked at. *)
Lemma free_direct_spec (bp : Z) (s : state) :
  let size := size_at s (HDRP bp) in
  let slot := seg_free s + 8 * find_bucket size in
  bp <> 0 -> heap_listp s <> 0 ->
  heap_block s bp ->
  ptr_at s slot = NULL ->
  exists s',
    free bp s = Ok tt s' /\
    size_at s' (HDRP bp) = size /\ alloc_at s' (HDRP bp) = 0 /\
    size_at s' (bp + size - DSIZE) = size /\ alloc_at s' (bp + size - DSIZE) = 0 /\
    ptr_at s' slot = bp /\ ptr_at s' bp = NULL /\ ptr_at s' (bp + DSIZE) = NULL /\
    (forall x,
       (x < HDRP bp \/ bp + 16 <= x) ->
       (x < bp + size - DSIZE \/ bp + size - DSIZE + 4 <= x) ->
       (x < slot \/ slot + 8 <= x) ->
       bytes s' x = bytes s x) /\
    same_frame s s'.
Proof.
  intros size slot Hbp Hinit [Hlo Hhi Htab Haft Hmin Hin] Hempty.
  fold size in Hmin, Hin.
  destruct (size_at_range s (HDRP bp)) as [Hcr Hcm]. fold size in Hcr, Hcm.
  pose proof (find_bucket_bounds size) as Hb.
  assert (Hsizedef : size_at s (HDRP bp) = size) by reflexivity.
  assert (Hslotdef : slot = seg_free s + 8 * find_bucket size) by reflexivity.
  clearbody slot. clearbody size.
  unfold HDRP, WSIZE, DSIZE, BUCKETS, NULL in *.
  assert (Hh : in_arena s (bp - 4) 4 = true) by (apply in_arena_true; lia).
  assert (Hf : in_arena s (bp + size - 8) 4 = true) by (apply in_arena_true; lia).
  assert (Hsl : in_arena s slot 8 = true) by (apply in_arena_true; lia).
  set (s1 := with_bytes s (Mem.wr 4 (bytes s) (bp - 4) (to_uint (PACK size 0)))).
  set (s2 := with_bytes s1 (Mem.wr 4 (bytes s1) (bp + size - 8) (to_uint (PACK size 0)))).
  assert (Hsz1 : size_at s1 (bp - 4) = size).
  { apply (size_of_tag s1 (bp - 4) size 0); auto.
    unfold tag_at, s1. cbn [bytes with_bytes]. mem_norm. reflexivity. }
  assert (Ht2 : tag_at s2 (bp - 4) = to_uint (PACK size 0)).
  { unfold tag_at, s2, s1. cbn [bytes with_bytes]. mem_norm. reflexivity. }
  assert (Hf2 : tag_at s2 (bp + size - 8) = to_uint (PACK size 0)).
  { unfold tag_at, s2, s1. cbn [bytes with_bytes]. mem_norm. reflexivity. }
  destruct (size_of_tag s2 (bp - 4) size 0 Hcm Hcr (or_introl eq_refl) Ht2) as [Hsz2 _].
  assert (Hhead2 : ptr_at s2 slot = 0).
  { rewrite <- Hempty. unfold ptr_at, s2, s1. cbn [bytes with_bytes]. mem_norm. reflexivity. }
  pose proof (insert_free_spec bp s2) as Hspec. cbv zeta in Hspec.
  unfold HDRP, WSIZE, DSIZE, NULL in Hspec. rewrite Hsz2 in Hspec.
  change (seg_free s2) with (seg_free s) in Hspec. rewrite <- Hslotdef in Hspec.
  rewrite Hhead2 in Hspec.
  destruct Hspec as (s' & Hins & P1 & P2 & P3 & _ & Pfr & G1 & G2 & G3 & G4 & G5).
  { apply in_arena_true; cbn; lia. }
  { apply in_arena_true; cbn; lia. }
  { apply in_arena_true; cbn; lia. }
  { unfold SIZE_MOD in *. lia. }
  { lia. }
  { left. reflexivity. }
  assert (Hfr : forall p, bp - 4 <= p -> p + 4 <= bp + size - 4 ->
                          (p + 4 <= bp \/ bp + 16 <= p) -> tag_at s' p = tag_at s2 p).
  { intros p Hp1 Hp2 Hp3. apply tag_frame. intros x Hx. apply Pfr; lia. }
  assert (T1 : tag_at s' (bp - 4) = to_uint (PACK size 0)) by (rewrite Hfr by lia; exact Ht2).
  assert (T2 : tag_at s' (bp + size - 8) = to_uint (PACK size 0))
    by (rewrite Hfr by lia; exact Hf2).
  destruct (size_of_tag s' _ size 0 Hcm Hcr (or_introl eq_refl) T1) as [A1 A2].
  destruct (size_of_tag s' _ size 0 Hcm Hcr (or_introl eq_refl) T2) as [A3 A4].
  assert (Hmax : mem_max s' = mem_max s).
  { apply (pres_insert_free (fun a b => mem_max b = mem_max a)) in Hins;
      [exact Hins | reflexivity | intros; congruence | reflexivity]. }
  exists s'. split.
  { unfold free. destruct (Z.eqb_spec bp 0) as [|_]; [contradiction|].
    unfold HDRP, WSIZE.
    eapply exec_bind; [apply GET_SIZE_ok; exact Hh|]. cbv beta. rewrite Hsizedef.
    eapply exec_bind; [apply lazy_init_done; exact Hinit|]. cbv beta.
    eapply exec_bind; [apply PUT_ok; exact Hh|]. cbv beta. fold s1.
    eapply exec_bind; [apply FTRP_ok; exact Hh|]. cbv beta.
    unfold HDRP, WSIZE, DSIZE. rewrite Hsz1.
    eapply exec_bind; [apply PUT_ok; exact Hf|]. cbv beta. fold s2.
    eapply exec_bind.
    { apply get_bucket_ok. change (in_arena s (seg_free s + 8 * find_bucket size) 8 = true).
      rewrite <- Hslotdef. exact Hsl. }
    cbv beta. change (seg_free s2) with (seg_free s). rewrite <- Hslotdef, Hhead2.
    cbn [Z.eqb NULL]. exact Hins. }
  split; [exact A1|]. split; [exact A2|]. split; [exact A3|]. split; [exact A4|].
  split; [exact P1|]. split; [exact P2|]. split; [exact P3|]. split.
  - intros x H1 H2 H3. rewrite Pfr by (try lia; left; reflexivity).
    unfold s2, s1. cbn [bytes with_bytes]. mem_norm. reflexivity.
  - unfold same_frame. repeat split; assumption.
Qed.

(** ** coalesce *)

(** What [coalesce] reads before it decides: the block in front of [bp],
    found through the footer at [bp - 8] and with a header of the same
    size, and the header behind the block, all inside the arena. *)
Record between_tags (s : state) (bp : Z) : Prop := {
  bt_prev_hdr : mem_lo s <= HDRP (bp - size_at s (bp - DSIZE));
  bt_prev_ftr : mem_lo s <= bp - DSIZE;
  bt_prev_agree : size_at s (HDRP (bp - size_at s (bp - DSIZE))) = size_at s (bp - DSIZE);
  bt_here : bp <= mem_brk s;
  bt_next_hdr : bp + size_at s (HDRP bp) <= mem_brk s
}.

(** The reads at the start of [coalesce]. *)
Lemma coalesce_reads (bp : Z) (s : state) (r : outcome Z) :
  between_tags s bp ->
  (bp' <- coalesce_merge bp (alloc_at s (bp - DSIZE))
            (alloc_at s (HDRP (bp + size_at s (HDRP bp)))) (size_at s (HDRP bp)) ;;
   insert_free bp' ;;; ret bp') s = r ->
  coalesce bp s = r.
Proof.
  intros [H1 H2 H3 H4 H5] Hr.
  pose proof (proj1 (size_at_range s (bp - DSIZE))) as Hp.
  pose proof (proj1 (size_at_range s (HDRP bp))) as Hsz.
  unfold HDRP, WSIZE, DSIZE in *. unfold coalesce.
  eapply exec_bind; [apply PREV_BLKP_ok; apply in_arena_true; unfold DSIZE; lia|]. cbv beta.
  eapply exec_bind; [apply FTRP_ok; apply in_arena_true; unfold HDRP, WSIZE, DSIZE; lia|].
  cbv beta. unfold HDRP, WSIZE, DSIZE. rewrite H3.
  replace (bp - size_at s (bp - 8) + size_at s (bp - 8) - 8) with (bp - 8) by lia.
  eapply exec_bind; [apply GET_ALLOC_ok; apply in_arena_true; lia|]. cbv beta.
  eapply exec_bind; [apply NEXT_BLKP_ok; apply in_arena_true; unfold HDRP, WSIZE; lia|].
  cbv beta. unfold HDRP, WSIZE.
  eapply exec_bind; [apply GET_ALLOC_ok; apply in_arena_true; lia|]. cbv beta.
  eapply exec_bind; [apply GET_SIZE_ok; apply in_arena_true; lia|]. cbv beta.
  exact Hr.
Qed.

Lemma alloc_at_cases (s : state) (p : Z) : alloc_at s p = 0 \/ alloc_at s p = 1.
Proof. unfold alloc_at. rewrite land_one. zlia. Qed.

(** Case 1: both neighbours allocated.  Nothing is merged: the block keeps
    its size and is put at the front of its bucket. *)
Lemma coalesce_case1_spec (bp : Z) (s : state) :
  let slot := seg_free s + 8 * find_bucket (size_at s (HDRP bp)) in
  let head := ptr_at s slot in
  between_tags s bp -> insertable s bp ->
  alloc_at s (bp - DSIZE) <> 0 ->
  alloc_at s (HDRP (bp + size_at s (HDRP bp))) <> 0 ->
  exists s',
    coalesce bp s = Ok bp s' /\
    ptr_at s' slot = bp /\ ptr_at s' bp = NULL /\ ptr_at s' (bp + DSIZE) = head /\
    (head <> NULL -> ptr_at s' head = bp) /\
    (forall x,
       (x < slot \/ slot + 8 <= x) -> (x < bp \/ bp + 16 <= x) ->
       (head = NULL \/ x < head \/ head + 8 <= x) ->
       bytes s' x = bytes s x) /\
    same_frame s s'.
Proof.
  intros slot head Hbt Hins Hpa Hna.
  destruct (insertable_spec bp s Hins) as (s' & Hrun & P).
  exists s'. split; [|exact P].
  apply coalesce_reads; [exact Hbt|].
  unfold coalesce_merge.
  destruct (Z.eqb_spec (alloc_at s (bp - DSIZE)) 0) as [|_]; [contradiction|].
  destruct (Z.eqb_spec (alloc_at s (HDRP (bp + size_at s (HDRP bp)))) 0) as [|_];
    [contradiction|].
  cbn [negb andb].
  eapply exec_bind; [reflexivity|]. cbv beta.
  eapply exec_bind; [exact Hrun|]. reflexivity.
Qed.

Lemma after_Ok {A} (c : M A) (s s1 : state) (a : A) : c s = Ok a s1 -> after c s = s1.
Proof. intros H. unfold after. rewrite H. reflexivity. Qed.

(** Case 2: the block in front is allocated, the block behind is free.  The
    block behind is taken off its list, and the two become one free block
    that starts at [bp], has the sum of the sizes in header and footer, and
    is put at the front of the bucket of that sum. *)
Lemma coalesce_case2_spec (bp : Z) (s : state) :
  let size := size_at s (HDRP bp) in
  let nb := bp + size in
  let total := size + size_at s (HDRP nb) in
  let slot := seg_free s + 8 * find_bucket total in
  let head := ptr_at (after (remove_free nb) s) slot in
  between_tags s bp -> listed s nb ->
  alloc_at s (bp - DSIZE) <> 0 -> alloc_at s (HDRP nb) = 0 ->
  seg_free s + 8 * BUCKETS <= HDRP bp ->
  24 <= total < UINT_MOD -> HDRP bp + total <= mem_brk s ->
  (head = NULL \/
   (seg_free s + 8 * BUCKETS <= head /\ head + 8 <= mem_brk s /\
    (head + 8 <= HDRP bp \/ HDRP bp + total <= head))) ->
  exists s',
    coalesce bp s = Ok bp s' /\
    size_at s' (HDRP bp) = total /\ alloc_at s' (HDRP bp) = 0 /\
    size_at s' (bp + total - DSIZE) = total /\ alloc_at s' (bp + total - DSIZE) = 0 /\
    ptr_at s' slot = bp /\ ptr_at s' bp = NULL /\ ptr_at s' (bp + DSIZE) = head /\
    (head <> NULL -> ptr_at s' head = bp) /\
    same_frame s s'.
Proof.
  intros size nb total slot head Hbt Hli Hpa Hna Haft Htot Hend Hhead.
  destruct (remove_free_spec nb s Hli) as (s1 & Hrm & _).
  pose proof (after_Ok _ _ _ _ Hrm) as Hafter.
  pose proof (remove_free_same_frame nb s tt s1 Hrm) as (F1 & F2 & F3 & F4 & F5 & F6).
  destruct Hli as [Hlo Hhi Htab _ _ _ _ _].
  destruct (size_at_range s (HDRP bp)) as [Hsr Hsm]. fold size in Hsr, Hsm.
  destruct (size_at_range s (HDRP nb)) as [Hnr Hnm].
  pose proof (find_bucket_bounds total) as Hb.
  assert (Htotdef : size + size_at s (HDRP nb) = total) by reflexivity.
  assert (Ht8 : total mod 8 = 0) by (rewrite <- Htotdef; zlia).
  assert (Hslotdef : slot = seg_free s + 8 * find_bucket total) by reflexivity.
  assert (Hheaddef : ptr_at s1 slot = head) by (unfold head; rewrite Hafter; reflexivity).
  assert (Hnbdef : bp + size = nb) by reflexivity.
  pose proof (ptr_at_range s1 slot) as Hhr. rewrite Hheaddef in Hhr.
  clearbody head. clearbody slot. clearbody total.
  set (s2 := with_bytes s1 (Mem.wr 4 (bytes s1) (bp - 4) (to_uint (PACK total 0)))).
  set (s3 := with_bytes s2 (Mem.wr 4 (bytes s2) (bp + total - 8) (to_uint (PACK total 0)))).
  unfold HDRP, WSIZE, DSIZE, BUCKETS, NULL in Haft, Hend, Hhead, Hb |- *.
  assert (Hh1 : in_arena s1 (bp - 4) 4 = true) by (apply in_arena_true; lia).
  assert (Hf1 : in_arena s1 (bp + total - 8) 4 = true) by (apply in_arena_true; lia).
  assert (Hsz2 : size_at s2 (bp - 4) = total).
  { apply (size_of_tag s2 (bp - 4) total 0); auto; [lia|].
    unfold tag_at, s2. cbn [bytes with_bytes]. mem_norm. reflexivity. }
  assert (Hsz3 : size_at s3 (bp - 4) = total).
  { apply (size_of_tag s3 (bp - 4) total 0); auto; [lia|].
    unfold tag_at, s3, s2. cbn [bytes with_bytes]. mem_norm. reflexivity. }
  assert (Hhead3 : ptr_at s3 slot = head).
  { rewrite <- Hheaddef. unfold ptr_at, s3, s2. cbn [bytes with_bytes].
    mem_norm. reflexivity. }
  assert (Hins : insertable s3 bp).
  { constructor; unfold HDRP, WSIZE, BUCKETS, NULL; cbn [mem_lo mem_brk seg_free s3 s2 with_bytes];
      try lia.
    cbv zeta. rewrite Hsz3. change (seg_free s3) with (seg_free s1).
    rewrite F5, <- Hslotdef, Hhead3. lia. }
  pose proof (insertable_spec bp s3 Hins) as Hspec. cbv zeta in Hspec.
  unfold HDRP, WSIZE, DSIZE, NULL in Hspec. rewrite Hsz3 in Hspec.
  change (seg_free s3) with (seg_free s1) in Hspec. rewrite F5 in Hspec.
  rewrite <- Hslotdef in Hspec. rewrite Hhead3 in Hspec.
  destruct Hspec as (s' & Hrun & P1 & P2 & P3 & P4 & Pfr & G).
  assert (Hfr : forall p, (p + 4 <= bp \/ bp + 16 <= p) ->
                          bp - 4 <= p -> p + 4 <= bp + total - 4 ->
                          tag_at s' p = tag_at s3 p).
  { intros p Hp1 Hp2 Hp3. apply tag_frame. intros x Hx. apply Pfr; lia. }
  assert (Hhd : tag_at s' (bp - 4) = to_uint (PACK total 0)).
  { rewrite Hfr by lia. unfold tag_at, s3, s2. cbn [bytes with_bytes]. mem_norm.
    reflexivity. }
  assert (Hft : tag_at s' (bp + total - 8) = to_uint (PACK total 0)).
  { rewrite Hfr by lia. unfold tag_at, s3, s2. cbn [bytes with_bytes]. mem_norm.
    reflexivity. }
  destruct (size_of_tag s' (bp - 4) total 0) as [Q1 Q2]; auto; [lia|].
  destruct (size_of_tag s' (bp + total - 8) total 0) as [Q3 Q4]; auto; [lia|].
  exists s'. split.
  { apply coalesce_reads; [exact Hbt|].
    fold size. rewrite Hnbdef. unfold coalesce_merge.
    destruct (Z.eqb_spec (alloc_at s (bp - DSIZE)) 0) as [|_]; [contradiction|].
    rewrite Hna. cbn [negb andb Z.eqb].
    destruct Hbt as [B1 B2 B3 B4 B5]. unfold HDRP, WSIZE, DSIZE in *.
    assert (Hh : in_arena s (bp - 4) 4 = true) by (apply in_arena_true; lia).
    assert (Hnh : in_arena s (nb - 4) 4 = true) by (apply in_arena_true; lia).
    eapply exec_bind.
    { eapply exec_bind; [apply NEXT_BLKP_ok; exact Hh|]. cbv beta.
      unfold HDRP, WSIZE. fold size. rewrite Hnbdef.
      eapply exec_bind; [apply GET_SIZE_ok; exact Hnh|]. cbv beta.
      rewrite Htotdef. rewrite to_size_t_small by szlia.
      eapply exec_bind; [apply NEXT_BLKP_ok; exact Hh|]. cbv beta.
      unfold HDRP, WSIZE. fold size. rewrite Hnbdef.
      eapply exec_bind; [exact Hrm|]. cbv beta.
      eapply exec_bind; [apply PUT_ok; exact Hh1|]. cbv beta. fold s2.
      eapply exec_bind; [apply FTRP_ok; exact Hh1|]. cbv beta.
      unfold HDRP, WSIZE, DSIZE. rewrite Hsz2.
      eapply exec_bind; [apply PUT_ok; exact Hf1|]. cbv beta. fold s3.
      reflexivity. }
    cbv beta. eapply exec_bind; [exact Hrun|]. reflexivity. }
  split; [exact Q1|]. split; [exact Q2|]. split; [exact Q3|]. split; [exact Q4|].
  split; [exact P1|]. split; [exact P2|]. split; [exact P3|]. split; [exact P4|].
  destruct G as (G1 & G2 & G3 & G4 & G5 & G6). cbn [mem_lo mem_brk mem_max heap_listp seg_free out s3 s2 with_bytes] in *.
  unfold same_frame. repeat split; congruence.
Qed.

(** Case 3: the block in front is free, the block behind is allocated.  The
    block in front is taken off its list, and the two become one free block
    that starts where the block in front started. *)
Lemma coalesce_case3_spec (bp : Z) (s : state) :
  let size := size_at s (HDRP bp) in
  let pb := bp - size_at s (bp - DSIZE) in
  let total := size + size_at s (bp - DSIZE) in
  let slot := seg_free s + 8 * find_bucket total in
  let head := ptr_at (after (remove_free pb) s) slot in
  between_tags s bp -> listed s pb ->
  alloc_at s (bp - DSIZE) = 0 -> alloc_at s (HDRP (bp + size)) <> 0 ->
  24 <= size_at s (bp - DSIZE) -> 8 <= size -> total < UINT_MOD ->
  (ptr_at s pb = NULL \/ ptr_at s pb + 16 <= HDRP pb \/ HDRP pb + total <= ptr_at s pb) ->
  (ptr_at s (pb + DSIZE) = NULL \/ ptr_at s (pb + DSIZE) + 16 <= HDRP pb \/
   HDRP pb + total <= ptr_at s (pb + DSIZE)) ->
  (head = NULL \/
   (seg_free s + 8 * BUCKETS <= head /\ head + 8 <= mem_brk s /\
    (head + 8 <= HDRP pb \/ HDRP pb + total <= head))) ->
  exists s',
    coalesce bp s = Ok pb s' /\
    size_at s' (HDRP pb) = total /\ alloc_at s' (HDRP pb) = 0 /\
    size_at s' (pb + total - DSIZE) = total /\ alloc_at s' (pb + total - DSIZE) = 0 /\
    ptr_at s' slot = pb /\ ptr_at s' pb = NULL /\ ptr_at s' (pb + DSIZE) = head /\
    (head <> NULL -> ptr_at s' head = pb) /\
    same_frame s s'.
Proof.
  intros size pb total slot head Hbt Hli Hpa Hna Hpmin Hsmin Htot Hpp Hpn Hhead.
  destruct (remove_free_spec pb s Hli) as (s1 & Hrm & _ & _ & _ & Hfr1 & _).
  pose proof (after_Ok _ _ _ _ Hrm) as Hafter.
  pose proof (remove_free_same_frame pb s tt s1 Hrm) as (F1 & F2 & F3 & F4 & F5 & F6).
  destruct Hli as [Hlo Hhi Htab Haft Hlinks _ _ _].
  destruct (size_at_range s (HDRP bp)) as [Hsr Hsm]. fold size in Hsr, Hsm.
  destruct (size_at_range s (bp - DSIZE)) as [Hpr Hpm].
  pose proof (find_bucket_bounds total) as Hb.
  pose proof (find_bucket_bounds (size_at s (HDRP pb))) as Hbp.
  assert (Htotdef : size + size_at s (bp - DSIZE) = total) by reflexivity.
  assert (Ht8 : total mod 8 = 0) by (rewrite <- Htotdef; zlia).
  assert (Hslotdef : slot = seg_free s + 8 * find_bucket total) by reflexivity.
  assert (Hheaddef : ptr_at s1 slot = head) by (unfold head; rewrite Hafter; reflexivity).
  assert (Hpbdef : bp - size_at s (bp - DSIZE) = pb) by reflexivity.
  assert (Hsizedef : size_at s (HDRP bp) = size) by reflexivity.
  pose proof (ptr_at_range s1 slot) as Hhr. rewrite Hheaddef in Hhr.
  pose proof Hbt as Hbt0.
  destruct Hbt as [B1 B2 B3 B4 B5]. rewrite Hpbdef in B1, B3. rewrite Hsizedef in B5.
  clearbody head. clearbody slot. clearbody total. clearbody pb. clearbody size.
  set (psz := size_at s (bp - DSIZE)) in *.
  assert (Hpszdef : size_at s (bp - DSIZE) = psz) by reflexivity.
  clearbody psz.
  unfold HDRP, WSIZE, DSIZE, BUCKETS, NULL in *.
  (* the removal leaves the two tags between the blocks as they were *)
  assert (Hkeep : forall p, bp - 8 <= p -> p + 4 <= bp -> tag_at s1 p = tag_at s p).
  { intros p Hp1 Hp2. apply tag_frame. intros x Hx. apply Hfr1.
    - right. lia.
    - destruct Hpp as [Hz|Hz]; [left; exact Hz|right; lia].
    - destruct Hpn as [Hz|Hz]; [left; exact Hz|right; lia]. }
  assert (Hsz1 : size_at s1 (bp - 4) = size).
  { unfold size_at. rewrite Hkeep by lia. exact Hsizedef. }
  set (s2 := with_bytes s1 (Mem.wr 4 (bytes s1) (bp + size - 8) (to_uint (PACK total 0)))).
  set (s3 := with_bytes s2 (Mem.wr 4 (bytes s2) (pb - 4) (to_uint (PACK total 0)))).
  assert (Hps2 : size_at s2 (bp - 8) = psz).
  { unfold size_at, tag_at, s2. cbn [bytes with_bytes]. mem_norm.
    rewrite <- Hpszdef. unfold size_at. rewrite <- (Hkeep (bp - 8)) by lia. reflexivity. }
  assert (Hps3 : size_at s3 (bp - 8) = psz).
  { rewrite <- Hps2. unfold size_at, tag_at, s3. cbn [bytes with_bytes]. mem_norm.
    reflexivity. }
  assert (Hh1 : in_arena s1 (bp - 4) 4 = true) by (apply in_arena_true; lia).
  assert (Hf1 : in_arena s1 (bp + size - 8) 4 = true) by (apply in_arena_true; lia).
  assert (Hp2 : in_arena s2 (bp - 8) 4 = true)
    by (apply in_arena_true; cbn [mem_lo mem_brk s2 with_bytes]; lia).
  assert (Hph2 : in_arena s2 (pb - 4) 4 = true)
    by (apply in_arena_true; cbn [mem_lo mem_brk s2 with_bytes]; lia).
  assert (Hp3 : in_arena s3 (bp - 8) 4 = true)
    by (apply in_arena_true; cbn [mem_lo mem_brk s3 s2 with_bytes]; lia).
  assert (Hsz3 : size_at s3 (pb - 4) = total).
  { apply (size_of_tag s3 (pb - 4) total 0); auto; [lia|].
    unfold tag_at, s3. cbn [bytes with_bytes]. mem_norm. reflexivity. }
  assert (Hhead3 : ptr_at s3 slot = head).
  { rewrite <- Hheaddef. unfold ptr_at, s3, s2. cbn [bytes with_bytes].
    mem_norm. reflexivity. }
  assert (Hins : insertable s3 pb).
  { constructor; unfold HDRP, WSIZE, BUCKETS, NULL;
      cbn [mem_lo mem_brk seg_free s3 s2 with_bytes]; try lia.
    cbv zeta. rewrite Hsz3. change (seg_free s3) with (seg_free s1).
    rewrite F5, <- Hslotdef, Hhead3. lia. }
  pose proof (insertable_spec pb s3 Hins) as Hspec. cbv zeta in Hspec.
  unfold HDRP, WSIZE, DSIZE, NULL in Hspec. rewrite Hsz3 in Hspec.
  change (seg_free s3) with (seg_free s1) in Hspec. rewrite F5 in Hspec.
  rewrite <- Hslotdef in Hspec. rewrite Hhead3 in Hspec.
  destruct Hspec as (s' & Hrun & P1 & P2 & P3 & P4 & Pfr & G).
  assert (Hfr : forall p, (p + 4 <= pb \/ pb + 16 <= p) ->
                          pb - 4 <= p -> p + 4 <= pb + total - 4 ->
                          tag_at s' p = tag_at s3 p).
  { intros p Hq1 Hq2 Hq3. apply tag_frame. intros x Hx. apply Pfr; lia. }
  assert (Hhd : tag_at s' (pb - 4) = to_uint (PACK total 0)).
  { rewrite Hfr by lia. unfold tag_at, s3, s2. cbn [bytes with_bytes]. mem_norm.
    reflexivity. }
  assert (Hft : tag_at s' (pb + total - 8) = to_uint (PACK total 0)).
  { rewrite Hfr by lia. unfold tag_at, s3, s2. cbn [bytes with_bytes].
    replace (pb + total - 8) with (bp + size - 8) by lia. mem_norm.
    reflexivity. }
  destruct (size_of_tag s' (pb - 4) total 0) as [Q1 Q2]; auto; [lia|].
  destruct (size_of_tag s' (pb + total - 8) total 0) as [Q3 Q4]; auto; [lia|].
  exists s'. split.
  { apply coalesce_reads; [exact Hbt0|].
    unfold HDRP, WSIZE, DSIZE. rewrite Hsizedef. unfold coalesce_merge.
    rewrite Hpa.
    destruct (Z.eqb_spec (alloc_at s (bp + size - 4)) 0) as [|_]; [contradiction|].
    cbn [negb andb Z.eqb].
    assert (Hp : in_arena s (bp - 8) 4 = true) by (apply in_arena_true; lia).
    assert (Hph : in_arena s (pb - 4) 4 = true) by (apply in_arena_true; lia).
    eapply exec_bind.
    { eapply exec_bind; [apply PREV_BLKP_ok; exact Hp|]. cbv beta.
      unfold HDRP, WSIZE, DSIZE. rewrite Hpszdef. replace (bp - psz) with pb by lia.
      eapply exec_bind; [apply GET_SIZE_ok; exact Hph|]. cbv beta.
      rewrite B3. replace (size + psz) with total by lia.
      rewrite to_size_t_small by szlia.
      eapply exec_bind; [apply PREV_BLKP_ok; exact Hp|]. cbv beta.
      unfold DSIZE. rewrite Hpszdef. replace (bp - psz) with pb by lia.
      eapply exec_bind; [exact Hrm|]. cbv beta.
      eapply exec_bind; [apply FTRP_ok; exact Hh1|]. cbv beta.
      unfold HDRP, WSIZE, DSIZE. rewrite Hsz1.
      eapply exec_bind; [apply PUT_ok; exact Hf1|]. cbv beta. fold s2.
      eapply exec_bind; [apply PREV_BLKP_ok; exact Hp2|]. cbv beta.
      unfold HDRP, WSIZE, DSIZE. rewrite Hps2. replace (bp - psz) with pb by lia.
      eapply exec_bind; [apply PUT_ok; exact Hph2|]. cbv beta. fold s3.
      rewrite (PREV_BLKP_ok bp s3 Hp3). unfold DSIZE. rewrite Hps3.
      replace (bp - psz) with pb by lia. reflexivity. }
    cbv beta. eapply exec_bind; [exact Hrun|]. reflexivity. }
  split; [exact Q1|]. split; [exact Q2|]. split; [exact Q3|]. split; [exact Q4|].
  split; [exact P1|]. split; [exact P2|]. split; [exact P3|]. split; [exact P4|].
  destruct G as (G1 & G2 & G3 & G4 & G5 & G6).
  cbn [mem_lo mem_brk mem_max heap_listp seg_free out s3 s2 with_bytes] in *.
  unfold same_frame. repeat split; congruence.
Qed.

(** The two link words that [remove_free q] may write -- the next link of
    the block before [q] on its list and the previous link of the block
    after it -- lie outside the addresses from [a] up to [b]. *)
Definition links_miss (s : state) (q a b : Z) : Prop :=
  (ptr_at s q = NULL \/ ptr_at s q + 16 <= a \/ b <= ptr_at s q + DSIZE) /\
  (ptr_at s (q + DSIZE) = NULL \/ ptr_at s (q + DSIZE) + 8 <= a \/
   b <= ptr_at s (q + DSIZE)).

(** Case 4: both neighbours are free.  Both are taken off their lists, the
    one in front first, and the three blocks become one free block that
    starts where the block in front started; its size is the sum of the
    three sizes. *)
Lemma coalesce_case4_spec (bp : Z) (s : state) :
  let size := size_at s (HDRP bp) in
  let pb := bp - size_at s (bp - DSIZE) in
  let nb := bp + size in
  let nsz := size_at s (HDRP nb) in
  let total := size + size_at s (bp - DSIZE) + nsz in
  let slot := seg_free s + 8 * find_bucket total in
  let s1 := after (remove_free pb) s in
  let s2 := after (remove_free nb) s1 in
  let head := ptr_at s2 slot in
  between_tags s bp -> listed s pb -> listed s1 nb ->
  alloc_at s (bp - DSIZE) = 0 -> alloc_at s (HDRP nb) = 0 ->
  size_at s (nb + nsz - DSIZE) = nsz ->
  24 <= size_at s (bp - DSIZE) -> 8 <= size -> 24 <= nsz ->
  total < UINT_MOD -> HDRP pb + total <= mem_brk s ->
  links_miss s pb (bp - DSIZE) nb -> links_miss s1 nb (bp - DSIZE) nb ->
  (head = NULL \/
   (seg_free s + 8 * BUCKETS <= head /\ head + 8 <= mem_brk s /\
    (head + 8 <= HDRP pb \/ HDRP pb + total <= head))) ->
  exists s',
    coalesce bp s = Ok pb s' /\
    size_at s' (HDRP pb) = total /\ alloc_at s' (HDRP pb) = 0 /\
    size_at s' (pb + total - DSIZE) = total /\ alloc_at s' (pb + total - DSIZE) = 0 /\
    ptr_at s' slot = pb /\ ptr_at s' pb = NULL /\ ptr_at s' (pb + DSIZE) = head /\
    (head <> NULL -> ptr_at s' head = pb) /\
    same_frame s s'.
Proof.
  intros size pb nb nsz total slot s1 s2 head Hbt Hli Hli1 Hpa Hna Hnf
         Hpmin Hsmin Hnmin Htot Hend Hm Hm1 Hhead.
  destruct (remove_free_spec pb s Hli) as (t1 & Hrm & _ & _ & _ & Hfr1 & _).
  pose proof (after_Ok _ _ _ _ Hrm) as Hafter. fold s1 in Hafter.
  assert (Hs1def : s1 = t1) by exact Hafter.
  assert (Hs2def : s2 = after (remove_free nb) s1) by reflexivity.
  clearbody s2. clearbody s1. subst t1.
  destruct (remove_free_spec nb s1 Hli1) as (t2 & Hrm2 & _ & _ & _ & Hfr2 & _).
  pose proof (after_Ok _ _ _ _ Hrm2) as Hafter2. rewrite <- Hs2def in Hafter2. subst t2.
  clear Hs2def.
  pose proof (remove_free_same_frame pb s tt s1 Hrm) as (F1 & F2 & F3 & F4 & F5 & F6).
  pose proof (remove_free_same_frame nb s1 tt s2 Hrm2) as (E1 & E2 & E3 & E4 & E5 & E6).
  destruct Hli as [Hlo Hhi Htab Haft Hlinks _ _ _]. clear Hli1.
  destruct (size_at_range s (HDRP bp)) as [Hsr Hsm]. fold size in Hsr, Hsm.
  destruct (size_at_range s (bp - DSIZE)) as [Hpr Hpm].
  destruct (size_at_range s (HDRP nb)) as [Hnr Hnm]. fold nsz in Hnr, Hnm.
  pose proof (find_bucket_bounds total) as Hb.
  pose proof (find_bucket_bounds (size_at s (HDRP pb))) as Hbp.
  pose proof (find_bucket_bounds (size_at s1 (HDRP nb))) as Hbn.
  assert (Htotdef : size + size_at s (bp - DSIZE) + nsz = total) by reflexivity.
  assert (Ht8 : total mod 8 = 0) by (rewrite <- Htotdef; zlia).
  assert (Hslotdef : slot = seg_free s + 8 * find_bucket total) by reflexivity.
  assert (Hheaddef : ptr_at s2 slot = head) by reflexivity.
  assert (Hpbdef : bp - size_at s (bp - DSIZE) = pb) by reflexivity.
  assert (Hsizedef : size_at s (HDRP bp) = size) by reflexivity.
  assert (Hnbdef : bp + size = nb) by reflexivity.
  assert (Hnszdef : size_at s (HDRP nb) = nsz) by reflexivity.
  pose proof (ptr_at_range s2 slot) as Hhr. rewrite Hheaddef in Hhr.
  pose proof Hbt as Hbt0.
  destruct Hbt as [B1 B2 B3 B4 B5]. rewrite Hpbdef in B1, B3. rewrite Hsizedef in B5.
  destruct Hm as [Hpp Hpn]. destruct Hm1 as [Hnp Hnn].
  clearbody head. clearbody slot. clearbody total. clearbody pb. clearbody nsz.
  clearbody nb. clearbody size.
  set (psz := size_at s (bp - DSIZE)) in *.
  assert (Hpszdef : size_at s (bp - DSIZE) = psz) by reflexivity.
  clearbody psz.
  unfold HDRP, WSIZE, DSIZE, BUCKETS, NULL in *.
  (* the removals leave the tags around [bp] as they were *)
  assert (Hkeep1 : forall p, bp - 8 <= p -> p + 4 <= nb -> tag_at s1 p = tag_at s p).
  { intros p Hp1 Hp2. apply tag_frame. intros x Hx. apply Hfr1.
    - right. lia.
    - destruct Hpp as [Hz|Hz]; [left; exact Hz|right; lia].
    - destruct Hpn as [Hz|Hz]; [left; exact Hz|right; lia]. }
  assert (Hkeep2 : forall p, bp - 8 <= p -> p + 4 <= nb -> tag_at s2 p = tag_at s p).
  { intros p Hp1 Hp2. rewrite <- Hkeep1 by assumption.
    apply tag_frame. intros x Hx. apply Hfr2.
    - right. lia.
    - destruct Hnp as [Hz|Hz]; [left; exact Hz|right; lia].
    - destruct Hnn as [Hz|Hz]; [left; exact Hz|right; lia]. }
  assert (Hsz1 : size_at s1 (bp - 4) = size).
  { unfold size_at. rewrite Hkeep1 by lia. exact Hsizedef. }
  assert (Hps2 : size_at s2 (bp - 8) = psz).
  { unfold size_at. rewrite Hkeep2 by lia. exact Hpszdef. }
  set (s3 := with_bytes s2 (Mem.wr 4 (bytes s2) (pb - 4) (to_uint (PACK total 0)))).
  set (s4 := with_bytes s3 (Mem.wr 4 (bytes s3) (nb + nsz - 8) (to_uint (PACK total 0)))).
  assert (Hsz3 : size_at s3 (bp - 4) = size).
  { unfold size_at, tag_at, s3. cbn [bytes with_bytes]. mem_norm.
    rewrite <- Hsizedef. unfold size_at. rewrite <- (Hkeep2 (bp - 4)) by lia. reflexivity. }
  assert (Hns3 : size_at s3 (nb - 4) = nsz).
  { unfold size_at, tag_at, s3. cbn [bytes with_bytes]. mem_norm.
    rewrite <- Hnszdef. unfold size_at. rewrite <- (Hkeep2 (nb - 4)) by lia. reflexivity. }
  assert (Hps4 : size_at s4 (bp - 8) = psz).
  { rewrite <- Hps2. unfold size_at, tag_at, s4, s3. cbn [bytes with_bytes]. mem_norm.
    reflexivity. }
  assert (Hin : forall t p, mem_lo t = mem_lo s -> mem_brk t = mem_brk s ->
                 pb - 4 <= p -> p + 4 <= pb - 4 + total -> in_arena t p 4 = true).
  { intros t p L1 L2 Hp1 Hp2. apply in_arena_true; lia. }
  assert (L3 : mem_lo s2 = mem_lo s) by congruence.
  assert (L4 : mem_brk s2 = mem_brk s) by congruence.
  assert (Hsz4 : size_at s4 (pb - 4) = total).
  { apply (size_of_tag s4 (pb - 4) total 0); auto; [lia|].
    unfold tag_at, s4, s3. cbn [bytes with_bytes]. mem_norm. reflexivity. }
  assert (Hhead4 : ptr_at s4 slot = head).
  { rewrite <- Hheaddef. unfold ptr_at, s4, s3. cbn [bytes with_bytes].
    mem_norm. reflexivity. }
  assert (Hins : insertable s4 pb).
  { constructor; unfold HDRP, WSIZE, BUCKETS, NULL;
      cbn [mem_lo mem_brk seg_free s4 s3 with_bytes]; try lia.
    cbv zeta. rewrite Hsz4. change (seg_free s4) with (seg_free s2).
    rewrite E5, F5, <- Hslotdef, Hhead4. lia. }
  pose proof (insertable_spec pb s4 Hins) as Hspec. cbv zeta in Hspec.
  unfold HDRP, WSIZE, DSIZE, NULL in Hspec. rewrite Hsz4 in Hspec.
  change (seg_free s4) with (seg_free s2) in Hspec. rewrite E5, F5 in Hspec.
  rewrite <- Hslotdef in Hspec. rewrite Hhead4 in Hspec.
  destruct Hspec as (s' & Hrun & P1 & P2 & P3 & P4 & Pfr & G).
  assert (Hfr : forall p, (p + 4 <= pb \/ pb + 16 <= p) ->
                          pb - 4 <= p -> p + 4 <= pb + total - 4 ->
                          tag_at s' p = tag_at s4 p).
  { intros p Hq1 Hq2 Hq3. apply tag_frame. intros x Hx. apply Pfr; lia. }
  assert (Hhd : tag_at s' (pb - 4) = to_uint (PACK total 0)).
  { rewrite Hfr by lia. unfold tag_at, s4, s3. cbn [bytes with_bytes]. mem_norm.
    reflexivity. }
  assert (Hft : tag_at s' (pb + total - 8) = to_uint (PACK total 0)).
  { rewrite Hfr by lia. unfold tag_at, s4, s3. cbn [bytes with_bytes].
    replace (pb + total - 8) with (nb + nsz - 8) by lia. mem_norm.
    reflexivity. }
  destruct (size_of_tag s' (pb - 4) total 0) as [Q1 Q2]; auto; [lia|].
  destruct (size_of_tag s' (pb + total - 8) total 0) as [Q3 Q4]; auto; [lia|].
  exists s'. split.
  { apply coalesce_reads; [exact Hbt0|].
    unfold HDRP, WSIZE, DSIZE. rewrite Hsizedef, Hnbdef. unfold coalesce_merge.
    rewrite Hpa, Hna. cbn [negb andb Z.eqb].
    eapply exec_bind.
    { eapply exec_bind; [apply PREV_BLKP_ok; apply Hin; unfold DSIZE; lia|]. cbv beta.
      unfold HDRP, WSIZE, DSIZE. rewrite Hpszdef. replace (bp - psz) with pb by lia.
      eapply exec_bind; [apply GET_SIZE_ok; apply Hin; lia|]. cbv beta. rewrite B3.
      eapply exec_bind; [apply NEXT_BLKP_ok; apply Hin; unfold HDRP, WSIZE; lia|].
      cbv beta. unfold HDRP, WSIZE. rewrite Hsizedef, Hnbdef.
      eapply exec_bind; [apply FTRP_ok; apply Hin; unfold HDRP, WSIZE; lia|].
      cbv beta. unfold HDRP, WSIZE, DSIZE. rewrite Hnszdef.
      eapply exec_bind; [apply GET_SIZE_ok; apply Hin; lia|]. cbv beta. rewrite Hnf.
      replace (to_size_t (size + to_uint (psz + nsz))) with total
        by (unfold to_size_t, to_uint, UINT_MOD, SIZE_MOD in *;
            rewrite (Z.mod_small (psz + nsz)) by lia; rewrite Z.mod_small by lia; lia).
      eapply exec_bind; [apply PREV_BLKP_ok; apply Hin; unfold DSIZE; lia|]. cbv beta.
      unfold DSIZE. rewrite Hpszdef. replace (bp - psz) with pb by lia.
      eapply exec_bind; [exact Hrm|]. cbv beta.
      eapply exec_bind; [apply NEXT_BLKP_ok; apply Hin; unfold HDRP, WSIZE; lia|].
      cbv beta. unfold HDRP, WSIZE. rewrite Hsz1, Hnbdef.
      eapply exec_bind; [exact Hrm2|]. cbv beta.
      eapply exec_bind; [apply PREV_BLKP_ok; apply Hin; unfold DSIZE; lia|]. cbv beta.
      unfold DSIZE. rewrite Hps2. replace (bp - psz) with pb by lia.
      eapply exec_bind; [apply PUT_ok; apply Hin; lia|]. cbv beta. fold s3.
      eapply exec_bind;
        [apply NEXT_BLKP_ok; apply Hin; unfold HDRP, WSIZE;
         cbn [mem_lo mem_brk s3 with_bytes]; lia|].
      cbv beta. unfold HDRP, WSIZE. rewrite Hsz3, Hnbdef.
      eapply exec_bind;
        [apply FTRP_ok; apply Hin; unfold HDRP, WSIZE;
         cbn [mem_lo mem_brk s3 with_bytes]; lia|].
      cbv beta. unfold HDRP, WSIZE, DSIZE. rewrite Hns3.
      eapply exec_bind;
        [apply PUT_ok; apply Hin; cbn [mem_lo mem_brk s3 with_bytes]; lia|].
      cbv beta. fold s4.
      rewrite (PREV_BLKP_ok bp s4)
        by (apply Hin; unfold DSIZE; cbn [mem_lo mem_brk s4 s3 with_bytes]; lia).
      unfold DSIZE. rewrite Hps4.
      replace (bp - psz) with pb by lia. reflexivity. }
    cbv beta. eapply exec_bind; [exact Hrun|]. reflexivity. }
  split; [exact Q1|]. split; [exact Q2|]. split; [exact Q3|]. split; [exact Q4|].
  split; [exact P1|]. split; [exact P2|]. split; [exact P3|]. split; [exact P4|].
  destruct G as (G1 & G2 & G3 & G4 & G5 & G6).
  cbn [mem_lo mem_brk mem_max heap_listp seg_free out s4 s3 with_bytes] in *.
  unfold same_frame. repeat split; congruence.
Qed.

(** ** extend_heap *)

(** [extend_heap] when the host has room and the last block of the heap is
    allocated: the arena grows by the request rounded up to an even number
    of words, the old epilogue header becomes the header of a new free block
    of that size, a new epilogue header ends the arena, and the new block is
    at the front of its bucket.  The block starts at the old end of the
    arena, and that is what is returned. *)
Lemma extend_heap_spec (words : Z) (s : state) :
  let size := WSIZE * (words + words mod 2) in
  let bp := mem_brk s in
  let psz := size_at s (bp - DSIZE) in
  let slot := seg_free s + 8 * find_bucket size in
  let head := ptr_at s slot in
  sane_arena s -> mem_lo s <= seg_free s -> seg_free s + 8 * BUCKETS <= HDRP bp ->
  24 <= size < UINT_MOD -> bp + size <= mem_max s ->
  8 <= psz -> mem_lo s <= HDRP (bp - psz) -> size_at s (HDRP (bp - psz)) = psz ->
  alloc_at s (bp - DSIZE) <> 0 ->
  (head = NULL \/ (seg_free s + 8 * BUCKETS <= head /\ head + 8 <= HDRP bp)) ->
  exists s',
    extend_heap words s = Ok bp s' /\
    mem_brk s' = bp + size /\
    size_at s' (HDRP bp) = size /\ alloc_at s' (HDRP bp) = 0 /\
    size_at s' (bp + size - DSIZE) = size /\ alloc_at s' (bp + size - DSIZE) = 0 /\
    size_at s' (HDRP (bp + size)) = 0 /\ alloc_at s' (HDRP (bp + size)) = 1 /\
    ptr_at s' slot = bp /\ ptr_at s' bp = NULL /\ ptr_at s' (bp + DSIZE) = head /\
    (head <> NULL -> ptr_at s' head = bp) /\
    (forall x, x < HDRP bp -> (x < slot \/ slot + 8 <= x) ->
               (head = NULL \/ x < head \/ head + 8 <= x) -> bytes s' x = bytes s x) /\
    mem_lo s' = mem_lo s /\ mem_max s' = mem_max s /\
    heap_listp s' = heap_listp s /\ seg_free s' = seg_free s /\ out s' = out s.
Proof.
  intros size bp psz slot head [Hlo Hmax] Htab Haft Hsize Hroom Hpmin Hplo Hpag Hpa Hhead.
  assert (Hsz8 : size mod 8 = 0).
  { unfold size, WSIZE. zlia. }
  assert (Hsizedef :
            (if negb (words mod 2 =? 0) then to_size_t ((words + 1) * WSIZE)
             else to_size_t (words * WSIZE)) = size).
  { assert (Hs : 0 <= size < SIZE_MOD) by szlia.
    unfold size, WSIZE in *.
    destruct (Z.eqb_spec (words mod 2) 0) as [E|E]; cbn [negb].
    - rewrite E in *. rewrite Z.add_0_r in *. rewrite <- (to_size_t_small (4 * words)) by lia.
      f_equal. lia.
    - assert (E1 : words mod 2 = 1) by zlia. rewrite E1 in *.
      rewrite <- (to_size_t_small (4 * (words + 1))) by lia. f_equal. lia. }
  pose proof (find_bucket_bounds size) as Hb.
  destruct (size_at_range s (bp - DSIZE)) as [Hpr Hpm]. fold psz in Hpr, Hpm.
  assert (Hslotdef : slot = seg_free s + 8 * find_bucket size) by reflexivity.
  assert (Hheaddef : ptr_at s slot = head) by reflexivity.
  assert (Hpszdef : size_at s (bp - DSIZE) = psz) by reflexivity.
  assert (Hbpdef : mem_brk s = bp) by reflexivity.
  pose proof (ptr_at_range s slot) as Hhr. rewrite Hheaddef in Hhr.
  clearbody head. clearbody slot. clearbody psz. clearbody bp. clearbody size.
  unfold HDRP, WSIZE, DSIZE, BUCKETS, NULL, MINUS_ONE_PTR in *.
  set (s1 := with_brk s (bp + size)).
  set (s2 := with_bytes s1 (Mem.wr 4 (bytes s1) (bp - 4) (to_uint (PACK size 0)))).
  set (s3 := with_bytes s2 (Mem.wr 4 (bytes s2) (bp + size - 8) (to_uint (PACK size 0)))).
  set (s4 := with_bytes s3 (Mem.wr 4 (bytes s3) (bp + size - 4) (to_uint (PACK 0 1)))).
  assert (Hsz2 : size_at s2 (bp - 4) = size).
  { apply (size_of_tag s2 (bp - 4) size 0); auto; [lia|].
    unfold tag_at, s2. cbn [bytes with_bytes]. mem_norm. reflexivity. }
  assert (Hsz3 : size_at s3 (bp - 4) = size).
  { apply (size_of_tag s3 (bp - 4) size 0); auto; [lia|].
    unfold tag_at, s3, s2. cbn [bytes with_bytes]. mem_norm. reflexivity. }
  assert (Ht4h : tag_at s4 (bp - 4) = to_uint (PACK size 0)).
  { unfold tag_at, s4, s3, s2. cbn [bytes with_bytes]. mem_norm. reflexivity. }
  assert (Ht4f : tag_at s4 (bp + size - 8) = to_uint (PACK size 0)).
  { unfold tag_at, s4, s3, s2. cbn [bytes with_bytes]. mem_norm. reflexivity. }
  assert (Ht4e : tag_at s4 (bp + size - 4) = to_uint (PACK 0 1)).
  { unfold tag_at, s4, s3, s2. cbn [bytes with_bytes]. mem_norm. reflexivity. }
  assert (Hold : forall p, p + 4 <= bp - 4 -> tag_at s4 p = tag_at s p).
  { intros p Hp. unfold tag_at, s4, s3, s2, s1. cbn [bytes with_bytes with_brk]. mem_norm.
    reflexivity. }
  destruct (size_of_tag s4 (bp - 4) size 0) as [Q1 _]; auto; [lia|].
  destruct (size_of_tag s4 (bp + size - 4) 0 1 eq_refl ltac:(unfold UINT_MOD; lia)
              (or_intror eq_refl) Ht4e) as [_ Q6].
  assert (Hhead4 : ptr_at s4 slot = head).
  { rewrite <- Hheaddef. unfold ptr_at, s4, s3, s2, s1. cbn [bytes with_bytes with_brk].
    mem_norm. reflexivity. }
  assert (Hps4 : size_at s4 (bp - 8) = psz).
  { unfold size_at. rewrite Hold by lia. exact Hpszdef. }
  assert (Hbt : between_tags s4 bp).
  { constructor; unfold HDRP, WSIZE, DSIZE; rewrite ?Hps4, ?Q1;
      cbn [mem_lo mem_brk s4 s3 s2 s1 with_bytes with_brk]; try lia.
    unfold size_at. rewrite Hold by lia. exact Hpag. }
  assert (Hins : insertable s4 bp).
  { constructor; unfold HDRP, WSIZE, BUCKETS, NULL;
      cbn [mem_lo mem_brk seg_free s4 s3 s2 s1 with_bytes with_brk]; try szlia.
    cbv zeta. unfold HDRP, WSIZE. rewrite Q1.
    change (seg_free s4) with (seg_free s). rewrite <- Hslotdef, Hhead4.
    cbn [mem_lo mem_brk seg_free s4 s3 s2 s1 with_bytes with_brk]. lia. }
  pose proof (coalesce_case1_spec bp s4 Hbt Hins) as Hspec. cbv zeta in Hspec.
  unfold HDRP, WSIZE, DSIZE, NULL in Hspec. rewrite Q1 in Hspec.
  change (seg_free s4) with (seg_free s) in Hspec.
  rewrite <- Hslotdef in Hspec. rewrite Hhead4 in Hspec.
  destruct Hspec as (s' & Hrun & P1 & P2 & P3 & P4 & Pfr & G).
  { unfold alloc_at. rewrite Hold by lia. exact Hpa. }
  { rewrite Q6. lia. }
  assert (Hfr : forall p, (p + 4 <= bp \/ bp + 16 <= p) ->
                          bp - 4 <= p -> p + 4 <= bp + size ->
                          tag_at s' p = tag_at s4 p).
  { intros p Hq1 Hq2 Hq3. apply tag_frame. intros x Hx. apply Pfr; lia. }
  destruct (size_of_tag s' (bp - 4) size 0) as [R1 R2]; auto; [lia|rewrite Hfr by lia; exact Ht4h|].
  destruct (size_of_tag s' (bp + size - 8) size 0) as [R3 R4]; auto;
    [lia|rewrite Hfr by lia; exact Ht4f|].
  assert (Hte : tag_at s' (bp + size - 4) = to_uint (PACK 0 1))
    by (rewrite Hfr by lia; exact Ht4e).
  destruct (size_of_tag s' (bp + size - 4) 0 1 eq_refl ltac:(unfold UINT_MOD; lia)
              (or_intror eq_refl) Hte) as [R5 R6].
  destruct G as (G1 & G2 & G3 & G4 & G5 & G6).
  cbn [mem_lo mem_brk mem_max heap_listp seg_free out s4 s3 s2 s1 with_bytes with_brk] in *.
  exists s'. split.
  { unfold extend_heap. cbv zeta. unfold WSIZE, MINUS_ONE_PTR. rewrite !Hsizedef.
    eapply exec_bind.
    { unfold mem_sbrk. rewrite Hbpdef.
      destruct (Z.leb_spec 0 size) as [_|]; [|lia].
      destruct (Z.leb_spec (bp + size) (mem_max s)) as [_|]; [|lia].
      cbn [andb]. reflexivity. }
    cbv beta. fold s1.
    destruct (Z.eqb_spec bp (SIZE_MOD - 1)) as [|_]; [lia|].
    unfold HDRP, WSIZE.
    eapply exec_bind;
      [apply PUT_ok; apply in_arena_true; cbn [mem_lo mem_brk s1 with_brk]; lia|].
    cbv beta. fold s2.
    eapply exec_bind;
      [apply FTRP_ok; apply in_arena_true; unfold HDRP, WSIZE;
       cbn [mem_lo mem_brk s2 s1 with_brk with_bytes]; lia|].
    cbv beta. unfold HDRP, WSIZE, DSIZE. rewrite Hsz2.
    eapply exec_bind;
      [apply PUT_ok; apply in_arena_true; cbn [mem_lo mem_brk s2 s1 with_brk with_bytes]; lia|].
    cbv beta. fold s3.
    eapply exec_bind;
      [apply NEXT_BLKP_ok; apply in_arena_true; unfold HDRP, WSIZE;
       cbn [mem_lo mem_brk s3 s2 s1 with_brk with_bytes]; lia|].
    cbv beta. unfold HDRP, WSIZE. rewrite Hsz3.
    eapply exec_bind;
      [apply PUT_ok; apply in_arena_true;
       cbn [mem_lo mem_brk s3 s2 s1 with_brk with_bytes]; lia|].
    cbv beta. fold s4. exact Hrun. }
  split; [exact G2|].
  split; [exact R1|]. split; [exact R2|]. split; [exact R3|]. split; [exact R4|].
  split; [exact R5|]. split; [exact R6|].
  split; [exact P1|]. split; [exact P2|]. split; [exact P3|]. split; [exact P4|].
  split.
  { intros x Hx1 Hx2 Hx3. rewrite Pfr by lia.
    unfold s4, s3, s2, s1. cbn [bytes with_bytes with_brk]. mem_norm. reflexivity. }
  repeat split; assumption.
Qed.

(** ** mm_init *)

Lemma ptr_frame (s s' : state) (p : Z) :
  (forall x, p <= x < p + 8 -> bytes s' x = bytes s x) -> ptr_at s' p = ptr_at s p.
Proof.
  intros H. unfold ptr_at. apply MemFacts.rd_ext. intros x Hx.
  unfold Mem.byte_at. rewrite H by (cbn in Hx; lia). reflexivity.
Qed.

(** The loop of [mm_init] over the bucket table: [n] slots from index [i] on
    are set to null, and nothing else is written. *)
Lemma clear_buckets_spec (n : nat) : forall (i : Z) (s : state),
  mem_lo s <= seg_free s + 8 * i -> seg_free s + 8 * (i + Z.of_nat n) <= mem_brk s ->
  exists s',
    clear_buckets n i s = Ok tt s' /\ same_frame s s' /\
    (forall j, i <= j < i + Z.of_nat n -> ptr_at s' (seg_free s + 8 * j) = NULL) /\
    (forall x, x < seg_free s + 8 * i \/ seg_free s + 8 * (i + Z.of_nat n) <= x ->
               bytes s' x = bytes s x).
Proof.
  induction n as [|n IH]; intros i s Hlo Hhi.
  - exists s. split; [reflexivity|]. split; [apply same_frame_refl|].
    split; [intros j Hj; lia|intros x _; reflexivity].
  - rewrite Nat2Z.inj_succ in *.
    set (s1 := with_bytes s (Mem.wr 8 (bytes s) (seg_free s + 8 * i) (to_size_t NULL))).
    destruct (IH (i + 1) s1) as (s' & Hrun & F & Pz & Pfr).
    { cbn [mem_lo seg_free s1 with_bytes]. lia. }
    { cbn [mem_brk seg_free s1 with_bytes]. lia. }
    cbn [seg_free s1 with_bytes] in Pz, Pfr.
    exists s'. split.
    { cbn [clear_buckets].
      eapply exec_bind; [apply set_bucket_ok; apply in_arena_true; lia|]. cbv beta.
      fold s1. exact Hrun. }
    split; [eapply same_frame_trans; [apply (same_frame_with_bytes s)|exact F]|].
    split.
    + intros j Hj. destruct (Z.eq_dec j i) as [->|Hne].
      * rewrite (ptr_frame s1 s') by (intros x Hx; apply Pfr; lia).
        unfold ptr_at, s1. cbn [bytes with_bytes]. apply rd8_wr8_same.
        unfold to_size_t, NULL, SIZE_MOD. cbn. lia.
      * apply Pz. lia.
    + intros x Hx. rewrite Pfr by lia. unfold s1. cbn [bytes with_bytes].
      apply wr8_other. lia.
Qed.

(** [mm_init] on an arena with room for the table and the first chunk, 280
    bytes: it succeeds; the bucket table is at the old end [p] of the arena,
    after it come a padding word, the prologue header and footer, one free
    block of 168 bytes and the epilogue header; the free block is the only
    entry of the table, in bucket 3; [heap_listp] is left on the prologue
    footer.  Nothing below [p] is written. *)
Lemma mm_init_spec (s : state) :
  let p := mem_brk s in
  sane_arena s -> mem_lo s <= p -> p + 280 <= mem_max s ->
  exists s',
    mm_init s = Ok 0 s' /\
    seg_free s' = p /\ heap_listp s' = p + 104 /\ mem_brk s' = p + 280 /\
    mem_lo s' = mem_lo s /\ mem_max s' = mem_max s /\ out s' = out s /\
    (forall i, 0 <= i < BUCKETS -> i <> 3 -> ptr_at s' (p + 8 * i) = NULL) /\
    ptr_at s' (p + 8 * 3) = p + 112 /\
    size_at s' (p + 100) = 8 /\ alloc_at s' (p + 100) = 1 /\
    size_at s' (p + 104) = 8 /\ alloc_at s' (p + 104) = 1 /\
    size_at s' (p + 108) = 168 /\ alloc_at s' (p + 108) = 0 /\
    size_at s' (p + 272) = 168 /\ alloc_at s' (p + 272) = 0 /\
    size_at s' (p + 276) = 0 /\ alloc_at s' (p + 276) = 1 /\
    ptr_at s' (p + 112) = NULL /\ ptr_at s' (p + 120) = NULL /\
    (forall x, x < p -> bytes s' x = bytes s x).
Proof.
  intros p [Hlo Hmax] Hp Hroom.
  assert (Hpdef : mem_brk s = p) by reflexivity. clearbody p.
  unfold MINUS_ONE_PTR, SIZE_MOD in Hmax.
  set (s3 := with_seg_free (with_heap_listp (with_brk s (p + 112)) p) p).
  destruct (clear_buckets_spec 12 0 s3) as (s4 & Hclr & F4 & Pz & Pfr4).
  { cbn [mem_lo seg_free s3 with_seg_free with_heap_listp with_brk]. lia. }
  { cbn [mem_brk seg_free s3 with_seg_free with_heap_listp with_brk]. lia. }
  cbn [seg_free s3 with_seg_free with_heap_listp with_brk] in Pz, Pfr4.
  destruct F4 as (F1 & F2 & F3 & _ & F5 & F6).
  cbn [mem_lo mem_brk mem_max seg_free out s3 with_seg_free with_heap_listp with_brk]
    in F1, F2, F3, F5, F6.
  set (s5 := with_heap_listp s4 (p + 96)).
  set (s6 := with_bytes s5 (Mem.wr 4 (bytes s5) (p + 96) (to_uint 0))).
  set (s7 := with_bytes s6 (Mem.wr 4 (bytes s6) (p + 100) (to_uint (PACK 8 1)))).
  set (s8 := with_bytes s7 (Mem.wr 4 (bytes s7) (p + 104) (to_uint (PACK 8 1)))).
  set (s9 := with_bytes s8 (Mem.wr 4 (bytes s8) (p + 108) (to_uint (PACK 0 1)))).
  set (s10 := with_heap_listp s9 (p + 104)).
  assert (L1 : mem_lo s10 = mem_lo s) by exact F1.
  assert (L2 : mem_brk s10 = p + 112) by exact F2.
  assert (L3 : mem_max s10 = mem_max s) by exact F3.
  assert (L5 : seg_free s10 = p) by exact F5.
  assert (L6 : out s10 = out s) by exact F6.
  assert (Hbytes10 : bytes s10 = Mem.wr 4 (Mem.wr 4 (Mem.wr 4 (Mem.wr 4 (bytes s4)
             (p + 96) (to_uint 0)) (p + 100) (to_uint (PACK 8 1)))
             (p + 104) (to_uint (PACK 8 1))) (p + 108) (to_uint (PACK 0 1)))
    by reflexivity.
  assert (Hpf : tag_at s10 (p + 104) = to_uint (PACK 8 1)).
  { unfold tag_at. rewrite Hbytes10. mem_norm. reflexivity. }
  assert (Hph : tag_at s10 (p + 100) = to_uint (PACK 8 1)).
  { unfold tag_at. rewrite Hbytes10. mem_norm. reflexivity. }
  destruct (size_of_tag s10 (p + 104) 8 1 eq_refl ltac:(unfold UINT_MOD; lia)
              (or_intror eq_refl) Hpf) as [A1 A2].
  destruct (size_of_tag s10 (p + 100) 8 1 eq_refl ltac:(unfold UINT_MOD; lia)
              (or_intror eq_refl) Hph) as [A3 A4].
  assert (Hslots : forall j, 0 <= j < 12 -> ptr_at s10 (p + 8 * j) = NULL).
  { intros j Hj. rewrite <- (Pz j) by lia. unfold ptr_at. rewrite Hbytes10. mem_norm.
    reflexivity. }
  assert (Hfb : find_bucket 168 = 3) by reflexivity.
  pose proof (extend_heap_spec 42 s10) as Hspec. cbv zeta in Hspec.
  change (WSIZE * (42 + 42 mod 2)) with 168 in Hspec.
  rewrite L1, L2, L3, L5, L6, Hfb in Hspec. unfold HDRP, WSIZE, DSIZE, BUCKETS, NULL in Hspec.
  replace (p + 112 - 8) with (p + 104) in Hspec by lia.
  rewrite A1 in Hspec.
  replace (p + 112 - 8 - 4) with (p + 100) in Hspec by lia.
  rewrite (Hslots 3) in Hspec by lia.
  destruct Hspec as (s' & Hrun & G2 & R1 & R2 & R3 & R4 & R5 & R6 & P1 & P2 & P3 & _ &
                     Pfr & G1 & G3 & G4 & G5 & G6).
  { split; [lia|]. unfold MINUS_ONE_PTR, SIZE_MOD. lia. }
  { lia. }
  { lia. }
  { unfold UINT_MOD. lia. }
  { lia. }
  { lia. }
  { lia. }
  { exact A3. }
  { rewrite A2. lia. }
  { left. reflexivity. }
  assert (Hkeep : forall q, p + 96 <= q -> q + 4 <= p + 108 -> tag_at s' q = tag_at s10 q).
  { intros q Hq0 Hq. apply tag_frame. intros x Hx. apply Pfr; [lia| |left; reflexivity].
    lia. }
  exists s'. split.
  { unfold mm_init.
    change (4 * WSIZE + BUCKETS * DSIZE) with 112. change (BUCKETS * DSIZE) with 96.
    change (Z.to_nat BUCKETS) with 12%nat. change (CHUNKSIZE / WSIZE) with 42.
    change (1 * WSIZE) with 4. change (2 * WSIZE) with 8. change (3 * WSIZE) with 12.
    change DSIZE with 8.
    eapply exec_bind.
    { unfold mem_sbrk. rewrite Hpdef.
      destruct (Z.leb_spec (p + 112) (mem_max s)) as [_|]; [|lia]. reflexivity. }
    cbv beta. eapply exec_bind; [reflexivity|]. cbv beta.
    destruct (Z.eqb_spec p MINUS_ONE_PTR) as [E|_];
      [unfold MINUS_ONE_PTR, SIZE_MOD in E; lia|].
    eapply exec_bind; [reflexivity|]. cbv beta.
    eapply exec_bind; [exact Hclr|]. cbv beta.
    eapply exec_bind; [reflexivity|]. cbv beta.
    eapply exec_bind; [reflexivity|]. cbv beta.
    change (heap_listp (with_heap_listp s4 (p + 96))) with (p + 96). fold s5.
    eapply exec_bind;
      [apply PUT_ok; apply in_arena_true; cbn [mem_lo mem_brk s5 with_heap_listp]; lia|].
    cbv beta. fold s6. replace (p + 96 + 4) with (p + 100) by lia.
    eapply exec_bind;
      [apply PUT_ok; apply in_arena_true;
       cbn [mem_lo mem_brk s6 s5 with_heap_listp with_bytes]; lia|].
    cbv beta. fold s7. replace (p + 96 + 8) with (p + 104) by lia.
    eapply exec_bind;
      [apply PUT_ok; apply in_arena_true;
       cbn [mem_lo mem_brk s7 s6 s5 with_heap_listp with_bytes]; lia|].
    cbv beta. fold s8. replace (p + 96 + 12) with (p + 108) by lia.
    eapply exec_bind;
      [apply PUT_ok; apply in_arena_true;
       cbn [mem_lo mem_brk s8 s7 s6 s5 with_heap_listp with_bytes]; lia|].
    cbv beta. fold s9.
    eapply exec_bind; [reflexivity|]. cbv beta. fold s10.
    eapply exec_bind; [exact Hrun|]. cbv beta.
    destruct (Z.eqb_spec (p + 112) NULL) as [E|_]; [unfold NULL in E; lia|].
    reflexivity. }
  split; [exact G5|]. split; [exact G4|]. split; [rewrite G2; lia|].
  split; [exact G1|]. split; [exact G3|]. split; [exact G6|].
  split.
  { intros i Hi Hne. rewrite (ptr_frame s10 s'); [apply Hslots; unfold BUCKETS in Hi; lia|].
    intros x Hx. apply Pfr; [unfold BUCKETS in Hi; lia| |left; reflexivity].
    lia. }
  split; [exact P1|].
  split; [unfold size_at; rewrite Hkeep by lia; exact A3|].
  split; [unfold alloc_at; rewrite Hkeep by lia; exact A4|].
  split; [unfold size_at; rewrite Hkeep by lia; exact A1|].
  split; [unfold alloc_at; rewrite Hkeep by lia; exact A2|].
  replace (p + 112 - 4) with (p + 108) in R1, R2 by lia.
  replace (p + 112 + 168 - 8) with (p + 272) in R3, R4 by lia.
  replace (p + 112 + 168 - 4) with (p + 276) in R5, R6 by lia.
  replace (p + 112 + 8) with (p + 120) in P3 by lia.
  split; [exact R1|]. split; [exact R2|]. split; [exact R3|]. split; [exact R4|].
  split; [exact R5|]. split; [exact R6|]. split; [exact P2|]. split; [exact P3|].
  intros x Hx. rewrite Pfr; [|lia|lia|left; reflexivity].
  rewrite Hbytes10. mem_norm. rewrite Pfr4 by lia. reflexivity.
Qed.

(** [mm_init] when the host cannot even give room for the bucket table: it
    returns -1, and the only thing it has changed is [heap_listp], which now
    holds the failure value [(void * )-1] of [mem_sbrk]. *)
Lemma mm_init_no_room (s : state) :
  0 <= mem_brk s < MINUS_ONE_PTR -> mem_max s < mem_brk s + 112 ->
  mm_init s = Ok (-1) (with_heap_listp s MINUS_ONE_PTR).
Proof.
  intros Hbrk Hroom. unfold mm_init.
  change (4 * WSIZE + BUCKETS * DSIZE) with 112.
  eapply exec_bind.
  { unfold mem_sbrk.
    destruct (Z.leb_spec (mem_brk s + 112) (mem_max s)) as [|_]; [lia|]. reflexivity. }
  cbv beta. eapply exec_bind; [reflexivity|]. cbv beta.
  rewrite Z.eqb_refl. reflexivity.
Qed.

(** A failed [mm_init] is not repeated: [heap_listp] is no longer null, so
    the next [malloc] skips the initialisation and reads the bucket table
    through the [seg_free] pointer that was never set. *)
Lemma malloc_after_failed_init (fuel : nat) (size : Z) (s : state) :
  0 <= mem_brk s < MINUS_ONE_PTR -> mem_max s < mem_brk s + 112 ->
  seg_free s = NULL -> 8 * BUCKETS <= mem_lo s -> size <> 0 ->
  exists s1, mm_init s = Ok (-1) s1 /\ malloc fuel size s1 = Fault s1.
Proof.
  intros Hbrk Hroom Hseg Hlo Hsize.
  exists (with_heap_listp s MINUS_ONE_PTR). split; [apply mm_init_no_room; assumption|].
  set (s1 := with_heap_listp s MINUS_ONE_PTR).
  unfold malloc. rewrite (bind_Ok _ _ _ _ _ (lazy_init_done s1 ltac:(discriminate))).
  destruct (Z.eqb_spec size 0) as [|_]; [contradiction|].
  unfold find_fit. rewrite find_bucket_int_cast.
  pose proof (find_bucket_bounds (adjust_size size)) as Hb.
  set (b := find_bucket (adjust_size size)) in *.
  destruct (Z.to_nat (BUCKETS - b)) as [|n] eqn:Hn; [unfold BUCKETS in Hn; lia|].
  cbn [find_fit_buckets].
  assert (Hget : get_bucket b s1 = Fault s1).
  { unfold get_bucket, seg_slot, get_state, bind, ret, load_ptr, load, in_arena.
    cbn [seg_free mem_lo s1 with_heap_listp]. rewrite Hseg. unfold NULL, BUCKETS in *.
    destruct (Z.leb_spec (mem_lo s) (0 + 8 * b)) as [|_]; [lia|]. reflexivity. }
  unfold bind at 1. unfold bind at 1. unfold bind at 1. rewrite Hget. reflexivity.
Qed.

(** ** What no call of the allocator does to the arena *)

(** The arena keeps its base, its limit and the output; its end does not
    move back, and stays below the limit if it was. *)
Definition arena_grows (s s' : state) : Prop :=
  mem_lo s' = mem_lo s /\ mem_max s' = mem_max s /\ out s' = out s /\
  mem_brk s <= mem_brk s' /\ (mem_brk s <= mem_max s -> mem_brk s' <= mem_max s').

(** The same, and the two static pointers of mm.c are as they were. *)
Definition settled (s s' : state) : Prop :=
  arena_grows s s' /\ heap_listp s' = heap_listp s /\ seg_free s' = seg_free s.

Lemma arena_grows_refl (s : state) : arena_grows s s.
Proof. unfold arena_grows. repeat split; auto; lia. Qed.

Lemma arena_grows_trans (s1 s2 s3 : state) :
  arena_grows s1 s2 -> arena_grows s2 s3 -> arena_grows s1 s3.
Proof.
  unfold arena_grows. intros (A1 & A2 & A3 & A4 & A5) (B1 & B2 & B3 & B4 & B5).
  repeat split; try congruence; try lia.
Qed.

Lemma settled_refl (s : state) : settled s s.
Proof. split; [apply arena_grows_refl|split; reflexivity]. Qed.

Lemma settled_trans (s1 s2 s3 : state) : settled s1 s2 -> settled s2 s3 -> settled s1 s3.
Proof.
  intros (A & A1 & A2) (B & B1 & B2).
  split; [eapply arena_grows_trans; eassumption|split; congruence].
Qed.

Lemma settled_bytes (s : state) (m : Mem.mem) : settled s (with_bytes s m).
Proof. exact (settled_refl s). Qed.

Lemma settled_grows (s s' : state) : settled s s' -> arena_grows s s'.
Proof. intros [H _]. exact H. Qed.

Ltac settled_side := first [exact settled_refl | exact settled_trans | exact settled_bytes].

Lemma PUT_settled p v : preserves settled (PUT p v).
Proof. apply pres_PUT; settled_side. Qed.
Lemma GET_SIZE_settled p : preserves settled (GET_SIZE p).
Proof. apply pres_GET_SIZE; settled_side. Qed.
Lemma FTRP_settled bp : preserves settled (FTRP bp).
Proof. apply pres_FTRP; settled_side. Qed.
Lemma NEXT_BLKP_settled bp : preserves settled (NEXT_BLKP bp).
Proof. apply pres_NEXT_BLKP; settled_side. Qed.
Lemma get_bucket_settled i : preserves settled (get_bucket i).
Proof. apply pres_get_bucket; settled_side. Qed.
Lemma find_fit_settled fuel asize : preserves settled (find_fit fuel asize).
Proof. apply pres_find_fit; settled_side. Qed.
Lemma insert_free_settled bp : preserves settled (insert_free bp).
Proof. apply pres_insert_free; settled_side. Qed.
Lemma coalesce_settled bp : preserves settled (coalesce bp).
Proof. apply pres_coalesce; settled_side. Qed.
Lemma place_settled bp asize : preserves settled (place bp asize).
Proof. apply pres_place; settled_side. Qed.

Lemma mem_sbrk_settled incr : preserves settled (mem_sbrk incr).
Proof.
  intros s a s' H. unfold mem_sbrk in H.
  destruct (Z.leb_spec 0 incr) as [H0|H0]; cbn [andb] in H.
  - destruct (Z.leb_spec (mem_brk s + incr) (mem_max s)) as [H1|H1];
      inversion H; subst; [|apply settled_refl].
    unfold settled, arena_grows. cbn. repeat split; auto; lia.
  - inversion H; subst. apply settled_refl.
Qed.

Lemma memcpy_settled dst src n : preserves settled (memcpy dst src n).
Proof.
  intros s a s' H. unfold memcpy in H.
  destruct (in_arena s dst n && in_arena s src n &&
            ((n =? 0) || (dst + n <=? src) || (src + n <=? dst)));
    inversion H; subst. apply settled_bytes.
Qed.

Lemma store_ptr_settled p v : preserves settled (store_ptr p v).
Proof. apply pres_store_ptr; settled_side. Qed.
Lemma set_NEXT_FREE_settled bp v : preserves settled (set_NEXT_FREE bp v).
Proof. apply pres_set_NEXT_FREE; settled_side. Qed.
Lemma set_PREV_FREE_settled bp v : preserves settled (set_PREV_FREE bp v).
Proof. apply pres_set_PREV_FREE; settled_side. Qed.
Lemma set_bucket_settled i v : preserves settled (set_bucket i v).
Proof. apply pres_set_bucket; settled_side. Qed.

#[local] Hint Resolve store_ptr_settled set_NEXT_FREE_settled set_PREV_FREE_settled
  set_bucket_settled : pres.

#[local] Hint Resolve PUT_settled GET_SIZE_settled FTRP_settled NEXT_BLKP_settled
  get_bucket_settled find_fit_settled insert_free_settled coalesce_settled place_settled
  mem_sbrk_settled memcpy_settled : pres.

Lemma extend_heap_settled words : preserves settled (extend_heap words).
Proof. unfold extend_heap. pres_step settled_refl settled_trans. Qed.

#[local] Hint Resolve extend_heap_settled : pres.

Lemma settled_preserves_grows {A} (c : M A) : preserves settled c -> preserves arena_grows c.
Proof. intros H s a s' Hc. apply settled_grows. eapply H. exact Hc. Qed.

Lemma set_heap_listp_grows p : preserves arena_grows (set_heap_listp p).
Proof. apply pres_set_heap_listp. intros s0 p0. exact (arena_grows_refl s0). Qed.
Lemma set_seg_free_grows p : preserves arena_grows (set_seg_free p).
Proof. apply pres_set_seg_free. intros s0 p0. exact (arena_grows_refl s0). Qed.
Lemma clear_buckets_grows n i : preserves arena_grows (clear_buckets n i).
Proof.
  apply pres_clear_buckets;
    first [exact arena_grows_refl | exact arena_grows_trans
          | intros s0 m0; exact (arena_grows_refl s0)].
Qed.
Lemma PUT_grows p v : preserves arena_grows (PUT p v).
Proof. apply settled_preserves_grows. apply PUT_settled. Qed.
Lemma mem_sbrk_grows incr : preserves arena_grows (mem_sbrk incr).
Proof. apply settled_preserves_grows. apply mem_sbrk_settled. Qed.
Lemma extend_heap_grows words : preserves arena_grows (extend_heap words).
Proof. apply settled_preserves_grows. apply extend_heap_settled. Qed.

Lemma store_ptr_grows p v : preserves arena_grows (store_ptr p v).
Proof. apply settled_preserves_grows. apply store_ptr_settled. Qed.
Lemma set_NEXT_FREE_grows bp v : preserves arena_grows (set_NEXT_FREE bp v).
Proof. apply settled_preserves_grows. apply set_NEXT_FREE_settled. Qed.
Lemma set_PREV_FREE_grows bp v : preserves arena_grows (set_PREV_FREE bp v).
Proof. apply settled_preserves_grows. apply set_PREV_FREE_settled. Qed.

#[local] Hint Resolve set_heap_listp_grows set_seg_free_grows clear_buckets_grows PUT_grows
  mem_sbrk_grows extend_heap_grows store_ptr_grows set_NEXT_FREE_grows
  set_PREV_FREE_grows : pres.

Lemma mm_init_grows : preserves arena_grows mm_init.
Proof. unfold mm_init. pres_step arena_grows_refl arena_grows_trans. Qed.

(** What the entry points keep: the arena only grows, and once [heap_listp]
    is set the two static pointers stay. *)
Definition kept (s s' : state) : Prop :=
  arena_grows s s' /\
  (heap_listp s <> 0 -> heap_listp s' = heap_listp s /\ seg_free s' = seg_free s).

Lemma settled_kept (s s' : state) : settled s s' -> kept s s'.
Proof. intros (A & B & C). split; [exact A|intros _; split; assumption]. Qed.

Lemma kept_then_settled (s1 s2 s3 : state) : kept s1 s2 -> settled s2 s3 -> kept s1 s3.
Proof.
  intros (A & B) (C & D & E). split; [eapply arena_grows_trans; eassumption|].
  intros H. destruct (B H) as [B1 B2]. split; congruence.
Qed.

Lemma lazy_init_kept : preserves kept lazy_init.
Proof.
  intros s u s' H. unfold lazy_init, get_heap_listp in H.
  apply bind_inv in H as (h & s1 & E & H). inversion E; subst h s1; clear E.
  destruct (Z.eqb_spec (heap_listp s) 0) as [Hz|Hnz].
  - apply bind_inv in H as (r & s1 & E & H). apply ret_inv in H as (_ & ->).
    split; [eapply mm_init_grows; exact E|intros Hc; contradiction].
  - apply ret_inv in H as (_ & ->). apply settled_kept. apply settled_refl.
Qed.

Lemma malloc_body_settled fuel size :
  preserves settled
    (if size =? 0 then ret NULL
     else
       bp <- find_fit fuel (adjust_size size) ;;
       if negb (bp =? NULL) then place bp (adjust_size size) ;;; ret bp
       else
         bp <- extend_heap (MAX (adjust_size size) CHUNKSIZE / WSIZE) ;;
         if bp =? NULL then ret NULL else place bp (adjust_size size) ;;; ret bp).
Proof. pres_step settled_refl settled_trans. Qed.

Lemma malloc_kept fuel size : preserves kept (malloc fuel size).
Proof.
  intros s r s' H. unfold malloc in H.
  apply bind_inv in H as (u & s1 & E & H).
  apply lazy_init_kept in E. apply malloc_body_settled in H.
  eapply kept_then_settled; eassumption.
Qed.

Lemma free_tail_settled bp size :
  preserves settled
    (PUT (HDRP bp) (PACK size 0) ;;;
     f <- FTRP bp ;;
     PUT f (PACK size 0) ;;;
     head <- get_bucket (find_bucket size) ;;
     if head =? NULL then insert_free bp else coalesce bp ;;; ret tt).
Proof. pres_step settled_refl settled_trans. Qed.

Lemma free_kept bp : preserves kept (free bp).
Proof.
  intros s r s' H. unfold free in H.
  destruct (bp =? 0).
  - apply ret_inv in H as (_ & ->). apply settled_kept. apply settled_refl.
  - apply bind_inv in H as (size & s1 & E & H). apply GET_SIZE_settled in E.
    apply bind_inv in H as (u & s2 & E2 & H). apply lazy_init_kept in E2.
    apply free_tail_settled in H.
    eapply kept_then_settled; [|exact H].
    destruct E as (A & B & C). destruct E2 as (A2 & B2).
    split; [eapply arena_grows_trans; eassumption|].
    intros Hh. rewrite <- B in Hh. destruct (B2 Hh) as [D1 D2]. split; congruence.
Qed.

Lemma kept_trans (s1 s2 s3 : state) : kept s1 s2 -> kept s2 s3 -> kept s1 s3.
Proof.
  intros (A & B) (C & D). split; [eapply arena_grows_trans; eassumption|].
  intros H. destruct (B H) as [B1 B2]. rewrite <- B1 in H. destruct (D H) as [D1 D2].
  split; congruence.
Qed.

Lemma realloc_kept fuel ptr size : preserves kept (realloc fuel ptr size).
Proof.
  intros s r s' H. unfold realloc in H.
  destruct (size =? 0).
  - apply bind_inv in H as (u & s1 & E & H). apply ret_inv in H as (_ & ->).
    eapply free_kept; exact E.
  - destruct (ptr =? NULL); [eapply malloc_kept; exact H|].
    apply bind_inv in H as (np & s1 & E & H). apply malloc_kept in E.
    destruct (np =? 0).
    + apply ret_inv in H as (_ & ->). exact E.
    + apply bind_inv in H as (osz & s2 & E2 & H). apply GET_SIZE_settled in E2.
      apply bind_inv in H as (u & s3 & E3 & H). apply memcpy_settled in E3.
      apply bind_inv in H as (u' & s4 & E4 & H). apply free_kept in E4.
      apply ret_inv in H as (_ & ->).
      eapply kept_trans; [|exact E4].
      eapply kept_then_settled; [|exact E3].
      eapply kept_then_settled; [|exact E2]. exact E.
Qed.

(** ** The heap checker *)

(** A set of blocks that the next links never leave: each is non-null, its
    next link can be read, and leads to a block of the set. *)
Definition ring (s : state) (P : Z -> Prop) : Prop :=
  forall q, P q ->
    q <> NULL /\ in_arena s (q + DSIZE) 8 = true /\ P (ptr_at s (q + DSIZE)).

Lemma ring_with_out (s : state) (P : Z -> Prop) (o : list String.string) :
  ring s P -> ring (with_out s o) P.
Proof. intros H q Hq. exact (H q Hq). Qed.

(** On such a list the loop of [cycle_check] has no way out: the tortoise
    never becomes null, and the function does not return when it meets the
    hare. *)
Lemma cycle_check_loop_runs_on (P : Z -> Prop) (fuel : nat) :
  forall (tortoise hare : Z) (s : state),
    ring s P -> P tortoise -> P hare ->
    cycle_check_loop fuel tortoise hare s = OutOfFuel.
Proof.
  induction fuel as [|k IH]; intros t h s Hring Ht Hh; [reflexivity|].
  cbn [cycle_check_loop].
  destruct (Hring t Ht) as (Htn & Hta & Htp).
  destruct (Hring h Hh) as (_ & Hha & Hhp).
  destruct (Hring _ Hhp) as (_ & Hha2 & Hhp2).
  destruct (Z.eqb_spec t NULL) as [|_]; [contradiction|].
  unfold NEXT_FREE.
  eapply exec_bind; [apply load_ptr_ok; exact Hha|]. cbv beta.
  eapply exec_bind; [apply load_ptr_ok; exact Hha2|]. cbv beta.
  destruct (t =? ptr_at s (ptr_at s (h + DSIZE) + DSIZE)).
  - eapply exec_bind; [reflexivity|]. cbv beta.
    eapply exec_bind; [apply load_ptr_ok; exact Hta|]. cbv beta.
    apply IH; [apply ring_with_out; exact Hring|exact Htp|exact Hhp2].
  - eapply exec_bind; [reflexivity|]. cbv beta.
    eapply exec_bind; [apply load_ptr_ok; exact Hta|]. cbv beta.
    apply IH; assumption.
Qed.

(** What [check_block] has to say about the block at [bp], read off the
    tags: the header and the footer differ; the size field is zero; the
    block and the one behind it are both free; the block starts at the very
    end of the arena. *)
Definition report (s : state) (bp : Z) : list String.string :=
  let h := HDRP bp in
  let f := bp + size_at s h - DSIZE in
  (if (size_at s h =? size_at s f) && (alloc_at s h =? alloc_at s f)
   then [] else ["Header & footer do not match"%string]) ++
  (if size_at s h =? 0 then ["Block size error"%string] else []) ++
  (if (alloc_at s h =? 0) && (alloc_at s (HDRP (bp + size_at s h)) =? 0)
   then ["Consecutive free blocks"%string] else []) ++
  (if bp =? mem_brk s then ["Bp out of heap bounds"%string] else []).

Lemma with_out_same (s : state) : with_out s (out s) = s.
Proof. destruct s; reflexivity. Qed.

Lemma say_first (b : bool) (msg : String.string) (s : state) :
  (if b then printf msg else ret tt) s =
    Ok tt (with_out s (out s ++ (if b then [msg] else []))).
Proof.
  destruct b; [reflexivity|]. unfold ret. rewrite app_nil_r, with_out_same. reflexivity.
Qed.

Lemma say_next (b : bool) (msg : String.string) (s : state) (o : list String.string) :
  (if b then printf msg else ret tt) (with_out s o) =
    Ok tt (with_out s (o ++ (if b then [msg] else []))).
Proof.
  destruct b; [reflexivity|]. unfold ret. rewrite app_nil_r. reflexivity.
Qed.

(** [check_block] on a block whose tags can be read: it prints [report] and
    changes nothing else.  Of the size test only the comparison with zero is
    left, since the size field read by [GET_SIZE] is always a multiple of
    eight; of the bounds test only the end of the arena is left, since the
    header has been read inside the arena by then. *)
Lemma check_block_spec (bp : Z) (s : state) (o : list String.string) :
  in_arena s (HDRP bp) 4 = true ->
  in_arena s (bp + size_at s (HDRP bp) - DSIZE) 4 = true ->
  (alloc_at s (HDRP bp) = 0 -> in_arena s (HDRP (bp + size_at s (HDRP bp))) 4 = true) ->
  check_block bp (with_out s o) = Ok tt (with_out s (o ++ report s bp)).
Proof.
  intros Hh Hf Hn.
  destruct (size_at_range s (HDRP bp)) as [Hsr Hsm].
  pose proof (in_arena_inv _ _ _ Hh) as Harena.
  unfold check_block.
  eapply exec_bind; [apply GET_SIZE_ok; exact Hh|]. cbv beta.
  eapply exec_bind; [apply FTRP_ok; exact Hh|]. cbv beta.
  eapply exec_bind; [apply GET_SIZE_ok; exact Hf|]. cbv beta.
  change (size_at (with_out s o)) with (size_at s).
  set (hs := size_at s (HDRP bp)) in *.
  set (fs := size_at s (bp + hs - DSIZE)).
  set (ha := alloc_at s (HDRP bp)) in *.
  set (fa := alloc_at s (bp + hs - DSIZE)).
  eapply exec_bind with (a := negb ((hs =? fs) && (ha =? fa))) (s1 := with_out s o).
  { destruct (hs =? fs); cbn [negb andb]; [|reflexivity].
    eapply exec_bind; [apply GET_ALLOC_ok; exact Hh|]. cbv beta.
    eapply exec_bind; [apply FTRP_ok; exact Hh|]. cbv beta.
    eapply exec_bind; [apply GET_ALLOC_ok; exact Hf|]. reflexivity. }
  cbv beta.
  eapply exec_bind; [apply say_next|]. cbv beta.
  assert (Hsize : negb (hs mod DSIZE =? 0) || (hs <? DSIZE) = (hs =? 0)).
  { unfold DSIZE. rewrite Hsm. cbn [Z.eqb negb orb].
    destruct (Z.ltb_spec hs 8); destruct (Z.eqb_spec hs 0); try reflexivity; zlia. }
  rewrite Hsize.
  eapply exec_bind; [apply say_next|]. cbv beta.
  eapply exec_bind; [apply GET_ALLOC_ok; exact Hh|]. cbv beta.
  change (alloc_at (with_out s _) (HDRP bp)) with ha.
  eapply exec_bind
    with (a := (ha =? 0) && (alloc_at s (HDRP (bp + hs)) =? 0))
         (s1 := with_out s ((o ++ (if negb ((hs =? fs) && (ha =? fa))
                                   then ["Header & footer do not match"%string] else [])) ++
                            (if hs =? 0 then ["Block size error"%string] else []))).
  { destruct (Z.eqb_spec ha 0) as [Hz|_]; cbn [negb andb]; [|reflexivity].
    eapply exec_bind; [apply NEXT_BLKP_ok; exact Hh|]. cbv beta.
    eapply exec_bind; [apply GET_ALLOC_ok; exact (Hn Hz)|]. reflexivity. }
  cbv beta.
  eapply exec_bind; [apply say_next|]. cbv beta.
  eapply exec_bind; [reflexivity|]. cbv beta.
  eapply exec_bind; [reflexivity|]. cbv beta.
  cbn [mem_brk mem_lo with_out].
  assert (Hbound : (bp >? mem_brk s - 1) || (bp <? mem_lo s) = (bp =? mem_brk s)).
  { unfold HDRP, WSIZE in Harena.
    destruct (Z.gtb_spec bp (mem_brk s - 1)); destruct (Z.ltb_spec bp (mem_lo s));
      destruct (Z.eqb_spec bp (mem_brk s)); cbn [orb]; try reflexivity; lia. }
  rewrite Hbound. rewrite say_next. unfold report. cbv zeta.
  fold hs. fold fs. fold ha. fold fa.
  rewrite <- !app_assoc.
  destruct ((hs =? fs) && (ha =? fa)); reflexivity.
Qed.

(** The blocks of the heap from [bp] up to the first header whose size field
    is zero, as the first loop of [mm_checkheap] meets them. *)
Fixpoint blocks (s : state) (bp : Z) (l : list Z) : Prop :=
  match l with
  | [] => in_arena s (HDRP bp) 4 = true /\ size_at s (HDRP bp) = 0
  | x :: l' =>
      bp = x /\ in_arena s (HDRP x) 4 = true /\ 0 < size_at s (HDRP x) /\
      in_arena s (x + size_at s (HDRP x) - DSIZE) 4 = true /\
      blocks s (x + size_at s (HDRP x)) l'
  end.

(** Where the walk over [l] ends. *)
Fixpoint walk_end (s : state) (bp : Z) (l : list Z) : Z :=
  match l with
  | [] => bp
  | x :: l' => walk_end s (x + size_at s (HDRP x)) l'
  end.

Lemma blocks_header (s : state) (bp : Z) (l : list Z) :
  blocks s bp l -> in_arena s (HDRP bp) 4 = true.
Proof. destruct l as [|x l]; cbn [blocks]; [intros [H _]; exact H|intros (-> & H & _); exact H]. Qed.

(** The first loop of [mm_checkheap]: every block is checked once, in
    address order, and the loop stops at the first header whose size field
    is zero. *)
Lemma check_blocks_spec (s : state) (l : list Z) :
  forall (fuel : nat) (bp : Z) (o : list String.string),
    blocks s bp l -> (length l < fuel)%nat ->
    check_blocks fuel bp (with_out s o) =
      Ok (walk_end s bp l) (with_out s (o ++ concat (map (report s) l))).
Proof.
  induction l as [|x l IH]; intros fuel bp o Hb Hfuel;
    (destruct fuel as [|k]; [cbn in Hfuel; lia|]); cbn [blocks] in Hb;
    cbn [check_blocks walk_end map concat].
  - destruct Hb as [Hh Hz].
    eapply exec_bind; [apply GET_SIZE_ok; exact Hh|]. cbv beta.
    change (size_at (with_out s o)) with (size_at s). rewrite Hz. cbn [Z.gtb Z.compare].
    rewrite app_nil_r. reflexivity.
  - destruct Hb as (-> & Hh & Hpos & Hf & Hrest).
    eapply exec_bind; [apply GET_SIZE_ok; exact Hh|]. cbv beta.
    change (size_at (with_out s o)) with (size_at s).
    destruct (Z.gtb_spec (size_at s (HDRP x)) 0) as [_|]; [|lia].
    eapply exec_bind.
    { apply check_block_spec; [exact Hh|exact Hf|].
      intros _. eapply blocks_header. exact Hrest. }
    cbv beta.
    eapply exec_bind; [apply NEXT_BLKP_ok; exact Hh|]. cbv beta.
    change (size_at (with_out s _)) with (size_at s).
    rewrite app_assoc. apply IH; [exact Hrest|cbn [length] in Hfuel; lia].
Qed.

(** None of the blocks the loop checks has a zero size field, so the size
    test of [check_block] never fires there. *)
Lemma blocks_no_size_error (s : state) (l : list Z) : forall bp,
  blocks s bp l ->
  forall x, In x l -> (size_at s (HDRP x) =? 0) = false.
Proof.
  induction l as [|y l IH]; intros bp Hb x Hx; cbn [blocks] in Hb; [contradiction|].
  destruct Hb as (_ & _ & Hpos & _ & Hrest).
  destruct Hx as [<-|Hx]; [apply Z.eqb_neq; lia|].
  eapply IH; eassumption.
Qed.

(** ** malloc *)

Lemma first_fit_fits (s : state) (asize : Z) (l : list Z) :
  first_fit s asize l <> NULL -> asize <= size_at s (HDRP (first_fit s asize l)).
Proof.
  unfold first_fit. destruct (find (fits s asize) l) as [bp|] eqn:Hfind.
  - intros _. apply find_some in Hfind as [_ Hf]. unfold fits in Hf.
    apply Z.leb_le. exact Hf.
  - intros H. contradiction.
Qed.

(** [malloc] on an initialised heap whose lists hold a block that fits: the
    first fit is taken off its list, placed and returned; its header is
    marked allocated, with the adjusted size when the rest is split off and
    with the size the block had otherwise.  Either way the block holds the
    request and its two tags. *)
Lemma malloc_fit_spec (fuel : nat) (size : Z) (s : state) (ls : list (list Z)) :
  let asize := adjust_size size in
  let bp := first_fit s asize (concat (skipn (Z.to_nat (find_bucket asize)) ls)) in
  let csize := size_at s (HDRP bp) in
  let slot := seg_free s + 8 * find_bucket (csize - asize) in
  let head := ptr_at (after (remove_free bp) s) slot in
  heap_listp s <> 0 -> 0 < size -> size + 15 < SIZE_MOD ->
  buckets_are s ls -> (forall l, In l ls -> (length l < fuel)%nat) ->
  bp <> NULL -> listed s bp -> HDRP bp + csize <= mem_brk s ->
  (24 <= csize - asize ->
   head = NULL \/
   (mem_lo s <= head /\ head + 8 <= mem_brk s /\
    (head + 8 <= HDRP bp \/ HDRP bp + csize <= head) /\
    (head + 8 <= seg_free s \/ seg_free s + 8 * BUCKETS <= head))) ->
  exists s',
    malloc fuel size s = Ok bp s' /\
    alloc_at s' (HDRP bp) = 1 /\
    size_at s' (HDRP bp) = (if 24 <=? csize - asize then asize else csize) /\
    size + 8 <= size_at s' (HDRP bp) /\
    same_frame s s'.
Proof.
  intros asize bp csize slot head Hinit Hpos Hmax Hbk Hfuel Hbp Hli Hin Hhead.
  destruct (adjust_size_in_range size Hpos Hmax) as (_ & Ha8 & Ha24 & Hafit & _).
  fold asize in Ha8, Ha24, Hafit.
  pose proof (first_fit_fits s asize _ Hbp) as Hfits. fold bp in Hfits. fold csize in Hfits.
  destruct (size_at_range s (HDRP bp)) as [Hcr Hcm]. fold csize in Hcr, Hcm.
  destruct (remove_free_spec bp s Hli) as (s1 & Hrm & _).
  pose proof (after_Ok _ _ _ _ Hrm) as Hafter.
  assert (Hpl : placeable s bp asize).
  { destruct Hli as [L1 L2 L3 L4 L5 _ _ _].
    constructor; try assumption; try lia. }
  assert (Hfind : find_fit fuel asize s = Ok bp s).
  { unfold find_fit. rewrite find_bucket_int_cast.
    pose proof (find_bucket_bounds asize) as Hr.
    apply find_fit_buckets_spec with (ls := ls); try assumption; unfold BUCKETS; lia. }
  assert (Hplace : exists s', place bp asize s = Ok tt s' /\
                     alloc_at s' (HDRP bp) = 1 /\
                     size_at s' (HDRP bp) = (if 24 <=? csize - asize then asize else csize) /\
                     same_frame s s').
  { destruct (Z.leb_spec 24 (csize - asize)) as [Hge|Hlt].
    - destruct (place_split bp asize s s1 Hpl Hge Hrm) as (s' & Hrun & T1 & _ & _ & _ & _ & _ & _ & _ & Hfr).
      { rewrite <- Hafter. exact (Hhead Hge). }
      destruct (size_of_tag s' _ asize 1 Ha8 ltac:(lia) (or_intror eq_refl) T1) as [Q1 Q2].
      exists s'. repeat (split; [assumption|]). exact Hfr.
    - destruct (place_whole bp asize s s1 Hpl Hlt Hrm) as (s' & Hrun & T1 & _ & _ & Hfr).
      destruct (size_of_tag s' _ csize 1 Hcm Hcr (or_intror eq_refl) T1) as [Q1 Q2].
      exists s'. repeat (split; [assumption|]). exact Hfr. }
  destruct Hplace as (s' & Hrun & Q2 & Q1 & Hfr).
  exists s'. split.
  { unfold malloc. rewrite (bind_Ok _ _ _ _ _ (lazy_init_done s Hinit)).
    destruct (Z.eqb_spec size 0) as [|_]; [lia|].
    fold asize. eapply exec_bind; [exact Hfind|]. cbv beta.
    destruct (Z.eqb_spec bp NULL) as [|_]; [contradiction|]. cbn [negb].
    eapply exec_bind; [exact Hrun|]. reflexivity. }
  split; [exact Q2|]. split; [exact Q1|]. split; [|exact Hfr].
  rewrite Q1. destruct (24 <=? csize - asize); lia.
Qed.

(** The number of bytes [extend_heap] asks for: the word count rounded up
    to an even number, times the word size. *)
Lemma extend_size_even (words : Z) :
  0 <= words -> WSIZE * (words + words mod 2) < SIZE_MOD ->
  (if negb (words mod 2 =? 0) then to_size_t ((words + 1) * WSIZE)
   else to_size_t (words * WSIZE)) = WSIZE * (words + words mod 2).
Proof.
  unfold WSIZE. intros H0 Hmax.
  destruct (Z.eqb_spec (words mod 2) 0) as [E|E]; cbn [negb].
  - rewrite E in *. rewrite to_size_t_small by lia. lia.
  - assert (E1 : words mod 2 = 1) by zlia. rewrite E1 in *.
    rewrite to_size_t_small by lia. lia.
Qed.

(** [extend_heap] when the host has no room for the request: null, and the
    state is the one it was called in. *)
Lemma extend_heap_no_room (words : Z) (s : state) :
  0 <= words -> WSIZE * (words + words mod 2) < SIZE_MOD ->
  mem_max s < mem_brk s + WSIZE * (words + words mod 2) ->
  extend_heap words s = Ok NULL s.
Proof.
  intros H0 Hmax Hroom. unfold extend_heap. cbv zeta.
  rewrite !(extend_size_even words H0 Hmax).
  eapply exec_bind.
  { unfold mem_sbrk.
    destruct (Z.leb_spec (mem_brk s + WSIZE * (words + words mod 2)) (mem_max s)) as [|_];
      [lia|].
    rewrite andb_false_r. reflexivity. }
  cbv beta. rewrite Z.eqb_refl. reflexivity.
Qed.



(** ** The boundary tags *)

(** A tag written with [PUT] and [PACK] reads back: the size through
    [GET_SIZE] and the allocation bit through [GET_ALLOC], for a size that
    is a multiple of eight and fits the 32-bit word. *)
Lemma put_get_tag (p size alloc : Z) (s : state) :
  in_arena s p 4 = true ->
  size mod 8 = 0 -> 0 <= size < UINT_MOD -> alloc = 0 \/ alloc = 1 ->
  (PUT p (PACK size alloc) ;;;
   sz <- GET_SIZE p ;; al <- GET_ALLOC p ;; ret (sz, al)) s =
  Ok (size, alloc) (with_bytes s (Mem.wr 4 (bytes s) p (to_uint (PACK size alloc)))).
Proof.
  intros Hp Hm Hr Ha.
  eapply exec_bind; [apply PUT_ok; exact Hp|]. cbv beta.
  set (s1 := with_bytes s (Mem.wr 4 (bytes s) p (to_uint (PACK size alloc)))).
  assert (Ht : tag_at s1 p = to_uint (PACK size alloc)).
  { unfold tag_at, s1. cbn [bytes with_bytes]. mem_norm. reflexivity. }
  destruct (size_of_tag s1 p size alloc Hm Hr Ha Ht) as [Q1 Q2].
  eapply exec_bind; [apply GET_SIZE_ok; exact Hp|]. cbv beta.
  eapply exec_bind; [apply GET_ALLOC_ok; exact Hp|]. cbv beta.
  rewrite Q1, Q2. reflexivity.
Qed.

(** Stepping to the next block and back, or to the previous block and
    forth, ends where it started when the footer read on the way holds the
    size of the header. *)
Lemma next_prev_round_trip (bp : Z) (s : state) :
  in_arena s (HDRP bp) 4 = true ->
  in_arena s (bp + size_at s (HDRP bp) - DSIZE) 4 = true ->
  size_at s (bp + size_at s (HDRP bp) - DSIZE) = size_at s (HDRP bp) ->
  (nb <- NEXT_BLKP bp ;; PREV_BLKP nb) s = Ok bp s.
Proof.
  intros Hh Hf Hag.
  eapply exec_bind; [apply NEXT_BLKP_ok; exact Hh|]. cbv beta.
  rewrite PREV_BLKP_ok by exact Hf. rewrite Hag. f_equal. lia.
Qed.

Lemma prev_next_round_trip (bp : Z) (s : state) :
  in_arena s (bp - DSIZE) 4 = true ->
  in_arena s (HDRP (bp - size_at s (bp - DSIZE))) 4 = true ->
  size_at s (HDRP (bp - size_at s (bp - DSIZE))) = size_at s (bp - DSIZE) ->
  (pb <- PREV_BLKP bp ;; NEXT_BLKP pb) s = Ok bp s.
Proof.
  intros Hf Hh Hag.
  eapply exec_bind; [apply PREV_BLKP_ok; exact Hf|]. cbv beta.
  rewrite NEXT_BLKP_ok by exact Hh. rewrite Hag. f_equal. lia.
Qed.

(** ** The first call of malloc *)

(** On a heap that is not initialised yet, [malloc] runs [mm_init] first
    and then goes on as on the heap [mm_init] has built. *)
Lemma malloc_lazy (fuel : nat) (size r : Z) (s s0 : state) :
  heap_listp s = 0 -> mm_init s = Ok r s0 -> heap_listp s0 <> 0 ->
  malloc fuel size s = malloc fuel size s0.
Proof.
  intros Hz Hinit Hnz.
  assert (L : lazy_init s = Ok tt s0).
  { unfold lazy_init, get_heap_listp. eapply exec_bind; [reflexivity|]. cbv beta.
    rewrite Hz. cbn [Z.eqb]. eapply exec_bind; [exact Hinit|]. reflexivity. }
  unfold malloc. rewrite (bind_Ok _ _ _ _ _ L).
  rewrite (bind_Ok _ _ _ _ _ (lazy_init_done s0 Hnz)). reflexivity.
Qed.

(** The first [malloc] on a fresh arena with room for the initial heap, for
    a request of up to 160 bytes: the heap is laid out at the end [p] of the
    arena and the one free block of 168 bytes, at [p + 112], is placed and
    returned; the arena is not extended any further. *)
Lemma first_malloc_spec (fuel : nat) (size : Z) (s : state) :
  let p := mem_brk s in
  let asize := adjust_size size in
  heap_listp s = 0 -> sane_arena s -> mem_lo s <= p -> p + 280 <= mem_max s ->
  0 < size <= 160 -> (2 <= fuel)%nat ->
  exists s',
    malloc fuel size s = Ok (p + 112) s' /\
    alloc_at s' (p + 108) = 1 /\
    size_at s' (p + 108) = (if 24 <=? 168 - asize then asize else 168) /\
    seg_free s' = p /\ heap_listp s' = p + 104 /\ mem_brk s' = p + 280.
Proof.
  intros p asize Hz Hsane Hp Hroom Hsize Hfuel.
  destruct (mm_init_spec s Hsane Hp Hroom) as
    (s0 & Hinit & I1 & I2 & I3 & I4 & I5 & I6 & Iempty & Islot & _ & _ & _ & _ &
     Ihs & Iha & _ & _ & _ & _ & Iprev & Inext & _).
  fold p in I1, I2, I3, Iempty, Islot, Ihs, Iha, Iprev, Inext.
  destruct Hsane as [Hlo Hmax]. unfold MINUS_ONE_PTR, SIZE_MOD in Hmax.
  assert (Hpdef : mem_brk s = p) by reflexivity. clearbody p.
  assert (Hsz : 0 < size /\ size + 15 < SIZE_MOD) by (unfold SIZE_MOD; lia).
  destruct (adjust_size_in_range size (proj1 Hsz) (proj2 Hsz))
    as (Hadef & Ha8 & Ha24 & _ & _ & _).
  assert (Ha168 : adjust_size size <= 168).
  { rewrite Hadef. destruct (size <=? 8); [lia|]. zlia. }
  fold asize in Ha8, Ha24, Ha168.
  assert (Hasizedef : adjust_size size = asize) by reflexivity. clearbody asize.
  assert (Hh0 : heap_listp s0 <> 0) by lia.
  rewrite (malloc_lazy fuel size 0 s s0 Hz Hinit Hh0).
  set (ls := [[]; []; []; [p + 112]; []; []; []; []; []; []; []; []] : list (list Z)).
  assert (Hsl : forall i, 0 <= i < 12 -> ptr_at s0 (p + 8 * i) = if i =? 3 then p + 112 else NULL).
  { intros i Hi. destruct (Z.eqb_spec i 3) as [->|Hne]; [exact Islot|].
    apply Iempty; [unfold BUCKETS; lia|exact Hne]. }
  assert (Hin3 : in_arena s0 (HDRP (p + 112)) 4 = true)
    by (apply in_arena_true; unfold HDRP, WSIZE; lia).
  assert (Hin3' : in_arena s0 (p + 112 + DSIZE) 8 = true)
    by (apply in_arena_true; unfold DSIZE; lia).
  assert (Hbk : buckets_are s0 ls).
  { split; [reflexivity|]. intros i Hi. unfold BUCKETS in Hi. rewrite I1.
    split; [apply in_arena_true; lia|]. rewrite (Hsl i Hi).
    assert (Hcases : i = 0 \/ i = 1 \/ i = 2 \/ i = 3 \/ i = 4 \/ i = 5 \/ i = 6 \/
                     i = 7 \/ i = 8 \/ i = 9 \/ i = 10 \/ i = 11) by lia.
    repeat (destruct Hcases as [->|Hcases]); try subst i; unfold ls;
      cbn [nth Z.to_nat Pos.to_nat Pos.iter_op Nat.add is_list Z.eqb Pos.eqb];
      try reflexivity.
    split; [reflexivity|]. split; [unfold NULL; lia|]. split; [exact Hin3|].
    split; [exact Hin3'|]. replace (p + 112 + DSIZE) with (p + 120) by (unfold DSIZE; lia).
    exact Inext. }
  assert (Hls : forall l, In l ls -> (length l < fuel)%nat).
  { intros l Hl. cbn in Hl.
    repeat (destruct Hl as [<-|Hl]; [cbn; lia|]). contradiction. }
  replace (p + 112 - 4) with (p + 108) in * by lia.
  assert (Hcsize : size_at s0 (HDRP (p + 112)) = 168).
  { unfold HDRP, WSIZE. replace (p + 112 - 4) with (p + 108) by lia. exact Ihs. }
  assert (Hff : first_fit s0 asize (concat (skipn (Z.to_nat (find_bucket asize)) ls))
                = p + 112).
  { pose proof (find_bucket_mono asize 168 ltac:(lia) Ha168 ltac:(lia)) as Hm.
    change (find_bucket 168) with 3 in Hm.
    pose proof (find_bucket_bounds asize) as Hb.
    assert (Hc : find_bucket asize = 0 \/ find_bucket asize = 1 \/
                 find_bucket asize = 2 \/ find_bucket asize = 3) by lia.
    assert (Hfit : fits s0 asize (p + 112) = true).
    { unfold fits. rewrite Hcsize. apply Z.leb_le. exact Ha168. }
    destruct Hc as [E|[E|[E|E]]]; rewrite E; unfold ls;
      match goal with
      | |- context [Z.to_nat ?z] =>
          let n := eval vm_compute in (Z.to_nat z) in change (Z.to_nat z) with n
      end;
      cbn [skipn concat app]; unfold first_fit; cbn [find]; rewrite Hfit; reflexivity. }
  assert (Hli : listed s0 (p + 112)).
  { constructor; unfold HDRP, WSIZE, BUCKETS, SIZE_MOD; try lia.
    left. replace (p + 112 + DSIZE) with (p + 120) by (unfold DSIZE; lia). exact Inext. }
  pose proof (malloc_fit_spec fuel size s0 ls) as Hspec. cbv zeta in Hspec.
  rewrite Hasizedef, Hff, Hcsize in Hspec.
  destruct Hspec as (s' & Hrun & Q1 & Q2 & _ & Hfr).
  { exact Hh0. }
  { lia. }
  { unfold SIZE_MOD. lia. }
  { exact Hbk. }
  { exact Hls. }
  { unfold NULL. lia. }
  { exact Hli. }
  { unfold HDRP, WSIZE. lia. }
  { intros _. left.
    destruct (remove_free_spec (p + 112) s0 Hli) as (s1 & Hrm & R1 & _ & _ & Rfr & _).
    rewrite (after_Ok _ _ _ _ Hrm).
    rewrite Hcsize, I1 in R1, Rfr.
    change (find_bucket 168) with 3 in R1, Rfr.
    replace (p + 112 + DSIZE) with (p + 120) in R1, Rfr by (unfold DSIZE; lia).
    rewrite Inext in R1, Rfr. rewrite I1.
    pose proof (find_bucket_bounds (168 - asize)) as Hb.
    destruct (Z.eq_dec (find_bucket (168 - asize)) 3) as [E|E].
    - rewrite E. apply R1. exact Iprev.
    - rewrite (ptr_frame s0 s1).
      + rewrite (Hsl (find_bucket (168 - asize)) ltac:(lia)). destruct (Z.eqb_spec (find_bucket (168 - asize)) 3);
          [contradiction|reflexivity].
      + intros x Hx. apply Rfr; [right; lia|left; exact Iprev|left; reflexivity]. }
  destruct Hfr as (F1 & F2 & F3 & F4 & F5 & F6).
  replace (HDRP (p + 112)) with (p + 108) in Q1, Q2 by (unfold HDRP, WSIZE; lia).
  exists s'. split; [exact Hrun|]. split; [exact Q1|]. split; [exact Q2|].
  split; [congruence|]. split; congruence.
Qed.

(** ** The walk over a bucket list in mm_checkheap *)

(** What the second loop of [mm_checkheap] has to say about the block [x] of
    bucket [i]: its successor does not point back; its predecessor does not
    point forth; the size read at [x] is not one of bucket [i]; the
    allocation bit read at [x] is set.  The last two are read at [x] itself,
    the word that holds the previous link, not at the header. *)
Definition list_report (s : state) (i x : Z) : list String.string :=
  let nx := ptr_at s (x + DSIZE) in
  let pv := ptr_at s x in
  (if negb (nx =? NULL) && negb (ptr_at s nx =? x)
   then ["Links in linked list do not match"%string] else []) ++
  (if negb (pv =? NULL) && negb (ptr_at s (pv + DSIZE) =? x)
   then ["Links in linked list do not match"%string] else []) ++
  (if find_bucket (size_at s x) =? i
   then [] else ["Blocks are not in correct seg_list"%string]) ++
  (if alloc_at s x =? 0 then [] else ["Allocated block in free list"%string]).

(** A null-terminated list from [head] whose blocks, and the neighbours
    their links name, have readable link words. *)
Fixpoint chain (s : state) (head : Z) (l : list Z) : Prop :=
  match l with
  | [] => head = NULL
  | x :: l' =>
      head = x /\ x <> NULL /\
      in_arena s x 8 = true /\ in_arena s (x + DSIZE) 8 = true /\
      (ptr_at s (x + DSIZE) <> NULL -> in_arena s (ptr_at s (x + DSIZE)) 8 = true) /\
      (ptr_at s x <> NULL -> in_arena s (ptr_at s x + DSIZE) 8 = true) /\
      chain s (ptr_at s (x + DSIZE)) l'
  end.

(** A null pointer read as a tag is the tag of size 0, not allocated. *)
Lemma null_link_as_tag (s : state) (x : Z) :
  ptr_at s x = NULL -> size_at s x = 0 /\ alloc_at s x = 0.
Proof.
  intros H.
  assert (Ht : tag_at s x = 0).
  { unfold tag_at. rewrite (MemFacts.rd_ext 4 (bytes s) zero_mem x); [reflexivity|].
    intros y Hy. apply (rd_bytes_agree 8 (bytes s) zero_mem x y); [exact H|].
    cbn in Hy |- *. lia. }
  unfold size_at, alloc_at. rewrite Ht. split; reflexivity.
Qed.

Lemma check_list_spec (s : state) (i : Z) (l : list Z) :
  forall (fuel : nat) (head : Z) (o : list String.string),
    chain s head l -> (length l < fuel)%nat ->
    check_list fuel i head (with_out s o) =
      Ok tt (with_out s (o ++ concat (map (list_report s i) l))).
Proof.
  induction l as [|x l IH]; intros fuel head o Hc Hfuel;
    (destruct fuel as [|k]; [cbn in Hfuel; lia|]); cbn [chain] in Hc;
    cbn [check_list map concat].
  - subst head. cbn [Z.eqb NULL]. rewrite app_nil_r. reflexivity.
  - destruct Hc as (-> & Hx & Hp & Hn & Hnn & Hpp & Hrest).
    destruct (Z.eqb_spec x NULL) as [|_]; [contradiction|].
    assert (Hp4 : in_arena s x 4 = true).
    { apply in_arena_inv in Hp. apply in_arena_true; lia. }
    unfold NEXT_FREE, PREV_FREE.
    set (nx := ptr_at s (x + DSIZE)) in *.
    set (pv := ptr_at s x) in *.
    eapply exec_bind; [apply load_ptr_ok; exact Hn|]. cbv beta.
    change (ptr_at (with_out s o) (x + DSIZE)) with nx.
    eapply exec_bind
      with (a := negb (nx =? NULL) && negb (ptr_at s nx =? x)) (s1 := with_out s o).
    { destruct (Z.eqb_spec nx NULL) as [E|E]; cbn [negb andb]; [reflexivity|].
      eapply exec_bind; [apply load_ptr_ok; exact Hn|]. cbv beta.
      eapply exec_bind; [apply load_ptr_ok; exact (Hnn E)|]. reflexivity. }
    cbv beta.
    eapply exec_bind; [apply say_next|]. cbv beta.
    eapply exec_bind; [apply load_ptr_ok; exact Hp|]. cbv beta.
    change (ptr_at (with_out s _) x) with pv.
    eapply exec_bind
      with (a := negb (pv =? NULL) && negb (ptr_at s (pv + DSIZE) =? x))
           (s1 := with_out s (o ++ (if negb (nx =? NULL) && negb (ptr_at s nx =? x)
                                    then ["Links in linked list do not match"%string]
                                    else []))).
    { destruct (Z.eqb_spec pv NULL) as [E|E]; cbn [negb andb]; [reflexivity|].
      eapply exec_bind; [apply load_ptr_ok; exact Hp|]. cbv beta.
      eapply exec_bind; [apply load_ptr_ok; exact (Hpp E)|]. reflexivity. }
    cbv beta.
    eapply exec_bind; [apply say_next|]. cbv beta.
    eapply exec_bind; [apply GET_SIZE_ok; exact Hp4|]. cbv beta.
    change (size_at (with_out s _) x) with (size_at s x).
    eapply exec_bind; [apply say_next|]. cbv beta.
    eapply exec_bind; [apply GET_ALLOC_ok; exact Hp4|]. cbv beta.
    change (alloc_at (with_out s _) x) with (alloc_at s x).
    eapply exec_bind; [apply say_next|]. cbv beta.
    eapply exec_bind; [apply load_ptr_ok; exact Hn|]. cbv beta.
    change (ptr_at (with_out s _) (x + DSIZE)) with nx.
    rewrite IH with (o := _) by (try exact Hrest; cbn [length] in Hfuel; lia).
    f_equal. f_equal. unfold list_report. cbv zeta. fold nx. fold pv.
    rewrite <- !app_assoc. f_equal. f_equal. f_equal.
    destruct (find_bucket (size_at s x) =? i); destruct (alloc_at s x =? 0); reflexivity.
Qed.

(** * Further properties of the allocator *)

(** Discharges a side condition over a concrete state by evaluation. *)
Ltac settle :=
  first [ by_compute | intro; settle | split; settle | left; settle | right; settle ].

(** A run that returns [r] ends in the state [after] names. *)
Lemma run_after {A} (c : M A) (s : state) (r : A) :
  value_of (c s) = Some r -> c s = Ok r (after c s).
Proof.
  unfold value_of, after. destruct (c s) as [a s'| |]; intros H; inversion H.
  reflexivity.
Qed.

(** The heap right after [mm_init] in the 20 MB arena: one free block of 168
    bytes at 65648, listed in bucket 3. *)
Definition fresh_heap : state := after mm_init (arena zero_mem).

(** X1.  [remove_free] unlinks a listed block: what pointed to it -- the
    bucket slot of its size when its previous link is null, else the next
    link of its predecessor -- now holds its successor; the previous link of
    its successor, if there is one, holds its predecessor; no other byte of
    memory is written and the arena and the static pointers stay. *)
Theorem remove_free_unlinks (q : Z) (s : state) :
  let slot := seg_free s + 8 * find_bucket (size_at s (HDRP q)) in
  let prev := ptr_at s q in
  let next := ptr_at s (q + DSIZE) in
  listed s q ->
  exists s',
    remove_free q s = Ok tt s' /\
    (prev = NULL -> ptr_at s' slot = next) /\
    (prev <> NULL -> ptr_at s' (prev + DSIZE) = next) /\
    (next <> NULL -> ptr_at s' next = prev) /\
    (forall x,
       (prev <> NULL \/ x < slot \/ slot + 8 <= x) ->
       (prev = NULL \/ x < prev + DSIZE \/ prev + DSIZE + 8 <= x) ->
       (next = NULL \/ x < next \/ next + 8 <= x) ->
       bytes s' x = bytes s x) /\
    same_frame s s'.
Proof. exact (remove_free_spec q s). Qed.

Lemma remove_free_unlinks_witness :
  exists s',
    remove_free 65648 fresh_heap = Ok tt s' /\
    ptr_at s' (seg_free fresh_heap + 8 * 3) = NULL.
Proof.
  pose proof (remove_free_unlinks 65648 fresh_heap) as H. cbv zeta in H.
  assert (E1 : find_bucket (size_at fresh_heap (HDRP 65648)) = 3) by by_compute.
  assert (E2 : ptr_at fresh_heap 65648 = NULL) by by_compute.
  assert (E3 : ptr_at fresh_heap (65648 + DSIZE) = NULL) by by_compute.
  rewrite E1, E3 in H.
  destruct H as (s' & Hrun & H1 & _); [settle|].
  exists s'. split; [exact Hrun|exact (H1 E2)].
Defined.

(** X2.  [insert_free] puts the block at the front of the bucket of its
    header size: the bucket slot holds the block, the block's previous link
    is null and its next link the old front block, whose previous link, if
    there is one, holds the block; no other byte is written. *)
Theorem insert_free_pushes_front (bp : Z) (s : state) :
  let slot := seg_free s + 8 * find_bucket (size_at s (HDRP bp)) in
  let head := ptr_at s slot in
  insertable s bp ->
  exists s',
    insert_free bp s = Ok tt s' /\
    ptr_at s' slot = bp /\
    ptr_at s' bp = NULL /\
    ptr_at s' (bp + DSIZE) = head /\
    (head <> NULL -> ptr_at s' head = bp) /\
    (forall x,
       (x < slot \/ slot + 8 <= x) -> (x < bp \/ bp + 16 <= x) ->
       (head = NULL \/ x < head \/ head + 8 <= x) ->
       bytes s' x = bytes s x) /\
    same_frame s s'.
Proof. exact (insertable_spec bp s). Qed.

Lemma insert_free_pushes_front_witness :
  let s := after (remove_free 65648) fresh_heap in
  exists s',
    insert_free 65648 s = Ok tt s' /\ ptr_at s' (seg_free s + 8 * 3) = 65648.
Proof.
  intros s.
  pose proof (insert_free_pushes_front 65648 s) as H. cbv zeta in H.
  assert (E1 : find_bucket (size_at s (HDRP 65648)) = 3) by by_compute.
  rewrite E1 in H.
  destruct H as (s' & Hrun & H1 & _); [settle|].
  exists s'. split; [exact Hrun|exact H1].
Defined.

(** X3.  Putting a block on its list and taking it off again restores the
    list: provided the old front block had a null previous link, every byte
    outside the two link words of the block reads as before. *)
Theorem insert_then_remove_restores (bp : Z) (s : state) :
  let slot := seg_free s + 8 * find_bucket (size_at s (HDRP bp)) in
  let head := ptr_at s slot in
  insertable s bp ->
  (head = NULL \/ ptr_at s head = NULL) ->
  exists s1 s2,
    insert_free bp s = Ok tt s1 /\
    remove_free bp s1 = Ok tt s2 /\
    (forall x, x < bp \/ bp + 16 <= x ->
       Mem.byte_at (bytes s2) x = Mem.byte_at (bytes s) x) /\
    same_frame s s2.
Proof. exact (insert_remove_spec bp s). Qed.

Lemma insert_then_remove_restores_witness :
  let s := after (remove_free 65648) fresh_heap in
  exists s1 s2,
    insert_free 65648 s = Ok tt s1 /\ remove_free 65648 s1 = Ok tt s2 /\
    same_frame s s2.
Proof.
  intros s.
  pose proof (insert_then_remove_restores 65648 s) as H. cbv zeta in H.
  destruct H as (s1 & s2 & Hrun1 & Hrun2 & _ & Hfr); [settle|settle|].
  exists s1, s2. split; [exact Hrun1|]. split; [exact Hrun2|exact Hfr].
Defined.

(** X4.  [free] of a block whose bucket is empty: the block is tagged free
    with its own size in header and footer and becomes the only block of the
    bucket; the bytes outside its header, its footer, its two link words and
    the bucket slot are left as they were.  The neighbours of the block are
    not looked at, so nothing is merged on this path. *)
Theorem free_into_empty_bucket (bp : Z) (s : state) :
  let size := size_at s (HDRP bp) in
  let slot := seg_free s + 8 * find_bucket size in
  bp <> 0 -> heap_listp s <> 0 -> heap_block s bp -> ptr_at s slot = NULL ->
  exists s',
    free bp s = Ok tt s' /\
    size_at s' (HDRP bp) = size /\ alloc_at s' (HDRP bp) = 0 /\
    size_at s' (bp + size - DSIZE) = size /\ alloc_at s' (bp + size - DSIZE) = 0 /\
    ptr_at s' slot = bp /\ ptr_at s' bp = NULL /\ ptr_at s' (bp + DSIZE) = NULL /\
    (forall x,
       (x < HDRP bp \/ bp + 16 <= x) ->
       (x < bp + size - DSIZE \/ bp + size - DSIZE + 4 <= x) ->
       (x < slot \/ slot + 8 <= x) -> bytes s' x = bytes s x) /\
    same_frame s s'.
Proof. exact (free_direct_spec bp s). Qed.

Lemma free_into_empty_bucket_witness :
  let s := after (malloc 2 16) fresh_heap in
  exists s',
    free 65648 s = Ok tt s' /\ alloc_at s' (HDRP 65648) = 0 /\
    ptr_at s' (65648 + DSIZE) = NULL.
Proof.
  intros s.
  pose proof (free_into_empty_bucket 65648 s) as H. cbv zeta in H.
  destruct H as (s' & Hrun & _ & H2 & _ & _ & _ & _ & H7 & _);
    [settle|settle|settle|settle|].
  exists s'. split; [exact Hrun|]. split; [exact H2|exact H7].
Defined.

(** X5.  [coalesce], case 1: the block in front (found through the footer
    before [bp]) and the block behind are both allocated.  Nothing is
    merged; the block keeps its tags and is put at the front of the bucket
    of its size, and [bp] is returned. *)
Theorem coalesce_between_allocated (bp : Z) (s : state) :
  let slot := seg_free s + 8 * find_bucket (size_at s (HDRP bp)) in
  let head := ptr_at s slot in
  between_tags s bp -> insertable s bp ->
  alloc_at s (bp - DSIZE) <> 0 ->
  alloc_at s (HDRP (bp + size_at s (HDRP bp))) <> 0 ->
  exists s',
    coalesce bp s = Ok bp s' /\
    ptr_at s' slot = bp /\ ptr_at s' bp = NULL /\ ptr_at s' (bp + DSIZE) = head /\
    (head <> NULL -> ptr_at s' head = bp) /\
    (forall x,
       (x < slot \/ slot + 8 <= x) -> (x < bp \/ bp + 16 <= x) ->
       (head = NULL \/ x < head \/ head + 8 <= x) ->
       bytes s' x = bytes s x) /\
    same_frame s s'.
Proof. exact (coalesce_case1_spec bp s). Qed.

Lemma coalesce_between_allocated_witness :
  let s := after (malloc 2 16) (after (malloc 2 16) (after (malloc 2 16) fresh_heap)) in
  exists s',
    coalesce 65672 s = Ok 65672 s' /\ ptr_at s' (seg_free s + 8 * 0) = 65672.
Proof.
  intros s.
  pose proof (coalesce_between_allocated 65672 s) as H. cbv zeta in H.
  assert (E1 : find_bucket (size_at s (HDRP 65672)) = 0) by by_compute.
  rewrite E1 in H.
  destruct H as (s' & Hrun & H1 & _); [settle|settle|settle|settle|].
  exists s'. split; [exact Hrun|exact H1].
Defined.

(** X6.  [coalesce], case 2: the block in front is allocated, the block
    behind is free and on a list.  The block behind is taken off its list,
    and the two become one free block that starts at [bp], carries the sum
    of the two sizes in header and footer, and is put at the front of the
    bucket of that sum. *)
Theorem coalesce_with_next (bp : Z) (s : state) :
  let size := size_at s (HDRP bp) in
  let nb := bp + size in
  let total := size + size_at s (HDRP nb) in
  let slot := seg_free s + 8 * find_bucket total in
  let head := ptr_at (after (remove_free nb) s) slot in
  between_tags s bp -> listed s nb ->
  alloc_at s (bp - DSIZE) <> 0 -> alloc_at s (HDRP nb) = 0 ->
  seg_free s + 8 * BUCKETS <= HDRP bp ->
  24 <= total < UINT_MOD -> HDRP bp + total <= mem_brk s ->
  (head = NULL \/
   (seg_free s + 8 * BUCKETS <= head /\ head + 8 <= mem_brk s /\
    (head + 8 <= HDRP bp \/ HDRP bp + total <= head))) ->
  exists s',
    coalesce bp s = Ok bp s' /\
    size_at s' (HDRP bp) = total /\ alloc_at s' (HDRP bp) = 0 /\
    size_at s' (bp + total - DSIZE) = total /\ alloc_at s' (bp + total - DSIZE) = 0 /\
    ptr_at s' slot = bp /\ ptr_at s' bp = NULL /\ ptr_at s' (bp + DSIZE) = head /\
    (head <> NULL -> ptr_at s' head = bp) /\
    same_frame s s'.
Proof. exact (coalesce_case2_spec bp s). Qed.

Lemma coalesce_with_next_witness :
  let s := after (malloc 2 16) fresh_heap in
  exists s',
    coalesce 65648 s = Ok 65648 s' /\
    size_at s' (HDRP 65648) = 168 /\ alloc_at s' (HDRP 65648) = 0.
Proof.
  intros s.
  pose proof (coalesce_with_next 65648 s) as H. cbv zeta in H.
  assert (E1 : size_at s (HDRP 65648) +
               size_at s (HDRP (65648 + size_at s (HDRP 65648))) = 168) by by_compute.
  rewrite E1 in H.
  destruct H as (s' & Hrun & H1 & H2 & _);
    [settle|settle|settle|settle|settle|settle|settle|settle|].
  exists s'. split; [exact Hrun|]. split; [exact H1|exact H2].
Defined.

(** X7.  [coalesce], case 3: the block in front is free and on a list, the
    block behind is allocated.  The block in front is taken off its list,
    and the two become one free block that starts where the block in front
    started; that start is what is returned. *)
Theorem coalesce_with_prev (bp : Z) (s : state) :
  let size := size_at s (HDRP bp) in
  let pb := bp - size_at s (bp - DSIZE) in
  let total := size + size_at s (bp - DSIZE) in
  let slot := seg_free s + 8 * find_bucket total in
  let head := ptr_at (after (remove_free pb) s) slot in
  between_tags s bp -> listed s pb ->
  alloc_at s (bp - DSIZE) = 0 -> alloc_at s (HDRP (bp + size)) <> 0 ->
  24 <= size_at s (bp - DSIZE) -> 8 <= size -> total < UINT_MOD ->
  (ptr_at s pb = NULL \/ ptr_at s pb + 16 <= HDRP pb \/ HDRP pb + total <= ptr_at s pb) ->
  (ptr_at s (pb + DSIZE) = NULL \/ ptr_at s (pb + DSIZE) + 16 <= HDRP pb \/
   HDRP pb + total <= ptr_at s (pb + DSIZE)) ->
  (head = NULL \/
   (seg_free s + 8 * BUCKETS <= head /\ head + 8 <= mem_brk s /\
    (head + 8 <= HDRP pb \/ HDRP pb + total <= head))) ->
  exists s',
    coalesce bp s = Ok pb s' /\
    size_at s' (HDRP pb) = total /\ alloc_at s' (HDRP pb) = 0 /\
    size_at s' (pb + total - DSIZE) = total /\ alloc_at s' (pb + total - DSIZE) = 0 /\
    ptr_at s' slot = pb /\ ptr_at s' pb = NULL /\ ptr_at s' (pb + DSIZE) = head /\
    (head <> NULL -> ptr_at s' head = pb) /\
    same_frame s s'.
Proof. exact (coalesce_case3_spec bp s). Qed.

Lemma coalesce_with_prev_witness :
  let s := after (free 65648)
             (after (malloc 2 16) (after (malloc 2 16) (after (malloc 2 16) fresh_heap))) in
  exists s',
    coalesce 65672 s = Ok (65672 - 24) s' /\
    size_at s' (HDRP (65672 - 24)) = 24 + 24 /\ alloc_at s' (HDRP (65672 - 24)) = 0.
Proof.
  intros s.
  pose proof (coalesce_with_prev 65672 s) as H. cbv zeta in H.
  assert (E1 : size_at s (65672 - DSIZE) = 24) by by_compute.
  assert (E2 : size_at s (HDRP 65672) = 24) by by_compute.
  rewrite E1, E2 in H.
  destruct H as (s' & Hrun & H1 & H2 & _);
    [settle|settle|settle|settle|settle|settle|settle|settle|settle|settle|].
  exists s'. split; [exact Hrun|]. split; [exact H1|exact H2].
Defined.

(** X8.  [coalesce], case 4: both neighbours are free and on lists.  Both
    are taken off, the one in front first, and the three blocks become one
    free block that starts where the block in front started and carries the
    sum of the three sizes. *)
Theorem coalesce_with_both (bp : Z) (s : state) :
  let size := size_at s (HDRP bp) in
  let pb := bp - size_at s (bp - DSIZE) in
  let nb := bp + size in
  let nsz := size_at s (HDRP nb) in
  let total := size + size_at s (bp - DSIZE) + nsz in
  let slot := seg_free s + 8 * find_bucket total in
  let s1 := after (remove_free pb) s in
  let s2 := after (remove_free nb) s1 in
  let head := ptr_at s2 slot in
  between_tags s bp -> listed s pb -> listed s1 nb ->
  alloc_at s (bp - DSIZE) = 0 -> alloc_at s (HDRP nb) = 0 ->
  size_at s (nb + nsz - DSIZE) = nsz ->
  24 <= size_at s (bp - DSIZE) -> 8 <= size -> 24 <= nsz ->
  total < UINT_MOD -> HDRP pb + total <= mem_brk s ->
  links_miss s pb (bp - DSIZE) nb -> links_miss s1 nb (bp - DSIZE) nb ->
  (head = NULL \/
   (seg_free s + 8 * BUCKETS <= head /\ head + 8 <= mem_brk s /\
    (head + 8 <= HDRP pb \/ HDRP pb + total <= head))) ->
  exists s',
    coalesce bp s = Ok pb s' /\
    size_at s' (HDRP pb) = total /\ alloc_at s' (HDRP pb) = 0 /\
    size_at s' (pb + total - DSIZE) = total /\ alloc_at s' (pb + total - DSIZE) = 0 /\
    ptr_at s' slot = pb /\ ptr_at s' pb = NULL /\ ptr_at s' (pb + DSIZE) = head /\
    (head <> NULL -> ptr_at s' head = pb) /\
    same_frame s s'.
Proof. exact (coalesce_case4_spec bp s). Qed.

Lemma coalesce_with_both_witness :
  let s := after (free 65648) (after (malloc 2 16) (after (malloc 2 16) fresh_heap)) in
  exists s',
    coalesce 65672 s = Ok (65672 - 24) s' /\
    size_at s' (HDRP (65672 - 24)) = 24 + 24 + 120 /\
    alloc_at s' (HDRP (65672 - 24)) = 0.
Proof.
  intros s.
  pose proof (coalesce_with_both 65672 s) as H. cbv zeta in H.
  assert (E1 : size_at s (65672 - DSIZE) = 24) by by_compute.
  assert (E2 : size_at s (HDRP 65672) = 24) by by_compute.
  rewrite E1, E2 in H.
  assert (E3 : size_at s (HDRP (65672 + 24)) = 120) by by_compute.
  rewrite E3 in H.
  destruct H as (s' & Hrun & H1 & H2 & _);
    [settle|settle|settle|settle|settle|settle|settle|settle|settle|settle|settle|
     settle|settle|settle|].
  exists s'. split; [exact Hrun|]. split; [exact H1|exact H2].
Defined.

(** X9.  [extend_heap] when the host has room and the last block of the
    heap is allocated: the arena grows by the request rounded up to an even
    number of words; the old epilogue header becomes the header of a new
    free block of that size, a new epilogue header ends the arena, and the
    new block is at the front of its bucket.  The block starts at the old
    end of the arena, which is what is returned; below the old epilogue only
    the bucket slot and the previous link of the old front block change. *)
Theorem extend_heap_appends_block (words : Z) (s : state) :
  let size := WSIZE * (words + words mod 2) in
  let bp := mem_brk s in
  let psz := size_at s (bp - DSIZE) in
  let slot := seg_free s + 8 * find_bucket size in
  let head := ptr_at s slot in
  sane_arena s -> mem_lo s <= seg_free s -> seg_free s + 8 * BUCKETS <= HDRP bp ->
  24 <= size < UINT_MOD -> bp + size <= mem_max s ->
  8 <= psz -> mem_lo s <= HDRP (bp - psz) -> size_at s (HDRP (bp - psz)) = psz ->
  alloc_at s (bp - DSIZE) <> 0 ->
  (head = NULL \/ (seg_free s + 8 * BUCKETS <= head /\ head + 8 <= HDRP bp)) ->
  exists s',
    extend_heap words s = Ok bp s' /\
    mem_brk s' = bp + size /\
    size_at s' (HDRP bp) = size /\ alloc_at s' (HDRP bp) = 0 /\
    size_at s' (bp + size - DSIZE) = size /\ alloc_at s' (bp + size - DSIZE) = 0 /\
    size_at s' (HDRP (bp + size)) = 0 /\ alloc_at s' (HDRP (bp + size)) = 1 /\
    ptr_at s' slot = bp /\ ptr_at s' bp = NULL /\ ptr_at s' (bp + DSIZE) = head /\
    (head <> NULL -> ptr_at s' head = bp) /\
    (forall x, x < HDRP bp -> (x < slot \/ slot + 8 <= x) ->
               (head = NULL \/ x < head \/ head + 8 <= x) -> bytes s' x = bytes s x) /\
    mem_lo s' = mem_lo s /\ mem_max s' = mem_max s /\
    heap_listp s' = heap_listp s /\ seg_free s' = seg_free s /\ out s' = out s.
Proof. exact (extend_heap_spec words s). Qed.

Lemma extend_heap_appends_block_witness :
  let s := after (malloc 2 152) fresh_heap in
  exists s',
    extend_heap 42 s = Ok (mem_brk s) s' /\
    mem_brk s' = mem_brk s + WSIZE * (42 + 42 mod 2) /\
    alloc_at s' (HDRP (mem_brk s)) = 0.
Proof.
  intros s.
  pose proof (extend_heap_appends_block 42 s) as H. cbv zeta in H.
  destruct H as (s' & Hrun & H1 & _ & H3 & _);
    [settle|settle|settle|settle|settle|settle|settle|settle|settle|settle|].
  exists s'. split; [exact Hrun|]. split; [exact H1|exact H3].
Defined.

(** X10.  [extend_heap] when the host has no room for the rounded request:
    it returns null and leaves the state as it was. *)
Theorem extend_heap_refused (words : Z) (s : state) :
  0 <= words -> WSIZE * (words + words mod 2) < SIZE_MOD ->
  mem_max s < mem_brk s + WSIZE * (words + words mod 2) ->
  extend_heap words s = Ok NULL s.
Proof. exact (extend_heap_no_room words s). Qed.

Lemma extend_heap_refused_witness :
  let s := after mm_init (tight_arena zero_mem) in
  extend_heap 42 s = Ok NULL s.
Proof.
  intros s. apply (extend_heap_refused 42 s); settle.
Defined.

(** X11.  [mm_init] on an arena with 280 bytes of room: it returns 0; the
    bucket table sits at the old end [p] of the arena, followed by a padding
    word, the prologue header and footer (size 8, allocated), one free block
    of 168 bytes and the epilogue header (size 0, allocated); the free block
    is the only entry of the table, in bucket 3; [heap_listp] is left on the
    prologue footer.  Nothing below [p] is written. *)
Theorem mm_init_lays_out_heap (s : state) :
  let p := mem_brk s in
  sane_arena s -> mem_lo s <= p -> p + 280 <= mem_max s ->
  exists s',
    mm_init s = Ok 0 s' /\
    seg_free s' = p /\ heap_listp s' = p + 104 /\ mem_brk s' = p + 280 /\
    mem_lo s' = mem_lo s /\ mem_max s' = mem_max s /\ out s' = out s /\
    (forall i, 0 <= i < BUCKETS -> i <> 3 -> ptr_at s' (p + 8 * i) = NULL) /\
    ptr_at s' (p + 8 * 3) = p + 112 /\
    size_at s' (p + 100) = 8 /\ alloc_at s' (p + 100) = 1 /\
    size_at s' (p + 104) = 8 /\ alloc_at s' (p + 104) = 1 /\
    size_at s' (p + 108) = 168 /\ alloc_at s' (p + 108) = 0 /\
    size_at s' (p + 272) = 168 /\ alloc_at s' (p + 272) = 0 /\
    size_at s' (p + 276) = 0 /\ alloc_at s' (p + 276) = 1 /\
    ptr_at s' (p + 112) = NULL /\ ptr_at s' (p + 120) = NULL /\
    (forall x, x < p -> bytes s' x = bytes s x).
Proof. exact (mm_init_spec s). Qed.

Lemma mm_init_lays_out_heap_witness :
  let s := arena zero_mem in
  exists s',
    mm_init s = Ok 0 s' /\ seg_free s' = mem_brk s /\
    heap_listp s' = mem_brk s + 104 /\ mem_brk s' = mem_brk s + 280.
Proof.
  intros s.
  pose proof (mm_init_lays_out_heap s) as H. cbv zeta in H.
  destruct H as (s' & Hrun & H1 & H2 & H3 & _); [settle|settle|settle|].
  exists s'. split; [exact Hrun|]. split; [exact H1|]. split; [exact H2|exact H3].
Defined.

(** X12.  [mm_init] when the host cannot give room for the bucket table: it
    returns -1 having stored the failure value of [mem_sbrk] in
    [heap_listp].  That value is not null, so a later [malloc] skips the
    initialisation and reads the bucket table through the [seg_free] pointer
    that was never set: it faults. *)
Theorem malloc_faults_after_failed_init (fuel : nat) (size : Z) (s : state) :
  0 <= mem_brk s < MINUS_ONE_PTR -> mem_max s < mem_brk s + 112 ->
  seg_free s = NULL -> 8 * BUCKETS <= mem_lo s -> size <> 0 ->
  mm_init s = Ok (-1) (with_heap_listp s MINUS_ONE_PTR) /\
  malloc fuel size (with_heap_listp s MINUS_ONE_PTR) =
    Fault (with_heap_listp s MINUS_ONE_PTR).
Proof.
  intros Hbrk Hroom Hseg Hlo Hsize.
  split; [apply mm_init_no_room; assumption|].
  destruct (malloc_after_failed_init fuel size s Hbrk Hroom Hseg Hlo Hsize)
    as (s1 & Hinit & Hm).
  rewrite (mm_init_no_room s Hbrk Hroom) in Hinit. inversion Hinit; subst s1. exact Hm.
Qed.

Lemma malloc_faults_after_failed_init_witness :
  let s := mem_init 65536 (65536 + 100) zero_mem in
  mm_init s = Ok (-1) (with_heap_listp s MINUS_ONE_PTR) /\
  malloc 1 8 (with_heap_listp s MINUS_ONE_PTR) = Fault (with_heap_listp s MINUS_ONE_PTR).
Proof.
  intros s. apply (malloc_faults_after_failed_init 1 8 s); settle.
Defined.

(** Shows that the bucket table of a concrete state holds the given lists. *)
Ltac show_buckets :=
  split; [reflexivity|];
  let i := fresh "i" in
  let Hi := fresh "Hi" in
  let Hcases := fresh "Hcases" in
  intros i Hi; unfold BUCKETS in Hi;
  assert (Hcases : i = 0 \/ i = 1 \/ i = 2 \/ i = 3 \/ i = 4 \/ i = 5 \/ i = 6 \/
                   i = 7 \/ i = 8 \/ i = 9 \/ i = 10 \/ i = 11) by lia;
  repeat (destruct Hcases as [->|Hcases]); try subst i;
  (split; [by_compute|]);
  cbn [nth Z.to_nat Pos.to_nat Pos.iter_op Nat.add is_list];
  repeat split; by_compute.

Ltac show_short_lists :=
  let l := fresh "l" in
  let Hin := fresh "Hin" in
  intros l Hin; cbn in Hin;
  repeat (destruct Hin as [<-|Hin]; [cbn; lia|]); contradiction.

(** X13.  [malloc] for a request of 1 up to 2^64 - 16 bytes (the requests
    whose size adjustment does not wrap around), on an initialised heap
    whose lists hold a block that fits: the first fit (buckets from the one of the adjusted size upward,
    each front to back) is taken off its list, placed and returned; its
    header is marked allocated, with the adjusted size when the rest is
    split off and with the size the block had otherwise.  Either way the
    block is at least eight bytes larger than the request. *)
Theorem malloc_takes_first_fit (fuel : nat) (size : Z) (s : state) (ls : list (list Z)) :
  let asize := adjust_size size in
  let bp := first_fit s asize (concat (skipn (Z.to_nat (find_bucket asize)) ls)) in
  let csize := size_at s (HDRP bp) in
  let slot := seg_free s + 8 * find_bucket (csize - asize) in
  let head := ptr_at (after (remove_free bp) s) slot in
  heap_listp s <> 0 -> 0 < size -> size + 15 < SIZE_MOD ->
  buckets_are s ls -> (forall l, In l ls -> (length l < fuel)%nat) ->
  bp <> NULL -> listed s bp -> HDRP bp + csize <= mem_brk s ->
  (24 <= csize - asize ->
   head = NULL \/
   (mem_lo s <= head /\ head + 8 <= mem_brk s /\
    (head + 8 <= HDRP bp \/ HDRP bp + csize <= head) /\
    (head + 8 <= seg_free s \/ seg_free s + 8 * BUCKETS <= head))) ->
  exists s',
    malloc fuel size s = Ok bp s' /\
    alloc_at s' (HDRP bp) = 1 /\
    size_at s' (HDRP bp) = (if 24 <=? csize - asize then asize else csize) /\
    size + 8 <= size_at s' (HDRP bp) /\
    same_frame s s'.
Proof. exact (malloc_fit_spec fuel size s ls). Qed.

Lemma malloc_takes_first_fit_witness :
  exists s',
    malloc 2 16 fresh_heap = Ok 65648 s' /\ alloc_at s' (HDRP 65648) = 1.
Proof.
  set (ls := [[]; []; []; [65648]; []; []; []; []; []; []; []; []] : list (list Z)).
  pose proof (malloc_takes_first_fit 2 16 fresh_heap ls) as H. cbv zeta in H.
  assert (E : first_fit fresh_heap (adjust_size 16)
                (concat (skipn (Z.to_nat (find_bucket (adjust_size 16))) ls)) = 65648)
    by by_compute.
  rewrite E in H.
  destruct H as (s' & Hrun & H1 & _);
    [settle|settle|settle|unfold ls; show_buckets|unfold ls; show_short_lists
    |settle|settle|settle|settle|].
  exists s'. split; [exact Hrun|exact H1].
Defined.



(** X15.  Whatever entry point returns -- [mm_init], [malloc], [free] or
    [realloc] -- it has not moved the base or the limit of the arena and has
    printed nothing; the end of the arena has not moved back, and is still
    within the limit if it was. *)
Theorem entry_points_keep_arena (fuel : nat) (s s' : state) :
  (exists r, mm_init s = Ok r s') \/
  (exists size r, malloc fuel size s = Ok r s') \/
  (exists bp, free bp s = Ok tt s') \/
  (exists ptr size r, realloc fuel ptr size s = Ok r s') ->
  arena_grows s s'.
Proof.
  intros [(r & H)|[(size & r & H)|[(bp & H)|(ptr & size & r & H)]]].
  - eapply mm_init_grows; exact H.
  - apply malloc_kept in H. exact (proj1 H).
  - apply free_kept in H. exact (proj1 H).
  - apply realloc_kept in H. exact (proj1 H).
Qed.

Lemma entry_points_keep_arena_witness :
  arena_grows fresh_heap (after (malloc 2 16) fresh_heap).
Proof.
  apply (entry_points_keep_arena 2 fresh_heap (after (malloc 2 16) fresh_heap)).
  right. left. exists 16, 65648.
  apply (run_after (malloc 2 16) fresh_heap 65648). by_compute.
Defined.

(** X16.  Once [heap_listp] is set, no call of [malloc], [free] or
    [realloc] changes [heap_listp] or [seg_free]: the bucket table and the
    prologue stay where [mm_init] has put them. *)
Theorem static_pointers_stay (fuel : nat) (s s' : state) :
  (exists size r, malloc fuel size s = Ok r s') \/
  (exists bp, free bp s = Ok tt s') \/
  (exists ptr size r, realloc fuel ptr size s = Ok r s') ->
  heap_listp s <> 0 ->
  heap_listp s' = heap_listp s /\ seg_free s' = seg_free s.
Proof.
  intros [(size & r & H)|[(bp & H)|(ptr & size & r & H)]] Hset.
  - apply malloc_kept in H. exact (proj2 H Hset).
  - apply free_kept in H. exact (proj2 H Hset).
  - apply realloc_kept in H. exact (proj2 H Hset).
Qed.

Lemma static_pointers_stay_witness :
  let s := after (malloc 2 16) fresh_heap in
  heap_listp (after (realloc 2 65648 40) s) = heap_listp s /\
  seg_free (after (realloc 2 65648 40) s) = seg_free s.
Proof.
  intros s.
  assert (Hv : value_of (realloc 2 65648 40 s) = Some 65672) by by_compute.
  apply (static_pointers_stay 2 s (after (realloc 2 65648 40) s)).
  - right. right. exists 65648, 40, 65672.
    exact (run_after (realloc 2 65648 40) s 65672 Hv).
  - by_compute.
Defined.

(** X17.  [cycle_check] on a list whose next links never reach null (a
    cycle): the loop has no exit but the tortoise becoming null, so it is
    still running after any number of steps -- the function reports the
    cycle again and again and does not return. *)
Theorem cycle_check_spins_on_a_cycle (P : Z -> Prop) (fuel : nat) (bp : Z) (s : state) :
  ring s P -> P bp -> cycle_check fuel bp s = OutOfFuel.
Proof.
  intros Hring Hbp. unfold cycle_check.
  apply (cycle_check_loop_runs_on P); assumption.
Qed.

Lemma cycle_check_spins_on_a_cycle_witness :
  let s := after (set_NEXT_FREE 65648 65648) fresh_heap in
  cycle_check 7 65648 s = OutOfFuel.
Proof.
  intros s. apply (cycle_check_spins_on_a_cycle (fun q => q = 65648) 7 65648 s).
  - intros q ->. settle.
  - reflexivity.
Defined.

(** X18.  [check_block] on a block whose tags can be read prints [report]
    and changes nothing else: a line when header and footer differ in size
    or allocation bit; a line when the size field is zero (the test for a
    multiple of eight can never fire, [GET_SIZE] having masked the low
    bits); a line when the block and the one behind it are both free; and a
    line when the block pointer is the end of the arena. *)
Theorem check_block_prints_report (bp : Z) (s : state) (o : list String.string) :
  in_arena s (HDRP bp) 4 = true ->
  in_arena s (bp + size_at s (HDRP bp) - DSIZE) 4 = true ->
  (alloc_at s (HDRP bp) = 0 -> in_arena s (HDRP (bp + size_at s (HDRP bp))) 4 = true) ->
  check_block bp (with_out s o) = Ok tt (with_out s (o ++ report s bp)).
Proof. exact (check_block_spec bp s o). Qed.

Lemma check_block_prints_report_witness :
  check_block 65648 (with_out fresh_heap []) =
    Ok tt (with_out fresh_heap ([] ++ report fresh_heap 65648)) /\
  report fresh_heap 65648 = [].
Proof.
  split; [|by_compute].
  apply (check_block_prints_report 65648 fresh_heap []); settle.
Defined.

(** X19.  The first loop of [mm_checkheap]: over the blocks [l] from [bp]
    up to the first header whose size field is zero, [check_block] runs once
    on each, in address order, and the loop ends at that header.  None of
    the blocks it checks can draw the line about the block size. *)
Theorem check_blocks_walks_heap
  (s : state) (l : list Z) (fuel : nat) (bp : Z) (o : list String.string) :
  blocks s bp l -> (length l < fuel)%nat ->
  check_blocks fuel bp (with_out s o) =
    Ok (walk_end s bp l) (with_out s (o ++ concat (map (report s) l))) /\
  forall x, In x l -> ~ In "Block size error"%string (report s x).
Proof.
  intros Hb Hfuel. split; [apply check_blocks_spec; assumption|].
  intros x Hx Hin. unfold report in Hin. cbv zeta in Hin.
  rewrite (blocks_no_size_error s l bp Hb x Hx) in Hin.
  rewrite !in_app_iff in Hin.
  destruct Hin as [H|[H|[H|H]]].
  - destruct ((size_at s (HDRP x) =? size_at s (x + size_at s (HDRP x) - DSIZE)) &&
              (alloc_at s (HDRP x) =? alloc_at s (x + size_at s (HDRP x) - DSIZE)));
      cbn [In] in H; [contradiction|]. destruct H as [H|H]; [discriminate H|contradiction].
  - contradiction.
  - destruct ((alloc_at s (HDRP x) =? 0) &&
              (alloc_at s (HDRP (x + size_at s (HDRP x))) =? 0));
      cbn [In] in H; [|contradiction]. destruct H as [H|H]; [discriminate H|contradiction].
  - destruct (x =? mem_brk s); cbn [In] in H; [|contradiction].
    destruct H as [H|H]; [discriminate H|contradiction].
Qed.

Lemma check_blocks_walks_heap_witness :
  check_blocks 3 65640 (with_out fresh_heap []) =
    Ok (walk_end fresh_heap 65640 [65640; 65648])
       (with_out fresh_heap ([] ++ concat (map (report fresh_heap) [65640; 65648]))) /\
  walk_end fresh_heap 65640 [65640; 65648] = 65816.
Proof.
  split; [|by_compute].
  apply (check_blocks_walks_heap fresh_heap [65640; 65648] 3 65640 []).
  - cbn [blocks]. settle.
  - cbn [length]. lia.
Defined.

(** X20.  [mm_checkheap], when it returns, has only printed: memory, the
    arena and the two static pointers are what they were. *)
Theorem mm_checkheap_only_prints (fuel : nat) (lineno : Z) (s s' : state) (u : unit) :
  mm_checkheap fuel lineno s = Ok u s' ->
  bytes s' = bytes s /\ mem_lo s' = mem_lo s /\ mem_brk s' = mem_brk s /\
  mem_max s' = mem_max s /\ heap_listp s' = heap_listp s /\ seg_free s' = seg_free s.
Proof. exact (mm_checkheap_reads_only fuel lineno s s' u). Qed.

Lemma mm_checkheap_only_prints_witness :
  let s := after (malloc 2 152) fresh_heap in
  let s' := after (mm_checkheap 5 0) s in
  mm_checkheap 5 0 s = Ok tt s' /\ bytes s' = bytes s /\ seg_free s' = seg_free s.
Proof.
  intros s s'.
  assert (Hrun : mm_checkheap 5 0 s = Ok tt s')
    by (apply (run_after (mm_checkheap 5 0) s tt); by_compute).
  destruct (mm_checkheap_only_prints 5 0 s s' tt Hrun) as (H1 & _ & _ & _ & _ & H6).
  split; [exact Hrun|]. split; [exact H1|exact H6].
Defined.

(** X21.  [find_fit] only reads: whatever it returns, the state is the one
    it was called in. *)
Theorem find_fit_only_reads (fuel : nat) (asize : Z) (s s' : state) (r : Z) :
  find_fit fuel asize s = Ok r s' -> s' = s.
Proof. exact (find_fit_pure fuel asize s s' r). Qed.

Lemma find_fit_only_reads_witness :
  after (find_fit 2 24) fresh_heap = fresh_heap.
Proof.
  apply (find_fit_only_reads 2 24 fresh_heap (after (find_fit 2 24) fresh_heap) 65648).
  apply (run_after (find_fit 2 24) fresh_heap 65648). by_compute.
Defined.

(** X22.  Whatever the size -- also beyond the range of [int], where the
    cast in [find_bucket] goes negative -- the index returned is one of the
    twelve buckets, so the slot [seg_free[find_bucket(size)]] lies in the
    table. *)
Theorem find_bucket_stays_in_table (size : Z) (s : state) :
  0 <= find_bucket size < BUCKETS /\
  seg_free s <= seg_free s + 8 * find_bucket size /\
  seg_free s + 8 * find_bucket size + 8 <= seg_free s + 8 * BUCKETS.
Proof.
  pose proof (find_bucket_bounds size) as H. unfold BUCKETS. lia.
Qed.

(** X23.  The size [malloc] computes for a request that does not wrap
    around: 24 for requests up to 8 bytes, else the request plus 8 rounded
    up to a multiple of 8; it is a multiple of 8, at least 24, at least the
    request plus the two tags, and less than 16 above the request. *)
Theorem adjust_size_holds_request (size : Z) :
  0 < size -> size + 15 < SIZE_MOD ->
  adjust_size size =
    (if size <=? 8 then 24 else 8 * ((size + 8 + 7) / 8)) /\
  adjust_size size mod 8 = 0 /\
  24 <= adjust_size size /\
  size + 8 <= adjust_size size /\
  (8 < size -> adjust_size size < size + 16) /\
  (size < 16 -> adjust_size size = 24).
Proof. exact (adjust_size_in_range size). Qed.

Lemma adjust_size_holds_request_witness :
  adjust_size 100 = 8 * ((100 + 8 + 7) / 8) /\ 100 + 8 <= adjust_size 100.
Proof.
  destruct (adjust_size_holds_request 100) as (H1 & _ & _ & H4 & _); [settle|settle|].
  split; [exact H1|exact H4].
Defined.

(** X24.  A tag written with [PUT] and [PACK] reads back: the size through
    [GET_SIZE] and the allocation bit through [GET_ALLOC], for a size that
    is a multiple of eight and fits the 32-bit word. *)
Theorem tag_reads_back (p size alloc : Z) (s : state) :
  in_arena s p 4 = true ->
  size mod 8 = 0 -> 0 <= size < UINT_MOD -> alloc = 0 \/ alloc = 1 ->
  (PUT p (PACK size alloc) ;;;
   sz <- GET_SIZE p ;; al <- GET_ALLOC p ;; ret (sz, al)) s =
  Ok (size, alloc) (with_bytes s (Mem.wr 4 (bytes s) p (to_uint (PACK size alloc)))).
Proof. exact (put_get_tag p size alloc s). Qed.

Lemma tag_reads_back_witness :
  value_of ((PUT 65644 (PACK 48 1) ;;;
             sz <- GET_SIZE 65644 ;; al <- GET_ALLOC 65644 ;; ret (sz, al)) fresh_heap)
  = Some (48, 1).
Proof.
  rewrite (tag_reads_back 65644 48 1 fresh_heap); [reflexivity|settle|settle|settle|settle].
Defined.

(** X25.  Stepping from a block to the next and back, and from the next
    block to the previous and forth, ends where it started, provided the
    footer of the block holds the size of its header. *)
Theorem block_steps_round_trip (bp : Z) (s : state) :
  let size := size_at s (HDRP bp) in
  in_arena s (HDRP bp) 4 = true ->
  in_arena s (bp + size - DSIZE) 4 = true ->
  size_at s (bp + size - DSIZE) = size ->
  (nb <- NEXT_BLKP bp ;; PREV_BLKP nb) s = Ok bp s /\
  (pb <- PREV_BLKP (bp + size) ;; NEXT_BLKP pb) s = Ok (bp + size) s.
Proof.
  intros size Hh Hf Hag. split; [apply next_prev_round_trip; assumption|].
  assert (Hback : bp + size - size_at s (bp + size - DSIZE) = bp) by (rewrite Hag; lia).
  apply prev_next_round_trip.
  - exact Hf.
  - rewrite Hback. exact Hh.
  - rewrite Hback. symmetry. exact Hag.
Qed.

Lemma block_steps_round_trip_witness :
  (nb <- NEXT_BLKP 65648 ;; PREV_BLKP nb) fresh_heap = Ok 65648 fresh_heap.
Proof.
  apply (block_steps_round_trip 65648 fresh_heap); settle.
Defined.

(** X26.  The first [malloc] on a fresh arena with room for the initial
    heap (280 bytes), for a request of 1 to 160 bytes: [mm_init] lays the
    heap out at the end [p] of the arena, and the one free block, at
    [p + 112], is placed and returned -- split when at least 24 bytes are
    left over, whole otherwise; the arena is not extended any further. *)
Theorem first_malloc_returns_first_block (fuel : nat) (size : Z) (s : state) :
  let p := mem_brk s in
  let asize := adjust_size size in
  heap_listp s = 0 -> sane_arena s -> mem_lo s <= p -> p + 280 <= mem_max s ->
  0 < size <= 160 -> (2 <= fuel)%nat ->
  exists s',
    malloc fuel size s = Ok (p + 112) s' /\
    alloc_at s' (p + 108) = 1 /\
    size_at s' (p + 108) = (if 24 <=? 168 - asize then asize else 168) /\
    seg_free s' = p /\ heap_listp s' = p + 104 /\ mem_brk s' = p + 280.
Proof. exact (first_malloc_spec fuel size s). Qed.

Lemma first_malloc_returns_first_block_witness :
  let s := arena zero_mem in
  exists s', malloc 2 100 s = Ok (mem_brk s + 112) s' /\ alloc_at s' (mem_brk s + 108) = 1.
Proof.
  intros s.
  pose proof (first_malloc_returns_first_block 2 100 s) as H. cbv zeta in H.
  destruct H as (s' & Hrun & H1 & _); [settle|settle|settle|settle|settle|lia|].
  exists s'. split; [exact Hrun|exact H1].
Defined.

(** X27.  The second loop of [mm_checkheap] over one bucket list: for every
    block it prints [list_report].  The size and the allocation bit are read
    at the block pointer itself, where the previous link lies, so a block
    whose previous link is null -- the front block of a well-formed list --
    is taken for a block of size 0: it draws the line about the wrong bucket
    in every bucket but the first, and never the line about an allocated
    block, whatever its header holds. *)
Theorem check_list_reads_link_as_tag
  (s : state) (i : Z) (l : list Z) (fuel : nat) (head : Z) (o : list String.string) :
  chain s head l -> (length l < fuel)%nat ->
  check_list fuel i head (with_out s o) =
    Ok tt (with_out s (o ++ concat (map (list_report s i) l))) /\
  forall x, In x l -> ptr_at s x = NULL ->
    (In "Blocks are not in correct seg_list"%string (list_report s i x) <-> i <> 0) /\
    ~ In "Allocated block in free list"%string (list_report s i x).
Proof.
  intros Hc Hfuel. split; [apply check_list_spec; assumption|].
  intros x _ Hnull. destruct (null_link_as_tag s x Hnull) as [Hs Ha].
  unfold list_report. cbv zeta. rewrite Hnull, Hs, Ha.
  change (find_bucket 0) with 0. change (NULL =? NULL) with true.
  cbn [negb andb app].
  split; [split|].
  - intros Hin. rewrite !in_app_iff in Hin. destruct Hin as [H|[H|H]].
    + destruct (negb (ptr_at s (x + DSIZE) =? NULL) &&
                negb (ptr_at s (ptr_at s (x + DSIZE)) =? x));
        cbn [In] in H; [|contradiction].
      destruct H as [H|H]; [discriminate H|contradiction].
    + revert H. destruct (Z.eqb_spec 0 i) as [E|E]; intros H; [cbn [In] in H; contradiction|].
      intros Hi. apply E. symmetry. exact Hi.
    + cbn [In] in H. contradiction.
  - intros Hi. rewrite !in_app_iff. right. left.
    destruct (Z.eqb_spec 0 i) as [E|E]; [symmetry in E; contradiction|].
    left. reflexivity.
  - intros Hin. rewrite !in_app_iff in Hin. destruct Hin as [H|[H|H]].
    + destruct (negb (ptr_at s (x + DSIZE) =? NULL) &&
                negb (ptr_at s (ptr_at s (x + DSIZE)) =? x));
        cbn [In] in H; [|contradiction].
      destruct H as [H|H]; [discriminate H|contradiction].
    + destruct (0 =? i); cbn [In] in H; [contradiction|].
      destruct H as [H|H]; [discriminate H|contradiction].
    + cbn [In] in H. contradiction.
Qed.

Lemma check_list_reads_link_as_tag_witness :
  check_list 2 3 65648 (with_out fresh_heap []) =
    Ok tt (with_out fresh_heap ([] ++ concat (map (list_report fresh_heap 3) [65648]))) /\
  list_report fresh_heap 3 65648 = ["Blocks are not in correct seg_list"%string].
Proof.
  split; [|by_compute].
  assert (Hc : chain fresh_heap 65648 [65648]).
  { cbn [chain]. split; [reflexivity|]. split; [by_compute|]. split; [by_compute|].
    split; [by_compute|].
    split; [intros H; exfalso; apply H; by_compute|].
    split; [intros H; exfalso; apply H; by_compute|]. by_compute. }
  assert (Hl : (length [65648] < 2)%nat) by (cbn [length]; lia).
  exact (proj1 (check_list_reads_link_as_tag fresh_heap 3 [65648] 2 65648 [] Hc Hl)).
Defined.
